(** * The streaming agent loop of [src/lib/agent.ts]

    A shallow embedding of the SSE frame decoder ([parseEvent]), the content
    assembler and turn runner ([streamClaudeTurn]), the tool dispatcher
    ([runTool], from [src/lib/tools.ts]) and the orchestrator loop
    ([createAgentResponse]), followed by the properties the specification
    states about them.

    JavaScript strings are sequences of UTF-16 code units, JSON values are an
    inductive type, the [Map] of pending tool inputs and the sparse [content]
    array are finite maps keyed by the position number.  What the program
    takes from its platform and cannot decide itself (the numbers,
    [JSON.parse], [JSON.stringify], [fetch], [crypto.randomUUID], the bodies
    of the registered tools) is the interface [Host]; every theorem holds for
    every host. *)

From Stdlib Require Import Strings.String Strings.Ascii Strings.Byte.
From stdpp Require Import gmap list.

#[local] Open Scope N_scope.
#[local] Set Warnings "-register-all".

(** ** JavaScript strings *)

(** A string is its sequence of UTF-16 code units. *)
Abbreviation jstring := (list N).

(** The code units of an ASCII literal. *)
Fixpoint js (s : string) : jstring :=
  match s with
  | EmptyString => []
  | String a s' => N_of_ascii a :: js s'
  end.

Definition LF : N := 10.

(** ["\n\n"], the blank line that ends a frame. *)
Definition blank_line : jstring := [LF; LF].

(** [s.startsWith(p)] *)
Fixpoint startsWith (s p : jstring) {struct p} : bool :=
  match p, s with
  | [], _ => true
  | _ :: _, [] => false
  | c :: p', d :: s' => (c =? d) && startsWith s' p'
  end.

(** [s.indexOf(p)]; [None] stands for [-1]. *)
Fixpoint indexOf (s p : jstring) : option nat :=
  if startsWith s p then Some 0%nat
  else match s with
       | [] => None
       | _ :: s' => S <$> indexOf s' p
       end.

(** [s.slice(from, to)] and [s.slice(from)] for indices within the string. *)
Definition slice (s : jstring) (from to : nat) : jstring :=
  take (to - from) (drop from s).

Definition slice_from (s : jstring) (from : nat) : jstring := drop from s.

(** [s.split(sep)] for a separator of one code unit. *)
Fixpoint split (s : jstring) (sep : N) : list jstring :=
  match s with
  | [] => [[]]
  | c :: s' =>
      if c =? sep then [] :: split s' sep
      else match split s' sep with
           | l :: ls => (c :: l) :: ls
           | [] => [[c]]
           end
  end.

(** ECMAScript's WhiteSpace and LineTerminator code points, the ones
    [String.prototype.trim] strips. *)
Definition is_white_space (c : N) : bool :=
  (c =? 9) || (c =? 10) || (c =? 11) || (c =? 12) || (c =? 13) || (c =? 32)
  || (c =? 160) || (c =? 5760) || ((8192 <=? c) && (c <=? 8202))
  || (c =? 8232) || (c =? 8233) || (c =? 8239) || (c =? 8287)
  || (c =? 12288) || (c =? 65279).

Fixpoint trimStart (s : jstring) : jstring :=
  match s with
  | [] => []
  | c :: s' => if is_white_space c then trimStart s' else s
  end.

Definition trimEnd (s : jstring) : jstring := rev (trimStart (rev s)).

(** [s.trim()] *)
Definition trim (s : jstring) : jstring := trimEnd (trimStart s).

(** [lines.join] with the empty separator *)
Definition join_empty (parts : list jstring) : jstring := concat parts.

(** [parts.join] with a comma, as [Array.prototype.toString] does *)
Fixpoint join_comma (parts : list jstring) : jstring :=
  match parts with
  | [] => []
  | [p] => p
  | p :: rest => p ++ js "," ++ join_comma rest
  end.

(** A string is truthy when it is not empty. *)
Definition nonempty (s : jstring) : bool :=
  match s with [] => false | _ :: _ => true end.

(** ** [TextDecoder]: the streaming UTF-8 decoder

    [new TextDecoder()] decodes UTF-8, replaces malformed sequences by U+FFFD
    and drops a leading byte order mark.  With [{ stream: true }] a sequence
    cut by the end of a chunk is kept in the decoder until the next call. *)

Record Utf8 := {
  code_point : N;
  bytes_seen : N;
  bytes_needed : N;
  lower_boundary : N;
  upper_boundary : N
}.

Record TextDecoder := {
  utf8 : Utf8;
  bom_seen : bool
}.

Definition utf8_idle : Utf8 :=
  {| code_point := 0; bytes_seen := 0; bytes_needed := 0;
     lower_boundary := 128; upper_boundary := 191 |}.

Definition new_TextDecoder : TextDecoder :=
  {| utf8 := utf8_idle; bom_seen := false |}.

Definition REPLACEMENT : N := 65533.

(** A byte met when no sequence is open. *)
Definition utf8_lead (b : N) : Utf8 * list N :=
  if b <=? 127 then (utf8_idle, [b])
  else if (194 <=? b) && (b <=? 223) then
    ({| code_point := N.land b 31; bytes_seen := 0; bytes_needed := 1;
        lower_boundary := 128; upper_boundary := 191 |}, [])
  else if (224 <=? b) && (b <=? 239) then
    ({| code_point := N.land b 15; bytes_seen := 0; bytes_needed := 2;
        lower_boundary := if b =? 224 then 160 else 128;
        upper_boundary := if b =? 237 then 159 else 191 |}, [])
  else if (240 <=? b) && (b <=? 244) then
    ({| code_point := N.land b 7; bytes_seen := 0; bytes_needed := 3;
        lower_boundary := if b =? 240 then 144 else 128;
        upper_boundary := if b =? 244 then 143 else 191 |}, [])
  else (utf8_idle, [REPLACEMENT]).

(** One byte through the decoder: the new state and the code points that
    come out.  A byte that cannot continue the open sequence ends it with
    U+FFFD and is then read again as a first byte. *)
Definition utf8_byte (u : Utf8) (b : N) : Utf8 * list N :=
  if bytes_needed u =? 0 then utf8_lead b
  else if (lower_boundary u <=? b) && (b <=? upper_boundary u) then
    let cp := N.lor (N.shiftl (code_point u) 6) (N.land b 63) in
    let seen := bytes_seen u + 1 in
    if seen =? bytes_needed u then (utf8_idle, [cp])
    else ({| code_point := cp; bytes_seen := seen;
             bytes_needed := bytes_needed u;
             lower_boundary := 128; upper_boundary := 191 |}, [])
  else
    let '(u', out) := utf8_lead b in (u', REPLACEMENT :: out).

(** The UTF-16 code units of a code point. *)
Definition code_units (cp : N) : jstring :=
  if cp <? 65536 then [cp]
  else
    let v := cp - 65536 in
    [55296 + N.shiftr v 10; 56320 + N.land v 1023].

(** Code points leave the decoder as code units; the first one is dropped
    when it is the byte order mark. *)
Fixpoint serialize (seen : bool) (cps : list N) : bool * jstring :=
  match cps with
  | [] => (seen, [])
  | cp :: rest =>
      let '(seen', out) := serialize true rest in
      (seen', (if negb seen && (cp =? 65279) then [] else code_units cp) ++ out)
  end.

Definition decode_byte (d : TextDecoder) (b : byte) : TextDecoder * jstring :=
  let '(u, cps) := utf8_byte (utf8 d) (Byte.to_N b) in
  let '(seen, out) := serialize (bom_seen d) cps in
  ({| utf8 := u; bom_seen := seen |}, out).

(** [decoder.decode(value, { stream: true })] *)
Fixpoint decode (d : TextDecoder) (value : list byte) : TextDecoder * jstring :=
  match value with
  | [] => (d, [])
  | b :: rest =>
      let '(d1, s1) := decode_byte d b in
      let '(d2, s2) := decode d1 rest in
      (d2, s1 ++ s2)
  end.

(** [decoder.decode()]: the end of the stream; an open sequence becomes
    U+FFFD. *)
Definition decode_end (d : TextDecoder) : jstring :=
  if bytes_needed (utf8 d) =? 0 then []
  else snd (serialize (bom_seen d) [REPLACEMENT]).

(** [textEncoder.encode(text)] is not needed: the outbound records are kept
    as values, not as bytes. *)

(** [Number::toString] of a non-negative integer. *)
Fixpoint decimal_digits (fuel : nat) (n : N) (acc : jstring) : jstring :=
  match fuel with
  | O => acc
  | S fuel' =>
      if n <? 10 then (48 + n) :: acc
      else decimal_digits fuel' (n / 10) (48 + n mod 10 :: acc)
  end.

Definition decimal (n : N) : jstring :=
  decimal_digits (S (N.to_nat (N.log2 n))) n [].

(** ** Numbers and JSON values *)

(** The two types the program takes from its platform.  [number] is the
    type of the IEEE doubles, with [+0] and [-0] taken as one value (the
    program never tells them apart: as a property key and as a [Map] key
    they are the same).  [World] is everything outside the program that its
    calls can read or change (the model endpoint, the sandbox, the module
    state of the registered tools, the source of random identifiers). *)
Class Platform := {
  number : Type;
  number_eq_dec :: EqDecision number;
  number_countable :: Countable number;
  World : Type
}.

Section DataModel.
Context {Pf : Platform}.

(** A parsed JSON value.  [undefined] is not a JSON value: a property that
    may be missing is an [option json]. *)
Inductive json :=
| JNull
| JBool (b : bool)
| JNum (n : number)
| JStr (s : jstring)
| JArr (items : list json)
| JObj (fields : list (jstring * json)).

(** The value of a key among the fields of an object; a key written twice
    holds its last value. *)
Fixpoint field (fields : list (jstring * json)) (key : jstring) : option json :=
  match fields with
  | [] => None
  | (k, v) :: rest =>
      match field rest key with
      | Some v' => Some v'
      | None => if decide (k = key) then Some v else None
      end
  end.

(** [v.key] for a value that is neither [null] nor [undefined].  Of the keys
    the program reads, only an object has any. *)
Definition prop (v : json) (key : string) : option json :=
  match v with
  | JObj fields => field fields (js key)
  | _ => None
  end.

(** [v?.key] *)
Definition opt_prop (v : option json) (key : string) : option json :=
  match v with
  | Some v' => prop v' key
  | None => None
  end.

(** [v === literal] for a string literal *)
Definition is_string (v : option json) (literal : string) : bool :=
  match v with
  | Some (JStr s) => bool_decide (s = js literal)
  | _ => false
  end.

(** *** Messages, sessions, tool calls *)

Inductive MessageContent :=
| TextBlock (text : jstring)
| ToolUseBlock (id name : jstring) (input : json)
| ToolResultBlock (tool_use_id content : jstring).

Inductive Role := role_user | role_assistant | role_tool.

(** [content] is a JavaScript array written at arbitrary positions
    ([content[index] = ...] for any number [index]): a finite map from the
    position to the block.  An array literal fills the positions from 0. *)
Record AgentMessage := {
  role : Role;
  content : gmap number MessageContent
}.

Record AgentSession := {
  session_id : jstring;
  session_messages : list AgentMessage
}.

Record AgentRequest := {
  prompt : jstring;
  session : option AgentSession
}.

Record ToolCall := {
  call_id : jstring;
  call_name : jstring;
  call_input : json;
  call_index : number
}.

Record AnthropicEvent := {
  event : jstring;
  data : option json
}.

Record StreamTurnResult := {
  assistantMessage : AgentMessage;
  toolCalls : list ToolCall
}.

(** *** Tool results ([src/lib/tools.ts]) *)

Record ExecutionTrace := {
  title : jstring;
  detail : jstring
}.

Inductive ToolRunResponse :=
| ToolRunSuccess (result : json) (logs : list jstring) (trace : list ExecutionTrace)
| ToolRunError (message : jstring) (trace : list ExecutionTrace).

Definition response_ok (r : ToolRunResponse) : bool :=
  match r with
  | ToolRunSuccess _ _ _ => true
  | ToolRunError _ _ => false
  end.

(** What awaiting a tool gives: its result, or the error it threw. *)
Inductive ToolOutcome :=
| Returned (r : ToolRunResponse)
| Threw (message : jstring).

(** *** The outbound records *)

Inductive AgentStreamEvent :=
| AssistantDelta (text : jstring)
| MessageEvent (message : AgentMessage)
| ToolRequest (id name : jstring)
| ToolCallEvent (id name : jstring) (input : json)
| ToolResultEvent (id : jstring) (ok : bool) (payload : ToolRunResponse)
| SessionEvent (s : AgentSession)
| ErrorEvent (message : jstring)
| DoneEvent.

(** *** The model endpoint's answer to [fetch] *)

(** The reads of the response body, in order, and how the stream ends:
    [done], or a read that rejects. *)
Record Body := {
  reads : list (list byte);
  read_error : option jstring
}.

Record Response := {
  body : option Body;
  ok : bool;
  status : N;
  response_text : jstring
}.

Inductive FetchResult :=
| FetchRejected (message : jstring)
| FetchResolved (response : Response).

End DataModel.

(** ** The host *)

(** What the program calls and does not define; each call that can read or
    change the world threads it. *)
Class Host {Pf : Platform} := {
  (** [ToBoolean] of a number *)
  number_truthy : number -> bool;
  (** [Number::toString] *)
  number_to_string : number -> jstring;
  (** the double of an integer literal *)
  number_of_Z : Z -> number;
  (** [JSON.parse(text)]; [None] when it throws *)
  JSON_parse : jstring -> option json;
  (** [JSON.stringify(value, null, 2)] *)
  JSON_stringify : json -> jstring;
  (** [crypto.randomUUID()] *)
  randomUUID : World -> jstring * World;
  (** [process.env.ANTHROPIC_API_KEY] *)
  ANTHROPIC_API_KEY : option jstring;
  (** [await fetch(ANTHROPIC_API_URL, ...)] for a conversation *)
  fetch : World -> list AgentMessage -> FetchResult * World;
  (** the bodies of the registered tools that run code or keep state *)
  runJavaScript : World -> jstring -> ToolOutcome * World;
  runKnowledgeBaseLookup : World -> json -> ToolOutcome * World;
  runTodoManager : World -> json -> ToolOutcome * World
}.

(** A call either gives a value or throws an [Error] with a message. *)
Inductive Result (A : Type) :=
| Ok (value : A)
| Throw (message : jstring).
Arguments Ok {A} value.
Arguments Throw {A} message.

Section Agent.
Context {Pf : Platform} {H : Host}.

(** ** Values at run time *)

(** [!!v] *)
Definition truthy (v : option json) : bool :=
  match v with
  | None | Some JNull => false
  | Some (JBool b) => b
  | Some (JNum n) => number_truthy n
  | Some (JStr s) => nonempty s
  | Some (JArr _) | Some (JObj _) => true
  end.

(** [String(v)] *)
Fixpoint js_String (v : json) : jstring :=
  match v with
  | JNull => js "null"
  | JBool true => js "true"
  | JBool false => js "false"
  | JNum n => number_to_string n
  | JStr s => s
  | JArr items =>
      join_comma
        (map (fun item => match item with JNull => [] | _ => js_String item end)
           items)
  | JObj _ => js "[object Object]"
  end.

(** [String] of [v], and the empty string for [null] and [undefined] *)
Definition String_or_empty (v : option json) : jstring :=
  match v with
  | None | Some JNull => []
  | Some v' => js_String v'
  end.

(** An array literal of one block: the block at position 0. *)
Definition array_of_one (block : MessageContent) : gmap number MessageContent :=
  {[ number_of_Z 0 := block ]}.

(** ** SSE frame decoder: [parseEvent] *)

(** The body of [for (const line of lines)], on the pair of [event] and
    [dataLines]. *)
Definition parseEvent_line (acc : jstring * list jstring) (line : jstring)
  : jstring * list jstring :=
  let '(event, dataLines) := acc in
  if negb (nonempty (trim line)) then acc
  else if startsWith line (js "event:") then
    (trim (slice_from line (length (js "event:"))), dataLines)
  else if startsWith line (js "data:") then
    (event, dataLines ++ [trim (slice_from line (length (js "data:")))])
  else acc.

Definition parseEvent_lines (raw : jstring) : jstring * list jstring :=
  foldl parseEvent_line ([], []) (split raw LF).

(** [dataPayload], the payload text of a frame. *)
Definition dataPayload (raw : jstring) : jstring :=
  join_empty (snd (parseEvent_lines raw)).

Definition parseEvent (raw : jstring) : option AnthropicEvent :=
  let '(event, dataLines) := parseEvent_lines raw in
  if negb (nonempty event) && bool_decide (length dataLines = 0%nat) then None
  else
    let dataPayload := join_empty dataLines in
    if negb (nonempty dataPayload) then Some {| event := event; data := None |}
    else if bool_decide (dataPayload = js "[DONE]") then
      Some {| event := event; data := Some (JStr (js "[DONE]")) |}
    else
      match JSON_parse dataPayload with
      | Some value => Some {| event := event; data := Some value |}
      | None => None
      end.

(** ** Content assembler: the [switch] of [processBuffer] *)

Record PendingToolInput := {
  pending_id : jstring;
  pending_name : jstring;
  pending_buffer : jstring
}.

(** The three locals of [streamClaudeTurn] the events act on:
    [assistantMessage.content], [toolCalls] and [pendingToolInputs]. *)
Record Assembler := {
  blocks : gmap number MessageContent;
  calls : list ToolCall;
  pending : gmap number PendingToolInput
}.

Definition new_Assembler : Assembler :=
  {| blocks := ∅; calls := []; pending := ∅ |}.

(** What a turn hands to its two callbacks. *)
Inductive TurnOutput :=
| EmitText (text : jstring)
| EmitEvent (e : AgentStreamEvent).

(** One decoded event: the loop goes on with a new state, the turn ends
    ([return true]), or an error is thrown. *)
Inductive Step :=
| Continue (a : Assembler) (out : list TurnOutput) (w : World)
| Stop
| Raise (message : jstring).

Definition content_block_start (a : Assembler) (w : World) (payload : option json) : Step :=
  let content := opt_prop payload "content_block" in
  match opt_prop payload "index" with
  | Some (JNum index) =>
      if negb (truthy content) then Continue a [] w
      else if is_string (opt_prop content "type") "text" then
        Continue {| blocks := <[index := TextBlock []]> (blocks a);
                    calls := calls a;
                    pending := pending a |} [] w
      else if is_string (opt_prop content "type") "tool_use" then
        let '(id, w') :=
          match opt_prop content "id" with
          | None | Some JNull => randomUUID w
          | Some v => (js_String v, w)
          end in
        let name := String_or_empty (opt_prop content "name") in
        Continue {| blocks := <[index := ToolUseBlock id name (JObj [])]> (blocks a);
                    calls := calls a;
                    pending := <[index := {| pending_id := id;
                                             pending_name := name;
                                             pending_buffer := [] |}]> (pending a) |}
                 [EmitEvent (ToolRequest id name)] w'
      else Continue a [] w
  | _ => Continue a [] w
  end.

Definition content_block_delta (a : Assembler) (w : World) (payload : option json) : Step :=
  let delta := opt_prop payload "delta" in
  match opt_prop payload "index" with
  | Some (JNum index) =>
      if negb (truthy delta) then Continue a [] w
      else if is_string (opt_prop delta "type") "text_delta" then
        let text := String_or_empty (opt_prop delta "text") in
        let a' :=
          match blocks a !! index with
          | Some (TextBlock t) =>
              {| blocks := <[index := TextBlock (t ++ text)]> (blocks a);
                 calls := calls a;
                 pending := pending a |}
          | _ => a
          end in
        Continue a' (if nonempty text then [EmitText text] else []) w
      else if is_string (opt_prop delta "type") "input_json_delta" then
        let partial := String_or_empty (opt_prop delta "partial_json") in
        match pending a !! index with
        | Some p =>
            Continue {| blocks := blocks a;
                        calls := calls a;
                        pending := <[index := {| pending_id := pending_id p;
                                                 pending_name := pending_name p;
                                                 pending_buffer := pending_buffer p ++ partial |}]>
                                     (pending a) |} [] w
        | None => Continue a [] w
        end
      else Continue a [] w
  | _ => Continue a [] w
  end.

(** The input of a closing tool-use block, from its accumulated buffer. *)
Definition parse_tool_input (buffer : jstring) : json :=
  let inputBuffer := trim buffer in
  if nonempty inputBuffer then
    match JSON_parse inputBuffer with
    | Some value => value
    | None => JObj []
    end
  else JObj [].

Definition content_block_stop (a : Assembler) (w : World) (payload : option json) : Step :=
  match opt_prop payload "index" with
  | Some (JNum index) =>
      match pending a !! index with
      | None => Continue a [] w
      | Some p =>
          let input := parse_tool_input (pending_buffer p) in
          match blocks a !! index with
          | Some (ToolUseBlock id name _) =>
              Continue {| blocks := <[index := ToolUseBlock id name input]> (blocks a);
                          calls := calls a ++ [{| call_id := id; call_name := name;
                                                  call_input := input; call_index := index |}];
                          pending := delete index (pending a) |} [] w
          | _ =>
              Continue {| blocks := blocks a;
                          calls := calls a;
                          pending := delete index (pending a) |} [] w
          end
      end
  | _ => Continue a [] w
  end.

Definition handleEvent (a : Assembler) (w : World) (parsed : AnthropicEvent) : Step :=
  if is_string (data parsed) "[DONE]" then Stop
  else
    let payload := data parsed in
    if bool_decide (event parsed = js "content_block_start") then
      content_block_start a w payload
    else if bool_decide (event parsed = js "content_block_delta") then
      content_block_delta a w payload
    else if bool_decide (event parsed = js "content_block_stop") then
      content_block_stop a w payload
    else if bool_decide (event parsed = js "message_stop") then Stop
    else if bool_decide (event parsed = js "error") then
      Raise (js "Claude streaming error")
    else Continue a [] w.

(** ** Turn runner: [processBuffer] and [streamClaudeTurn] *)

(** The state of a turn between two reads.  [decoded] is not a variable of
    the program: it records the events [parseEvent] returned, in order. *)
Record Turn := {
  assembler : Assembler;
  emitted : list TurnOutput;
  decoded : list AnthropicEvent;
  world : World
}.

(** How [processBuffer] ends. *)
Inductive Signal :=
| ReturnFalse
| ReturnTrue
| Thrown (message : jstring).

(** A decoded event is recorded before it is handled. *)
Definition record_event (t : Turn) (parsed : AnthropicEvent) : Turn :=
  {| assembler := assembler t; emitted := emitted t;
     decoded := decoded t ++ [parsed]; world := world t |}.

(** The turn after an event that lets the loop go on. *)
Definition carry_on (t : Turn) (a : Assembler) (out : list TurnOutput) (w : World) : Turn :=
  {| assembler := a; emitted := emitted t ++ out;
     decoded := decoded t; world := w |}.

(** The [while (eventBoundary !== -1)] loop.  Every round shortens the
    buffer, so [fuel] above its length is never used up. *)
Fixpoint processBuffer_loop (fuel : nat) (buffer : jstring) (t : Turn)
  : jstring * Turn * Signal :=
  match fuel with
  | O => (buffer, t, ReturnFalse)
  | S fuel' =>
      match indexOf buffer blank_line with
      | None => (buffer, t, ReturnFalse)
      | Some eventBoundary =>
          let rawEvent := slice buffer 0 eventBoundary in
          let buffer := slice_from buffer (eventBoundary + 2) in
          match parseEvent rawEvent with
          | None => processBuffer_loop fuel' buffer t
          | Some parsed =>
              let t := record_event t parsed in
              match handleEvent (assembler t) (world t) parsed with
              | Stop => (buffer, t, ReturnTrue)
              | Raise message => (buffer, t, Thrown message)
              | Continue a out w =>
                  processBuffer_loop fuel' buffer (carry_on t a out w)
              end
          end
      end
  end.

Definition processBuffer (buffer : jstring) (t : Turn) : jstring * Turn * Signal :=
  processBuffer_loop (S (length buffer)) buffer t.

(** What a call of [streamClaudeTurn] leaves behind: its result or error,
    what it gave to [emitText] and [emitEvent], the events it decoded, and
    the world after it. *)
Record TurnRun := {
  outcome : Result StreamTurnResult;
  outputs : list TurnOutput;
  wire_events : list AnthropicEvent;
  world_after : World
}.

Definition turn_returns (t : Turn) : TurnRun :=
  {| outcome := Ok {| assistantMessage := {| role := role_assistant;
                                             content := blocks (assembler t) |};
                      toolCalls := calls (assembler t) |};
     outputs := emitted t;
     wire_events := decoded t;
     world_after := world t |}.

Definition turn_throws (t : Turn) (message : jstring) : TurnRun :=
  {| outcome := Throw message;
     outputs := emitted t;
     wire_events := decoded t;
     world_after := world t |}.

(** The [while (true)] loop over [reader.read()]. *)
Fixpoint readLoop (chunks : list (list byte)) (failure : option jstring)
    (decoder : TextDecoder) (buffer : jstring) (t : Turn) : TurnRun :=
  match chunks with
  | [] =>
      match failure with
      | Some message => turn_throws t message
      | None =>
          let buffer := buffer ++ decode_end decoder in
          let '(_, t', signal) := processBuffer buffer t in
          match signal with
          | Thrown message => turn_throws t' message
          | _ => turn_returns t'
          end
      end
  | value :: rest =>
      let '(decoder', text) := decode decoder value in
      let buffer := buffer ++ text in
      let '(buffer', t', signal) := processBuffer buffer t in
      match signal with
      | ReturnTrue => turn_returns t'
      | Thrown message => turn_throws t' message
      | ReturnFalse => readLoop rest failure decoder' buffer' t'
      end
  end.

Definition new_Turn (w : World) : Turn :=
  {| assembler := new_Assembler; emitted := []; decoded := []; world := w |}.

(** [streamClaudeTurn] from [const reader = response.body.getReader()] on. *)
Definition readBody (b : Body) (w : World) : TurnRun :=
  readLoop (reads b) (read_error b) new_TextDecoder [] (new_Turn w).

Definition getAnthropicHeaders : Result jstring :=
  match ANTHROPIC_API_KEY with
  | Some apiKey =>
      if nonempty apiKey then Ok apiKey
      else Throw (js "Missing ANTHROPIC_API_KEY environment variable.")
  | None => Throw (js "Missing ANTHROPIC_API_KEY environment variable.")
  end.

Definition streamClaudeTurn (w : World) (messages : list AgentMessage) : TurnRun :=
  match getAnthropicHeaders with
  | Throw message => turn_throws (new_Turn w) message
  | Ok _ =>
      match fetch w messages with
      | (FetchRejected message, w') => turn_throws (new_Turn w') message
      | (FetchResolved response, w') =>
          match body response with
          | None =>
              turn_throws (new_Turn w') (js "Claude API did not return a response body")
          | Some b =>
              if negb (ok response) then
                turn_throws (new_Turn w')
                  (js "Claude API error: " ++ decimal (status response)
                     ++ js " " ++ response_text response)
              else readBody b w'
          end
      end
  end.

(** ** Tool registry and dispatcher ([src/lib/tools.ts]) *)

(** A registered tool.  [inputSchema] and [examples] are read only when the
    manifest is sent to the model endpoint, which is the host's [fetch]. *)
Record Tool := {
  tool_name : jstring;
  description : jstring;
  categories : list jstring
}.

Definition knowledgeBaseTool : Tool :=
  {| tool_name := js "kb_lookup";
     description := js "Search a faux product knowledge base for context around the sandbox and Model Context Protocol patterns.";
     categories := [js "reference"; js "planning"] |}.

Definition todoListTool : Tool :=
  {| tool_name := js "todo_manager";
     description := js "Interact with a shared todo list that mimics a lightweight planning surface for the MCP host team.";
     categories := [js "productivity"; js "planning"] |}.

Definition tools : list Tool :=
  [ {| tool_name := js "run_javascript";
       description := js "Execute arbitrary JavaScript in a sandboxed VM. Useful for evaluating snippets produced by an LLM.";
       categories := [js "code-execution"; js "analysis"] |};
    {| tool_name := js "list_capabilities";
       description := js "Surface the capabilities available inside the sandbox for planning or dry-run style checks.";
       categories := [js "planning"] |};
    {| tool_name := js "explain_guardrails";
       description := js "Explain the guardrails the host places around execution including timeouts and console capturing.";
       categories := [js "safety"; js "observability"] |};
    knowledgeBaseTool;
    todoListTool ].

(** [tools.find((tool) => tool.name === toolName)] *)
Definition getTool (toolName : jstring) : option Tool :=
  find (fun tool => bool_decide (tool_name tool = toolName)) tools.

Definition jstrings (l : list jstring) : json := JArr (map JStr l).

Definition listCapabilities : ToolRunResponse :=
  ToolRunSuccess
    (JObj [ (js "timeoutMs", JNum (number_of_Z 1000));
            (js "availableGlobals", jstrings [js "console"]);
            (js "supportsAsync", JBool true);
            (js "observability", jstrings [js "console capture"; js "trace timeline"]);
            (js "bestPractices",
              jstrings [js "Prefer deterministic, side-effect free snippets";
                        js "Plan with dry-run before executing untrusted code"]);
            (js "tools",
              JArr (map (fun tool =>
                           JObj [ (js "name", JStr (tool_name tool));
                                  (js "categories", jstrings (categories tool));
                                  (js "description", JStr (description tool)) ])
                      tools)) ])
    []
    [ {| title := js "Describe sandbox";
         detail := js "Returned metadata the orchestrator can use while planning tool calls, including each registered tool." |} ].

Definition explainGuardrails : ToolRunResponse :=
  ToolRunSuccess
    (JObj [ (js "guardrails",
              jstrings [js "Scripts run inside Node's vm module with no filesystem or network access";
                        js "Calls are time boxed to 1 second";
                        js "Console output is streamed back to the caller";
                        js "Structured traces reveal each phase of execution"]) ])
    []
    [ {| title := js "Summarize safety";
         detail := js "Communicated the isolation boundaries and telemetry surfaces as highlighted in the MCP article." |} ].

(** Reading a property of [null] throws a [TypeError]; the wording is the
    engine's. *)
Definition null_property_error (key : string) : jstring :=
  js "Cannot read properties of null (reading '" ++ js key ++ js "')".

Definition runTool (w : World) (toolName : jstring) (input : json)
  : ToolOutcome * World :=
  if bool_decide (toolName = js "run_javascript") then
    match input with
    | JNull => (Threw (null_property_error "code"), w)
    | _ =>
        match prop input "code" with
        | Some (JStr code) => runJavaScript w code
        | _ =>
            (Returned
               (ToolRunError (js "Expected `code` to be a string.")
                  [ {| title := js "Validate input";
                       detail := js "Guard clause triggered because code was missing or not a string." |} ]),
             w)
        end
    end
  else if bool_decide (toolName = js "list_capabilities") then
    (Returned listCapabilities, w)
  else if bool_decide (toolName = js "explain_guardrails") then
    (Returned explainGuardrails, w)
  else if bool_decide (toolName = js "kb_lookup") then
    runKnowledgeBaseLookup w input
  else if bool_decide (toolName = js "todo_manager") then
    runTodoManager w input
  else
    (Returned
       (ToolRunError (js "Unknown tool: " ++ toolName)
          [ {| title := js "Lookup tool";
               detail := js "The orchestrator asked for a tool that is not registered in this host." |} ]),
     w).

(** ** Tool invocation step and orchestrator loop *)

Definition trace_json (trace : list ExecutionTrace) : json :=
  JArr (map (fun step => JObj [ (js "title", JStr (title step));
                                (js "detail", JStr (detail step)) ])
          trace).

Definition renderToolResult (result : ToolRunResponse) : jstring :=
  match result with
  | ToolRunSuccess value logs trace =>
      JSON_stringify
        (JObj [ (js "ok", JBool true);
                (js "result", value);
                (js "logs", jstrings logs);
                (js "trace", trace_json trace) ])
  | ToolRunError message trace =>
      JSON_stringify
        (JObj [ (js "ok", JBool false);
                (js "message", JStr message);
                (js "trace", trace_json trace) ])
  end.

Definition toolMessage (call : ToolCall) (result : ToolRunResponse) : AgentMessage :=
  {| role := role_tool;
     content := array_of_one (ToolResultBlock (call_id call) (renderToolResult result)) |}.

(** What the [for (const call of toolCalls)] loop has done when it is left:
    the records sent, the conversation, the world, and the error of the
    invocation that threw, if one did. *)
Record ToolLoop := {
  sent : list AgentStreamEvent;
  pushed : list AgentMessage;
  world_then : World;
  thrown : option jstring
}.

Fixpoint runToolCalls (w : World) (conversation : list AgentMessage)
    (toolCalls : list ToolCall) : ToolLoop :=
  match toolCalls with
  | [] => {| sent := []; pushed := conversation; world_then := w; thrown := None |}
  | call :: rest =>
      let request := ToolCallEvent (call_id call) (call_name call) (call_input call) in
      match runTool w (call_name call) (call_input call) with
      | (Threw message, w') =>
          {| sent := [request]; pushed := conversation; world_then := w';
             thrown := Some message |}
      | (Returned result, w') =>
          let message := toolMessage call result in
          let after := runToolCalls w' (conversation ++ [message]) rest in
          {| sent := request
                     :: ToolResultEvent (call_id call) (response_ok result) result
                     :: MessageEvent message
                     :: sent after;
             pushed := pushed after;
             world_then := world_then after;
             thrown := thrown after |}
      end
  end.

(** The states of the loop: the last one it reached. *)
Inductive LoopState :=
| AwaitingModel
| Done
| Failed (message : jstring).

(** One run of [createAgentResponse]: the records written to the stream, in
    order, the local [conversation], and where the loop stands. *)
Record Exchange := {
  events : list AgentStreamEvent;
  conversation : list AgentMessage;
  state : LoopState;
  world_end : World
}.

(** The two callbacks [createAgentResponse] passes to [streamClaudeTurn]. *)
Definition forward (o : TurnOutput) : list AgentStreamEvent :=
  match o with
  | EmitText chunk => if nonempty chunk then [AssistantDelta chunk] else []
  | EmitEvent (AssistantDelta _) => []
  | EmitEvent e => [e]
  end.

Definition send_before (es : list AgentStreamEvent) (x : Exchange) : Exchange :=
  {| events := es ++ events x; conversation := conversation x;
     state := state x; world_end := world_end x |}.

(** The [while (true)] loop of [createAgentResponse] with its [try],
    followed by the snapshot and [done], or by [catch].  The source sets no
    bound on the turns; [turns] is how many model requests are followed, and
    a run cut there stands in [AwaitingModel]. *)
Fixpoint agentLoop (turns : nat) (w : World) (sessionId : jstring)
    (conversation : list AgentMessage) : Exchange :=
  match turns with
  | O => {| events := []; conversation := conversation;
            state := AwaitingModel; world_end := w |}
  | S turns' =>
      let run := streamClaudeTurn w conversation in
      let deltas := flat_map forward (outputs run) in
      match outcome run with
      | Throw message =>
          {| events := deltas ++ [ErrorEvent message];
             conversation := conversation;
             state := Failed message; world_end := world_after run |}
      | Ok turn =>
          let conversation := conversation ++ [assistantMessage turn] in
          let appended := deltas ++ [MessageEvent (assistantMessage turn)] in
          match toolCalls turn with
          | [] =>
              {| events := appended
                           ++ [SessionEvent {| session_id := sessionId;
                                               session_messages := conversation |};
                               DoneEvent];
                 conversation := conversation;
                 state := Done; world_end := world_after run |}
          | _ :: _ =>
              let step := runToolCalls (world_after run) conversation (toolCalls turn) in
              match thrown step with
              | Some message =>
                  {| events := appended ++ sent step ++ [ErrorEvent message];
                     conversation := pushed step;
                     state := Failed message; world_end := world_then step |}
              | None =>
                  send_before (appended ++ sent step)
                    (agentLoop turns' (world_then step) sessionId (pushed step))
              end
          end
      end
  end.

Definition userMessage (prompt : jstring) : AgentMessage :=
  {| role := role_user; content := array_of_one (TextBlock prompt) |}.

(** [createAgentResponse] of the variant that writes one JSON record per
    line (the one that declares [AgentStreamEvent]). *)
Definition createAgentResponse (turns : nat) (w : World) (request : AgentRequest)
  : Exchange :=
  let '(sessionId, w) :=
    match session request with
    | Some s => (session_id s, w)
    | None => randomUUID w
    end in
  let conversation :=
    match session request with
    | Some s => session_messages s
    | None => []
    end ++ [userMessage (prompt request)] in
  send_before [MessageEvent (userMessage (prompt request))]
    (agentLoop turns w sessionId conversation).

(** ** The variant of [src/lib/agent.ts]

    The same turn runner and the same [for] loop over the tool calls; text
    goes to the controller of the response stream, the records are appended
    to a [StreamData], and a failure is handed to [controller.error]. *)







(** ** Reading the loops

    [dispatch] is the loop of [processBuffer] on events that are already
    decoded ([processBuffer_frames] below relates the two). *)
Fixpoint dispatch (t : Turn) (es : list AnthropicEvent) : Turn * Signal :=
  match es with
  | [] => (t, ReturnFalse)
  | parsed :: rest =>
      let t := record_event t parsed in
      match handleEvent (assembler t) (world t) parsed with
      | Stop => (t, ReturnTrue)
      | Raise message => (t, Thrown message)
      | Continue a out w => dispatch (carry_on t a out w) rest
      end
  end.

(** The text of complete frames, each followed by its blank line. *)
Definition frames_text (frames : list jstring) : jstring :=
  concat (map (fun frame => frame ++ blank_line) frames).

(** An event of the given name whose payload carries the position. *)
Definition targets (e : AnthropicEvent) (name : string) (index : number) : Prop :=
  event e = js name /\ opt_prop (data e) "index" = Some (JNum index).

Definition delta_of (e : AnthropicEvent) : option json := opt_prop (data e) "delta".

(** A [content_block_delta] at the position carrying a [text_delta] of the
    given text. *)
Definition text_delta_at (index : number) (e : AnthropicEvent) (text : jstring) : Prop :=
  targets e "content_block_delta" index
  /\ is_string (opt_prop (delta_of e) "type") "text_delta" = true
  /\ String_or_empty (opt_prop (delta_of e) "text") = text.

(** A [content_block_delta] at the position carrying an [input_json_delta]
    with the given fragment. *)
Definition input_json_delta_at (index : number) (e : AnthropicEvent) (partial : jstring) : Prop :=
  targets e "content_block_delta" index
  /\ is_string (opt_prop (delta_of e) "type") "input_json_delta" = true
  /\ String_or_empty (opt_prop (delta_of e) "partial_json") = partial.

(** A [content_block_start] at the position opening a block of the given
    type. *)
Definition start_at (index : number) (e : AnthropicEvent) (type : string) : Prop :=
  targets e "content_block_start" index
  /\ is_string (opt_prop (opt_prop (data e) "content_block") "type") type = true.

(** The record of the snapshot among the records of a run, if any. *)
Definition snapshot (es : list AgentStreamEvent) : option AgentSession :=
  head (omap (fun e => match e with SessionEvent s => Some s | _ => None end) es).

Definition is_done (e : AgentStreamEvent) : bool :=
  match e with DoneEvent => true | _ => false end.

Definition is_error (e : AgentStreamEvent) : bool :=
  match e with ErrorEvent _ => true | _ => false end.

Definition is_session (e : AgentStreamEvent) : bool :=
  match e with SessionEvent _ => true | _ => false end.

(** Neither a snapshot nor [done] nor [error]. *)
Definition is_plain (e : AgentStreamEvent) : bool :=
  negb (is_done e || is_error e || is_session e).

(** The tool invocations of a [for] loop that all returned: each call is
    awaited in the world the one before it left. *)
Inductive invocations : World -> list ToolCall -> list ToolRunResponse -> World -> Prop :=
| invocations_nil w : invocations w [] [] w
| invocations_cons w call calls result results w1 w2 :
    runTool w (call_name call) (call_input call) = (Returned result, w1) ->
    invocations w1 calls results w2 ->
    invocations w (call :: calls) (result :: results) w2.

(** The records of one tool invocation step. *)
Definition step_events (call : ToolCall) (result : ToolRunResponse) : list AgentStreamEvent :=
  [ ToolCallEvent (call_id call) (call_name call) (call_input call);
    ToolResultEvent (call_id call) (response_ok result) result;
    MessageEvent (toolMessage call result) ].

(** ** Notions the properties are stated with *)

(** What [processBuffer] does with a buffer that grew by [s] after it was
    processed. *)
Definition resume (s : jstring) (r : jstring * Turn * Signal) : jstring * Turn * Signal :=
  match r with
  | (b, t, ReturnFalse) => processBuffer (b ++ s) t
  | (b, t, signal) => (b ++ s, t, signal)
  end.

Definition is_data_line (line : jstring) : bool := startsWith line (js "data:").

(** The payload text as the specification words it: the [data:] lines, in
    order, each without its prefix and otherwise unchanged, put together
    with nothing between them. *)
Definition dataPayload_untrimmed (raw : jstring) : jstring :=
  concat (map (fun line => slice_from line (length (js "data:")))
            (filter (fun line => is_data_line line = true) (split raw LF))).

(** A frame as it stands in a transcript: it holds no blank line and does
    not end in a line feed. *)
Definition one_frame (frame : jstring) : Prop :=
  indexOf (frame ++ [LF]) blank_line = None.


(** A turn hands over non-empty text and tool requests, nothing else. *)
Definition turn_output (o : TurnOutput) : Prop :=
  match o with
  | EmitText text => nonempty text = true
  | EmitEvent (ToolRequest _ _) => True
  | EmitEvent _ => False
  end.

(** The shape of the records of a run, by the state it reached, and what
    brought it there. *)
Definition well_ended (sessionId : jstring) (x : Exchange) : Prop :=
  match state x with
  | Done =>
      exists before w conv turn,
        events x = before ++ [SessionEvent {| session_id := sessionId;
                                              session_messages := conversation x |};
                              DoneEvent]
        /\ Forall (fun e => is_plain e = true) before
        /\ outcome (streamClaudeTurn w conv) = Ok turn
        /\ toolCalls turn = []
        /\ conversation x = conv ++ [assistantMessage turn]
  | Failed message =>
      exists before,
        events x = before ++ [ErrorEvent message]
        /\ Forall (fun e => is_plain e = true) before
        /\ ((exists w conv, outcome (streamClaudeTurn w conv) = Throw message)
            \/ (exists w conv cs, thrown (runToolCalls w conv cs) = Some message))
  | AwaitingModel => Forall (fun e => is_plain e = true) (events x)
  end.


(** The [type] tag of a record. *)
Definition event_type (e : AgentStreamEvent) : string :=
  match e with
  | AssistantDelta _ => "assistant-delta"
  | MessageEvent _ => "message"
  | ToolRequest _ _ => "tool-request"
  | ToolCallEvent _ _ _ => "tool-call"
  | ToolResultEvent _ _ _ => "tool-result"
  | SessionEvent _ => "session"
  | ErrorEvent _ => "error"
  | DoneEvent => "done"
  end.

(** The result of a turn that returned; of a turn that threw, an empty one. *)
Definition turn_of (run : TurnRun) : StreamTurnResult :=
  match outcome run with
  | Ok turn => turn
  | Throw _ => {| assistantMessage := {| role := role_assistant; content := ∅ |};
                  toolCalls := [] |}
  end.

End Agent.

(** * The registered tools that keep data ([src/lib/mcp])

    [runTool] hands the input of a [todo_manager] or [kb_lookup] call to
    [runTodoManager] or [runKnowledgeBaseLookup].  Both are embedded here as
    they are written.  The todo list keeps its items in a module variable;
    the functions that read or change it take the items and give them
    back. *)

(** [s.padStart(n, "0")] *)
Definition padStart (s : jstring) (n : nat) : jstring :=
  replicate (n - length s) 48 ++ s.

(** [s.includes(q)] *)
Definition includes (s q : jstring) : bool :=
  match indexOf s q with Some _ => true | None => false end.

(** A step of a trace, [{ title, detail }]. *)
Definition trace_step (title detail : jstring) : ExecutionTrace :=
  {| title := title; detail := detail |}.

Section Payloads.
Context {Pf : Platform}.

(** The strings of an array, when [typeof tag !== "string"] holds of none of
    its entries. *)
Fixpoint strings_of (items : list json) : option (list jstring) :=
  match items with
  | [] => Some []
  | JStr s :: rest => cons s <$> strings_of rest
  | _ :: _ => None
  end.

End Payloads.

(** ** The todo list ([todoList.ts]) *)

Module todoList.

Definition createTraceStep (title detail : jstring) : ExecutionTrace :=
  trace_step title detail.

Inductive Status := pending | completed.

Definition status_text (s : Status) : jstring :=
  match s with
  | pending => js "pending"
  | completed => js "completed"
  end.

Record TodoItem := {
  id : jstring;
  title : jstring;
  status : Status;
  tags : list jstring
}.

(** What [parsePayload] returns when it does not return an [Error]. *)
Inductive TodoAction :=
| list_action (filter : jstring)
| add_action (title : jstring) (tags : option (list jstring))
| complete_action (id : jstring).

(** The items the module starts with. *)
Definition todos : list TodoItem :=
  [ {| id := js "todo-001"; title := js "Review sandbox telemetry hooks";
       status := pending; tags := [js "observability"] |};
    {| id := js "todo-002"; title := js "Draft MCP onboarding guide";
       status := pending; tags := [js "documentation"; js "mcp"] |};
    {| id := js "todo-003"; title := js "QA dry-run workflow";
       status := completed; tags := [js "testing"] |} ].

(** [listTodos(filter)]; [runTodoManager] always passes a string. *)
Definition listTodos (store : list TodoItem) (filter : jstring) : list TodoItem :=
  if bool_decide (filter = js "all") then store
  else List.filter (fun todo => bool_decide (status_text (status todo) = filter)) store.

(** [addTodo(title, tags)]: the new item, and the items with it pushed. *)
Definition addTodo (store : list TodoItem) (title : jstring)
    (tags : option (list jstring)) : TodoItem * list TodoItem :=
  let newTodo :=
    {| id := js "todo-" ++ padStart (decimal (N.of_nat (length store + 1))) 3;
       title := title;
       status := pending;
       tags := default [] tags |} in
  (newTodo, store ++ [newTodo]).

(** [completeTodo(id)]: the first item of that id, marked, or [null]. *)
Fixpoint completeTodo (store : list TodoItem) (wanted : jstring)
  : option TodoItem * list TodoItem :=
  match store with
  | [] => (None, [])
  | item :: rest =>
      if bool_decide (id item = wanted) then
        let todo := {| id := id item; title := title item;
                       status := completed; tags := tags item |} in
        (Some todo, todo :: rest)
      else
        let '(found, rest') := completeTodo rest wanted in
        (found, item :: rest')
  end.

Section Manager.
Context {Pf : Platform}.

Definition item_json (item : TodoItem) : json :=
  JObj [ (js "id", JStr (id item));
         (js "title", JStr (title item));
         (js "status", JStr (status_text (status item)));
         (js "tags", jstrings (tags item)) ].

(** [parsePayload]: an action, or the message of the [Error] it returns;
    reading [payload.action] of [null] throws. *)
Definition parsePayload (payload : json) : Result (TodoAction + jstring) :=
  match payload with
  | JNull => Throw (null_property_error "action")
  | _ =>
      match prop payload "action" with
      | Some (JStr action) =>
          if bool_decide (action = js "list") then
            match prop payload "filter" with
            | None => Ok (inl (list_action (js "pending")))
            | Some (JStr filter) =>
                if nonempty filter
                   && negb (bool_decide (filter = js "all"))
                   && negb (bool_decide (filter = js "pending"))
                   && negb (bool_decide (filter = js "completed"))
                then Ok (inr (js "`filter` must be one of all, pending, or completed."))
                else Ok (inl (list_action filter))
            | Some _ => Ok (inr (js "`filter` must be a string if provided."))
            end
          else if bool_decide (action = js "add") then
            match prop payload "title" with
            | Some (JStr title) =>
                if negb (nonempty (trim title)) then
                  Ok (inr (js "`title` is required when adding a todo."))
                else
                  match prop payload "tags" with
                  | None => Ok (inl (add_action (trim title) None))
                  | Some (JArr items) =>
                      match strings_of items with
                      | Some tags => Ok (inl (add_action (trim title) (Some tags)))
                      | None =>
                          Ok (inr (js "`tags` must be an array of strings when provided."))
                      end
                  | Some _ =>
                      Ok (inr (js "`tags` must be an array of strings when provided."))
                  end
            | _ => Ok (inr (js "`title` is required when adding a todo."))
            end
          else if bool_decide (action = js "complete") then
            match prop payload "id" with
            | Some (JStr wanted) =>
                if negb (nonempty (trim wanted)) then
                  Ok (inr (js "`id` is required when completing a todo."))
                else Ok (inl (complete_action (trim wanted)))
            | _ => Ok (inr (js "`id` is required when completing a todo."))
            end
          else Ok (inr (js "Unsupported action. Use list, add, or complete."))
      | _ => Ok (inr (js "Expected `action` to be a string."))
      end
  end.

(** [runTodoManager(payload)].  The [default] branch of its [switch] has no
    counterpart: an action is one of the three. *)
Definition runTodoManager (store : list TodoItem) (payload : json)
  : ToolOutcome * list TodoItem :=
  let trace :=
    [createTraceStep (js "Validate payload")
       (js "Confirmed the action type and required fields.")] in
  match parsePayload payload with
  | Throw message => (Threw message, store)
  | Ok (inr message) => (Returned (ToolRunError message trace), store)
  | Ok (inl (list_action filter)) =>
      let results := listTodos store filter in
      (Returned
         (ToolRunSuccess (JArr (map item_json results)) []
            (trace
             ++ [createTraceStep (js "Retrieve todos")
                   (js "Loaded " ++ filter
                    ++ js " tasks from the in-memory store for visibility.");
                 createTraceStep (js "Summarize payload")
                   (js "Returned todos with ids, statuses, and tags so downstream reasoning can decide on next steps.")])),
       store)
  | Ok (inl (add_action title tags)) =>
      let '(created, store') := addTodo store title tags in
      (Returned
         (ToolRunSuccess (item_json created) []
            (trace
             ++ [createTraceStep (js "Create todo")
                   (js "Appended a new pending item into the collaborative queue to track future work.");
                 createTraceStep (js "Confirm persistence")
                   (js "Todo " ++ id created
                    ++ js " is now available for subsequent list or completion calls.")])),
       store')
  | Ok (inl (complete_action wanted)) =>
      let attempted :=
        trace
        ++ [createTraceStep (js "Mark complete")
              (js "Attempted to move " ++ wanted
               ++ js " into the completed bucket for the shared plan.")] in
      match completeTodo store wanted with
      | (None, _) =>
          (Returned
             (ToolRunError (js "Unable to find todo with id " ++ wanted ++ js ".")
                attempted),
           store)
      | (Some updated, store') =>
          (Returned
             (ToolRunSuccess (item_json updated) []
                (attempted
                 ++ [createTraceStep (js "Confirm persistence")
                       (js "Todo " ++ id updated
                        ++ js " is now marked as completed and ready for reporting.")])),
           store')
      end
  end.

(** The calls of a session, one after the other on the items the one before
    left. *)
Definition after_calls (store : list TodoItem) (payloads : list json) : list TodoItem :=
  foldl (fun store payload => snd (runTodoManager store payload)) store payloads.

End Manager.

End todoList.

(** ** The knowledge base ([knowledgeBase.ts]) *)

(** What the lookup takes from the language's library. *)
Class Library {Pf : Platform} := {
  (** [String.prototype.toLowerCase] *)
  toLowerCase : jstring -> jstring;
  (** [Number.isFinite] *)
  Number_isFinite : number -> bool;
  (** [Math.floor] of a finite number: an integer *)
  Math_floor : number -> Z
}.

Module knowledgeBase.

Record KnowledgeBaseEntry := {
  id : jstring;
  title : jstring;
  summary : jstring;
  url : jstring;
  tags : list jstring
}.

(** [KnowledgeBaseInput]; its [tags] are [requested]. *)
Record KnowledgeBaseInput := {
  query : jstring;
  requested : option (list jstring);
  topK : Z
}.

Definition KNOWLEDGE_BASE : list KnowledgeBaseEntry :=
  [ {| id := js "kb-001";
       title := js "Isolated JavaScript execution";
       summary := js "Overview of how the sandbox wraps user code in an async IIFE, captures console output, and enforces a 1s timeout.";
       url := js "https://example.com/docs/isolated-js";
       tags := [js "sandbox"; js "javascript"; js "vm"] |};
    {| id := js "kb-002";
       title := js "Designing tool traces";
       summary := js "Explains the recommended trace format so clients can narrate each phase of a tool invocation back to the user.";
       url := js "https://example.com/docs/tracing";
       tags := [js "observability"; js "trace"] |};
    {| id := js "kb-003";
       title := js "Model Context Protocol primer";
       summary := js "Quick-start guide describing how hosts announce tools, negotiate sessions, and stream intermediate results.";
       url := js "https://example.com/docs/mcp-primer";
       tags := [js "mcp"; js "protocol"] |};
    {| id := js "kb-004";
       title := js "Planning dry-runs";
       summary := js "Tactics for issuing dry-run requests so the model can inspect schemas before executing potentially unsafe actions.";
       url := js "https://example.com/docs/dry-runs";
       tags := [js "planning"; js "safety"] |} ].

Section Lookup.
Context {Pf : Platform} {L : Library}.

Definition normalizeQuery (value : jstring) : jstring :=
  toLowerCase (trim value).

(** [entry.tags.some(...)] of the tag filter: a tag of the entry is, in lower
    case, one of the requested ones in lower case. *)
Definition hasRequiredTag (entry : KnowledgeBaseEntry) (wanted : list jstring) : bool :=
  existsb (fun tag => bool_decide (toLowerCase tag ∈ map toLowerCase wanted))
    (tags entry).

Definition matches (entry : KnowledgeBaseEntry) (input : KnowledgeBaseInput) : bool :=
  let query := normalizeQuery (query input) in
  let inTitle := includes (toLowerCase (title entry)) query in
  let inSummary := includes (toLowerCase (summary entry)) query in
  let tagMatches := existsb (fun tag => includes (toLowerCase tag) query) (tags entry) in
  match requested input with
  | Some (tag :: more) =>
      if negb (hasRequiredTag entry (tag :: more)) then false
      else inTitle || inSummary || tagMatches
  | _ => inTitle || inSummary || tagMatches
  end.

Definition entry_json (entry : KnowledgeBaseEntry) : json :=
  JObj [ (js "id", JStr (id entry));
         (js "title", JStr (title entry));
         (js "summary", JStr (summary entry));
         (js "url", JStr (url entry));
         (js "tags", jstrings (tags entry)) ].

(** [KNOWLEDGE_BASE.filter(...).slice(0, topK)] *)
Definition matchesForQuery (input : KnowledgeBaseInput) : list KnowledgeBaseEntry :=
  take (Z.to_nat (topK input))
    (List.filter (fun entry => matches entry input) KNOWLEDGE_BASE).

Definition validated : list ExecutionTrace :=
  [ trace_step (js "Validate payload")
      (js "Ensured the knowledge base lookup request contained a search query.") ].

Definition failure (message : jstring) : ToolOutcome :=
  Returned (ToolRunError message validated).

(** The block that sets [tags]: the strings of [payload.tags], nothing when
    it is [undefined], or the message of the failure returned. *)
Definition tags_of (tags : option json) : option (list jstring) + jstring :=
  match tags with
  | Some (JArr items) =>
      match strings_of items with
      | Some tags => inl (Some tags)
      | None => inr (js "All `tags` entries must be strings.")
      end
  | None => inl None
  | Some _ => inr (js "`tags` must be an array of strings when provided.")
  end.

(** The block that sets [topK]: 3, or
    [Math.max(1, Math.min(5, Math.floor(payload.topK)))]; nothing when the
    failure is returned. *)
Definition topK_of (topK : option json) : option Z :=
  match topK with
  | None => Some 3%Z
  | Some (JNum n) =>
      if Number_isFinite n then Some (Z.max 1 (Z.min 5 (Math_floor n)))
      else None
  | Some _ => None
  end.

(** [runKnowledgeBaseLookup(payload)]; reading [payload.query] of [null]
    throws. *)
Definition runKnowledgeBaseLookup (payload : json) : ToolOutcome :=
  match payload with
  | JNull => Threw (null_property_error "query")
  | _ =>
      match prop payload "query" with
      | Some (JStr query) =>
          if negb (nonempty (trim query)) then
            failure (js "Expected `query` to be a non-empty string.")
          else
            match tags_of (prop payload "tags") with
            | inr message => failure message
            | inl tags =>
                match topK_of (prop payload "topK") with
                | None => failure (js "`topK` must be a finite number when provided.")
                | Some topK =>
                    let scopedInput :=
                      {| query := query; requested := tags; topK := topK |} in
                    let matchesForQuery := matchesForQuery scopedInput in
                    Returned
                      (ToolRunSuccess (JArr (map entry_json matchesForQuery)) []
                         (validated
                          ++ [ trace_step (js "Rank entries")
                                 (js "Performed a naive keyword match across titles, summaries, and tags, then applied optional tag filters.");
                               trace_step (js "Prepare response")
                                 (js "Returning "
                                  ++ decimal (N.of_nat (length matchesForQuery))
                                  ++ js " curated article summaries for downstream reasoning.") ]))
                end
            end
      | _ => failure (js "Expected `query` to be a non-empty string.")
      end
  end.

End Lookup.

End knowledgeBase.

(** * The execute route ([src/app/api/execute/route.ts]) *)

Module execute.
Section Route.
Context {Pf : Platform} {H : Host}.

(** What [POST] hands to [NextResponse.json]: a refusal with its status,
    the description of a tool ([{ ok: true, mode, tool }]), or the response
    of a tool under [mode] and [toolName]; the last two go out with the
    default status. *)
Inductive Reply :=
| Refused (status : N) (message : jstring) (trace : list ExecutionTrace)
| DryRun (mode : json) (tool : Tool)
| Executed (mode : json) (toolName : jstring) (response : ToolRunResponse).

Definition status_of (r : Reply) : N :=
  match r with
  | Refused status _ _ => status
  | DryRun _ _ | Executed _ _ _ => 200
  end.

(** [v ?? fallback] *)
Definition or_else (v : option json) (fallback : json) : json :=
  match v with
  | None | Some JNull => fallback
  | Some v' => v'
  end.

(** [getTool(toolName)] for any value: [===] holds of strings only. *)
Definition getTool_of (toolName : option json) : option (jstring * Tool) :=
  match toolName with
  | Some (JStr name) => pair name <$> getTool name
  | _ => None
  end.

(** [POST(request)]; [request] is what [await request.json()] gives. *)
Definition POST (w : World) (request : Result json) : Result Reply * World :=
  match request with
  | Throw message => (Throw message, w)
  | Ok JNull => (Throw (null_property_error "toolName"), w)
  | Ok body =>
      let toolName := prop body "toolName" in
      let mode := or_else (prop body "mode") (JStr (js "execute")) in
      if negb (truthy toolName) then
        (Ok (Refused 400 (js "Missing tool name")
               [trace_step (js "Validate request")
                  (js "The MCP host requires the name of the tool to invoke.")]),
         w)
      else
        match getTool_of toolName with
        | None =>
            (Ok (Refused 404 (js "Unknown tool: " ++ String_or_empty toolName)
                   [trace_step (js "Lookup tool")
                      (js "The orchestrator asked for a tool that is not registered in this host.")]),
             w)
        | Some (name, tool) =>
            if is_string (Some mode) "dry-run" then (Ok (DryRun mode tool), w)
            else
              match runTool w name (or_else (prop body "input") (JObj [])) with
              | (Threw message, w') => (Throw message, w')
              | (Returned response, w') => (Ok (Executed mode name response), w')
              end
        end
  end.

End Route.
End execute.

(** * [TextEncoder]: the UTF-8 encoder

    [sendEvent] and the controller of [src/lib/agent.ts] write
    [textEncoder.encode(text)]: the UTF-8 bytes of the scalar values of the
    text, a surrogate that stands alone taken as U+FFFD. *)

Definition is_high_surrogate (c : N) : bool := (55296 <=? c) && (c <=? 56319).

Definition is_low_surrogate (c : N) : bool := (56320 <=? c) && (c <=? 57343).

(** The scalar values of a string. *)
Fixpoint scalar_values (s : jstring) : list N :=
  match s with
  | [] => []
  | c :: s' =>
      if is_high_surrogate c then
        match s' with
        | d :: s'' =>
            if is_low_surrogate d then
              (65536 + N.shiftl (c - 55296) 10 + (d - 56320)) :: scalar_values s''
            else REPLACEMENT :: scalar_values s'
        | [] => [REPLACEMENT]
        end
      else if is_low_surrogate c then REPLACEMENT :: scalar_values s'
      else c :: scalar_values s'
  end.

(** The bytes of a scalar value: a first byte that tells how many follow,
    then six bits in each of the bytes that follow. *)
Definition utf8_encode (cp : N) : list N :=
  if cp <=? 127 then [cp]
  else if cp <=? 2047 then
    [N.shiftr cp 6 + 192; N.lor 128 (N.land cp 63)]
  else if cp <=? 65535 then
    [N.shiftr cp 12 + 224; N.lor 128 (N.land (N.shiftr cp 6) 63);
     N.lor 128 (N.land cp 63)]
  else
    [N.shiftr cp 18 + 240; N.lor 128 (N.land (N.shiftr cp 12) 63);
     N.lor 128 (N.land (N.shiftr cp 6) 63); N.lor 128 (N.land cp 63)].

Definition to_byte (n : N) : byte := default x00 (Byte.of_N n).

(** [textEncoder.encode(s)] *)
Definition encode (s : jstring) : list byte :=
  map to_byte (flat_map utf8_encode (scalar_values s)).

(** * The reader of the agent's stream ([agent-demo.tsx])

    [streamAgentResponse] reads the response of the agent route, one JSON
    record per line, and hands each record to [handleEvent].  The calls of
    [handleEvent] are inside the [try] that parses the line: what it throws
    is caught there and the loop goes on. *)

Module agentDemo.
Section Reader.
Context {Pf : Platform} {H : Host}.

(** What a call of [streamAgentResponse] has done when it ends: the
    payloads it handed to [handleEvent], in order, and the message it gave
    to [setError], if the request failed. *)
Record Reading := {
  handled : list json;
  request_error : option jstring
}.

(** [try { handleEvent(JSON.parse(line)) } catch { ... }] for a line that
    is not empty. *)
Definition handle_line (line : jstring) (handled : list json) : list json :=
  if nonempty line then
    match JSON_parse line with
    | Some payload => handled ++ [payload]
    | None => handled
    end
  else handled.

(** The [while (newlineIndex !== -1)] loop.  Every round shortens the
    buffer, so [fuel] above its length is never used up. *)
Fixpoint readLines_loop (fuel : nat) (buffer : jstring) (handled : list json)
  : jstring * list json :=
  match fuel with
  | O => (buffer, handled)
  | S fuel' =>
      match indexOf buffer [LF] with
      | None => (buffer, handled)
      | Some newlineIndex =>
          let line := trim (slice buffer 0 newlineIndex) in
          let buffer := slice_from buffer (newlineIndex + 1) in
          readLines_loop fuel' buffer (handle_line line handled)
      end
  end.

Definition readLines (buffer : jstring) (handled : list json) : jstring * list json :=
  readLines_loop (S (length buffer)) buffer handled.

(** The [while (true)] loop over [reader.read()], and what follows it. *)
Fixpoint readLoop (chunks : list (list byte)) (failure : option jstring)
    (decoder : TextDecoder) (buffer : jstring) (handled : list json) : Reading :=
  match chunks with
  | [] =>
      match failure with
      | Some message => {| handled := handled; request_error := Some message |}
      | None =>
          let buffer := buffer ++ decode_end decoder in
          {| handled := handle_line (trim buffer) handled; request_error := None |}
      end
  | value :: rest =>
      let '(decoder', text) := decode decoder value in
      let '(buffer', handled') := readLines (buffer ++ text) handled in
      readLoop rest failure decoder' buffer' handled'
  end.

(** [streamAgentResponse] from the answer of [fetch("/api/agent", ...)]
    on. *)
Definition streamAgentResponse (answer : FetchResult) : Reading :=
  match answer with
  | FetchRejected message => {| handled := []; request_error := Some message |}
  | FetchResolved response =>
      if negb (ok response) then
        {| handled := [];
           request_error :=
             Some (js "Agent request failed with " ++ decimal (status response)) |}
      else
        match body response with
        | None =>
            {| handled := [];
               request_error := Some (js "The agent did not return a stream.") |}
        | Some b => readLoop (reads b) (read_error b) new_TextDecoder [] []
        end
  end.

(** The records of a text: its lines, trimmed, the empty ones left out,
    each parsed, the ones that are not JSON left out. *)
Definition records (lines : list jstring) : list json :=
  omap JSON_parse (List.filter nonempty (map trim lines)).

End Reader.
End agentDemo.

(** * Notions the further properties are stated with *)

(** The number a decimal numeral writes. *)
Definition numeral_value (s : jstring) : N :=
  foldl (fun v c => 10 * v + (c - 48)) 0 s.

(** The identifier [addTodo] gives to the [n]-th item. *)
Definition nth_id (n : nat) : jstring :=
  js "todo-" ++ padStart (decimal (N.of_nat n)) 3.

(** The item an item becomes when it is completed. *)
Definition marked (item : todoList.TodoItem) : todoList.TodoItem :=
  {| todoList.id := todoList.id item; todoList.title := todoList.title item;
     todoList.status := todoList.completed; todoList.tags := todoList.tags item |}.

(** Every item carries the identifier of its place. *)
Definition numbered (store : list todoList.TodoItem) : Prop :=
  forall i item, store !! i = Some item -> todoList.id item = nth_id (S i).

Definition is_pending (item : todoList.TodoItem) : bool :=
  match todoList.status item with
  | todoList.pending => true
  | todoList.completed => false
  end.

(** A string of 16-bit code units in which every surrogate is one of a
    pair. *)
Fixpoint well_formed (s : jstring) : bool :=
  match s with
  | [] => true
  | c :: s' =>
      (c <? 65536)
      && if is_high_surrogate c then
           match s' with
           | d :: s'' => is_low_surrogate d && well_formed s''
           | [] => false
           end
         else negb (is_low_surrogate c) && well_formed s'
  end.

(** A scalar value: a code point that is not a surrogate. *)
Definition is_scalar (cp : N) : Prop :=
  cp < 1114112 /\ ~ (55296 <= cp <= 57343).

(** A line that names the event of a frame. *)
Definition is_event_line (line : jstring) : bool := startsWith line (js "event:").

Section Outcomes.
Context {Pf : Platform}.

(** The result of a call that succeeded. *)
Definition success_of (o : ToolOutcome) : option json :=
  match o with
  | Returned (ToolRunSuccess result [] _) => Some result
  | _ => None
  end.

(** The message of a call that returned a failure. *)
Definition failure_of (o : ToolOutcome) : option jstring :=
  match o with
  | Returned (ToolRunError message _) => Some message
  | _ => None
  end.

End Outcomes.

Section Relevance.
Context {Pf : Platform} {L : Library}.

(** An entry mentions a text in its title, its summary or one of its tags,
    all taken in lower case. *)
Definition mentions (entry : knowledgeBase.KnowledgeBaseEntry) (q : jstring) : Prop :=
  includes (toLowerCase (knowledgeBase.title entry)) q = true
  \/ includes (toLowerCase (knowledgeBase.summary entry)) q = true
  \/ exists tag, tag ∈ knowledgeBase.tags entry /\ includes (toLowerCase tag) q = true.

(** An entry carries one of the wanted tags, letter case apart. *)
Definition tagged (entry : knowledgeBase.KnowledgeBaseEntry) (wanted : list jstring) : Prop :=
  exists tag t, tag ∈ knowledgeBase.tags entry /\ t ∈ wanted
                /\ toLowerCase tag = toLowerCase t.

(** What a lookup asks of an entry: to mention the query, trimmed and in
    lower case, and to carry a wanted tag when tags are wanted. *)
Definition relevant (entry : knowledgeBase.KnowledgeBaseEntry)
    (query : jstring) (wanted : option (list jstring)) : Prop :=
  mentions entry (toLowerCase (trim query))
  /\ match wanted with
     | Some (t :: more) => tagged entry (t :: more)
     | _ => True
     end.

End Relevance.

Section Turns.
Context {Pf : Platform} {H : Host}.

(** An event [handleEvent] has a case for: one of the five names, or the
    end-of-stream payload. *)
Definition has_case (e : AnthropicEvent) : bool :=
  is_string (data e) "[DONE]"
  || bool_decide (event e = js "content_block_start")
  || bool_decide (event e = js "content_block_delta")
  || bool_decide (event e = js "content_block_stop")
  || bool_decide (event e = js "message_stop")
  || bool_decide (event e = js "error").

(** Two turns that differ in the events recorded only. *)
Definition same_turn (t t' : Turn) : Prop :=
  assembler t = assembler t' /\ emitted t = emitted t' /\ world t = world t'.

(** The tool-use blocks and the tool calls of an assembler all had their
    request handed over. *)
Definition announced (a : Assembler) (out : list TurnOutput) : Prop :=
  (forall index id name input,
      blocks a !! index = Some (ToolUseBlock id name input) ->
      EmitEvent (ToolRequest id name) ∈ out)
  /\ (forall call, call ∈ calls a ->
                   EmitEvent (ToolRequest (call_id call) (call_name call)) ∈ out).


End Turns.

(** ** A reference host

    A host to run the program on concrete inputs: numbers are the integers,
    [JSON.parse] and [JSON.stringify] follow ECMA-404 on texts whose numbers
    are integer literals (a fraction or an exponent is refused), the model
    endpoint answers with the replies queued in the world, and identifiers
    are numbered. *)
Module Reference.

(** *** The world: the replies the model endpoint will give, and the number
    of the next identifier *)

Record Script := {
  replies : list FetchResult;
  next_uuid : Z
}.

#[export] Instance platform : Platform :=
  {| number := Z; World := Script |}.

Definition signed_decimal (z : Z) : jstring :=
  if (z <? 0)%Z then 45 :: decimal (Z.abs_N z) else decimal (Z.abs_N z).

(** *** [JSON.parse] *)

Definition is_json_space (c : N) : bool :=
  (c =? 32) || (c =? 9) || (c =? 10) || (c =? 13).

Fixpoint skip_space (s : jstring) : jstring :=
  match s with
  | [] => []
  | c :: s' => if is_json_space c then skip_space s' else s
  end.

Definition hex_digit (c : N) : option N :=
  if (48 <=? c) && (c <=? 57) then Some (c - 48)
  else if (97 <=? c) && (c <=? 102) then Some (c - 87)
  else if (65 <=? c) && (c <=? 70) then Some (c - 55)
  else None.

(** The characters of a string literal after its opening quote. *)
Fixpoint parse_chars (s : jstring) : option (jstring * jstring) :=
  match s with
  | [] => None
  | c :: s' =>
      if c =? 34 then Some ([], s')
      else if c =? 92 then
        match s' with
        | [] => None
        | e :: s'' =>
            let simple (u : N) :=
              match parse_chars s'' with
              | Some (str, rest) => Some (u :: str, rest)
              | None => None
              end in
            if e =? 34 then simple 34
            else if e =? 92 then simple 92
            else if e =? 47 then simple 47
            else if e =? 98 then simple 8
            else if e =? 102 then simple 12
            else if e =? 110 then simple 10
            else if e =? 114 then simple 13
            else if e =? 116 then simple 9
            else if e =? 117 then
              match s'' with
              | h1 :: h2 :: h3 :: h4 :: s5 =>
                  match hex_digit h1, hex_digit h2, hex_digit h3, hex_digit h4,
                        parse_chars s5 with
                  | Some a, Some b, Some c', Some d, Some (str, rest) =>
                      Some (((a * 16 + b) * 16 + c') * 16 + d :: str, rest)
                  | _, _, _, _, _ => None
                  end
              | _ => None
              end
            else None
        end
      else if c <? 32 then None
      else
        match parse_chars s' with
        | Some (str, rest) => Some (c :: str, rest)
        | None => None
        end
  end.

Definition is_digit (c : N) : bool := (48 <=? c) && (c <=? 57).

Fixpoint parse_digits (s : jstring) (acc : Z) : Z * jstring :=
  match s with
  | c :: s' =>
      if is_digit c then parse_digits s' (acc * 10 + Z.of_N (c - 48))%Z
      else (acc, s)
  | [] => (acc, [])
  end.

(** An integer literal: [0], or a digit from 1 to 9 and more digits; a
    fraction or an exponent after it is refused. *)
Definition parse_int (s : jstring) : option (Z * jstring) :=
  match s with
  | c :: s' =>
      if negb (is_digit c) then None
      else
        let '(z, rest) := if c =? 48 then (0%Z, s') else parse_digits s 0%Z in
        match rest with
        | r :: _ => if (r =? 46) || (r =? 101) || (r =? 69) then None else Some (z, rest)
        | [] => Some (z, rest)
        end
  | [] => None
  end.

Fixpoint parse_value (fuel : nat) (s : jstring) : option (json * jstring) :=
  match fuel with
  | O => None
  | S fuel' =>
      match skip_space s with
      | [] => None
      | c :: s' =>
          if c =? 123 then
            match skip_space s' with
            | 125 :: rest => Some (JObj [], rest)
            | _ =>
                match parse_members fuel' s' with
                | Some (fields, rest) => Some (JObj fields, rest)
                | None => None
                end
            end
          else if c =? 91 then
            match skip_space s' with
            | 93 :: rest => Some (JArr [], rest)
            | _ =>
                match parse_elements fuel' s' with
                | Some (items, rest) => Some (JArr items, rest)
                | None => None
                end
            end
          else if c =? 34 then
            match parse_chars s' with
            | Some (str, rest) => Some (JStr str, rest)
            | None => None
            end
          else if startsWith (c :: s') (js "true") then Some (JBool true, drop 3 s')
          else if startsWith (c :: s') (js "false") then Some (JBool false, drop 4 s')
          else if startsWith (c :: s') (js "null") then Some (JNull, drop 3 s')
          else if c =? 45 then
            match parse_int s' with
            | Some (z, rest) => Some (JNum (- z)%Z, rest)
            | None => None
            end
          else
            match parse_int (c :: s') with
            | Some (z, rest) => Some (JNum z, rest)
            | None => None
            end
      end
  end
with parse_elements (fuel : nat) (s : jstring) : option (list json * jstring) :=
  match fuel with
  | O => None
  | S fuel' =>
      match parse_value fuel' s with
      | Some (v, rest) =>
          match skip_space rest with
          | 44 :: rest' =>
              match parse_elements fuel' rest' with
              | Some (items, rest'') => Some (v :: items, rest'')
              | None => None
              end
          | 93 :: rest' => Some ([v], rest')
          | _ => None
          end
      | None => None
      end
  end
with parse_members (fuel : nat) (s : jstring)
  : option (list (jstring * json) * jstring) :=
  match fuel with
  | O => None
  | S fuel' =>
      match skip_space s with
      | 34 :: s' =>
          match parse_chars s' with
          | Some (key, rest) =>
              match skip_space rest with
              | 58 :: rest' =>
                  match parse_value fuel' rest' with
                  | Some (v, rest'') =>
                      match skip_space rest'' with
                      | 44 :: more =>
                          match parse_members fuel' more with
                          | Some (fields, rest3) => Some ((key, v) :: fields, rest3)
                          | None => None
                          end
                      | 125 :: rest3 => Some ([(key, v)], rest3)
                      | _ => None
                      end
                  | None => None
                  end
              | _ => None
              end
          | None => None
          end
      | _ => None
      end
  end.

Definition parse (text : jstring) : option json :=
  match parse_value (2 * length text + 2) text with
  | Some (v, rest) =>
      match skip_space rest with
      | [] => Some v
      | _ :: _ => None
      end
  | None => None
  end.

(** *** [JSON.stringify(value, null, 2)] *)

Definition hex_char (d : N) : N := if d <? 10 then 48 + d else 87 + d.

Fixpoint quote_chars (s : jstring) : jstring :=
  match s with
  | [] => []
  | c :: s' =>
      (if c =? 34 then [92; 34]
       else if c =? 92 then [92; 92]
       else if c =? 8 then [92; 98]
       else if c =? 12 then [92; 102]
       else if c =? 10 then [92; 110]
       else if c =? 13 then [92; 114]
       else if c =? 9 then [92; 116]
       else if c <? 32 then [92; 117; 48; 48; hex_char (c / 16); hex_char (c mod 16)]
       else [c]) ++ quote_chars s'
  end.

Definition quote (s : jstring) : jstring := 34 :: quote_chars s ++ [34].

Definition spaces (n : nat) : jstring := replicate n 32.

Fixpoint join_lines (indent : nat) (parts : list jstring) : jstring :=
  match parts with
  | [] => []
  | [p] => spaces indent ++ p
  | p :: rest => spaces indent ++ p ++ [44; LF] ++ join_lines indent rest
  end.

Fixpoint stringify (indent : nat) (v : json) : jstring :=
  match v with
  | JNull => js "null"
  | JBool true => js "true"
  | JBool false => js "false"
  | JNum z => signed_decimal z
  | JStr s => quote s
  | JArr [] => js "[]"
  | JArr items =>
      [91; LF] ++ join_lines (indent + 2) (map (stringify (indent + 2)) items)
      ++ [LF] ++ spaces indent ++ [93]
  | JObj [] => js "{}"
  | JObj fields =>
      [123; LF]
      ++ join_lines (indent + 2)
           (map (fun kv => match kv with
                           | (k, x) => quote k ++ [58; 32] ++ stringify (indent + 2) x
                           end) fields)
      ++ [LF] ++ spaces indent ++ [125]
  end.

Definition pretty (v : json) : jstring := stringify 0 v.

Definition numbered_uuid (w : Script) : jstring * Script :=
  (js "uuid-" ++ signed_decimal (next_uuid w),
   {| replies := replies w; next_uuid := next_uuid w + 1 |}).

Definition next_reply (w : Script) (messages : list AgentMessage) : FetchResult * Script :=
  match replies w with
  | [] => (FetchRejected (js "fetch failed"), w)
  | r :: rest => (r, {| replies := rest; next_uuid := next_uuid w |})
  end.

(** The sandbox and the two stateful tools answer with a fixed result; a
    [null] payload makes the two lookups throw, as reading a property of
    [null] does. *)
Definition sandbox (w : Script) (code : jstring) : ToolOutcome * Script :=
  (Returned (ToolRunSuccess (JStr code) [] []), w).

Definition lookup (w : Script) (payload : json) : ToolOutcome * Script :=
  match payload with
  | JNull => (Threw (js "Cannot read properties of null (reading 'query')"), w)
  | _ => (Returned (ToolRunSuccess (JArr []) [] []), w)
  end.

Definition todo (w : Script) (payload : json) : ToolOutcome * Script :=
  match payload with
  | JNull => (Threw (js "Cannot read properties of null (reading 'action')"), w)
  | _ => (Returned (ToolRunSuccess (JArr []) [] []), w)
  end.

#[export] Instance host : Host :=
  {| number_truthy z := negb (z =? 0)%Z;
     number_to_string := signed_decimal;
     number_of_Z z := z;
     JSON_parse := parse;
     JSON_stringify := pretty;
     randomUUID := numbered_uuid;
     ANTHROPIC_API_KEY := Some (js "key");
     fetch := next_reply;
     runJavaScript := sandbox;
     runKnowledgeBaseLookup := lookup;
     runTodoManager := todo |}.

(** In the literals of the examples an apostrophe stands for the double
    quote and a vertical bar for a line feed. *)
Definition unit_of (a : ascii) : N :=
  if (N_of_ascii a =? 39) then 34
  else if (N_of_ascii a =? 124) then LF
  else N_of_ascii a.

Fixpoint text (s : string) : jstring :=
  match s with
  | EmptyString => []
  | String a s' => unit_of a :: text s'
  end.

Definition bytes (s : string) : list byte :=
  omap (fun c => Byte.of_N c) (text s).

Definition answer (chunks : list (list byte)) : FetchResult :=
  FetchResolved {| body := Some {| reads := chunks; read_error := None |};
                   ok := true; status := 200; response_text := [] |}.


(** *** Inputs for the examples *)

(** An integer as a position. *)
Definition position (z : Z) : number := z.

Definition script (rs : list FetchResult) : World :=
  {| replies := rs; next_uuid := 0 |}.

(** The event of a frame; a frame that decodes to nothing gives an event
    without a name. *)
Definition event_of (frame : string) : AnthropicEvent :=
  default {| event := []; data := None |} (parseEvent (text frame)).

(** One request for a tool that is not registered, with an empty input. *)
Definition unknown_tool_turn : string :=
  "event: content_block_start|data: {'type':'content_block_start','index':0,'content_block':{'type':'tool_use','id':'toolu_1','name':'delete_everything','input':{}}}||event: content_block_stop|data: {'type':'content_block_stop','index':0}||event: message_stop|data: {'type':'message_stop'}||".

(** A text block in two deltas, and a delta at a position never started. *)
Definition text_turn : string :=
  "event: content_block_start|data: {'index':0,'content_block':{'type':'text','text':''}}||event: content_block_delta|data: {'index':0,'delta':{'type':'text_delta','text':'Hel'}}||event: content_block_delta|data: {'index':0,'delta':{'type':'text_delta','text':'lo'}}||event: content_block_delta|data: {'index':3,'delta':{'type':'text_delta','text':'lost'}}||data: [DONE]||".


(** A request whose input arrives as a vertical tab and then an object. *)
Definition padded_input_turn : string :=
  "event: content_block_start|data: {'index':0,'content_block':{'type':'tool_use','id':'toolu_3','name':'kb_lookup'}}||event: content_block_delta|data: {'index':0,'delta':{'type':'input_json_delta','partial_json':'\u000b'}}||event: content_block_delta|data: {'index':0,'delta':{'type':'input_json_delta','partial_json':'{\'a\':1}'}}||event: content_block_stop|data: {'index':0}||event: message_stop||".

Definition padded_fragments : list jstring := [[11]; text "{'a':1}"].

Definition hello : AgentRequest :=
  {| prompt := js "hi";
     session := Some {| session_id := js "s-1"; session_messages := [] |} |}.

(** Single events, decoded once. *)
Definition text_start : AnthropicEvent :=
  Eval vm_compute in
    event_of "event: content_block_start|data: {'index':0,'content_block':{'type':'text','text':''}}".

Definition text_delta_Hel : AnthropicEvent :=
  Eval vm_compute in
    event_of "event: content_block_delta|data: {'index':0,'delta':{'type':'text_delta','text':'Hel'}}".

Definition text_delta_lo : AnthropicEvent :=
  Eval vm_compute in
    event_of "event: content_block_delta|data: {'index':0,'delta':{'type':'text_delta','text':'lo'}}".

Definition stray_delta : AnthropicEvent :=
  Eval vm_compute in
    event_of "event: content_block_delta|data: {'index':3,'delta':{'type':'text_delta','text':'lost'}}".


Definition tool_start : AnthropicEvent :=
  Eval vm_compute in
    event_of "event: content_block_start|data: {'index':0,'content_block':{'type':'tool_use','id':'toolu_3','name':'kb_lookup'}}".

Definition json_delta_open : AnthropicEvent :=
  Eval vm_compute in
    event_of "event: content_block_delta|data: {'index':0,'delta':{'type':'input_json_delta','partial_json':'{\'a\''}}".

Definition json_delta_close : AnthropicEvent :=
  Eval vm_compute in
    event_of "event: content_block_delta|data: {'index':0,'delta':{'type':'input_json_delta','partial_json':':1} '}}".

Definition tool_stop : AnthropicEvent :=
  Eval vm_compute in event_of "event: content_block_stop|data: {'index':0}".

(** A text block in one delta, cut into reads inside a line, between the
    two line feeds of a blank line and between the two bytes of U+00E9. *)
Definition cut_transcript : list (list byte) :=
  [ bytes "event: content_block_st";
    bytes "art|data: {'index':0,'content_block':{'type':'text'}}|";
    bytes "|event: content_block_delta|data: {'index':0,'delta':{'type':'text_delta','text':'caf"
      ++ [xc3];
    [xa9] ++ bytes "'}}||";
    bytes "data: [DONE]||" ].

(** The worlds of the examples: what the model endpoint will answer. *)
Definition unknown_then_text : World :=
  script [answer [bytes unknown_tool_turn]; answer [bytes text_turn]].


Definition unknown_call : ToolCall :=
  {| call_id := js "toolu_1"; call_name := js "delete_everything";
     call_input := JObj []; call_index := position 0 |}.


(** *** The library of the lookup

    The lower case of the letters A to Z; every number is finite and
    whole. *)
Definition lower_case (s : jstring) : jstring :=
  map (fun c => if (65 <=? c) && (c <=? 90) then c + 32 else c) s.

#[export] Instance library : Library :=
  {| toLowerCase := lower_case;
     Number_isFinite _ := true;
     Math_floor z := z |}.

(** *** A host without a key *)
Definition keyless : Host :=
  {| number_truthy z := negb (z =? 0)%Z;
     number_to_string := signed_decimal;
     number_of_Z z := z;
     JSON_parse := parse;
     JSON_stringify := pretty;
     randomUUID := numbered_uuid;
     ANTHROPIC_API_KEY := None;
     fetch := next_reply;
     runJavaScript := sandbox;
     runKnowledgeBaseLookup := lookup;
     runTodoManager := todo |}.

(** *** Payloads and bodies for the examples *)

(** The value a JSON text writes; [null] when it writes none. *)
Definition value_of (s : string) : json := default JNull (parse (text s)).

Definition add_payload : json :=
  Eval vm_compute in value_of "{'action':'add','title':' Ship it ','tags':['release']}".

Definition list_all : json :=
  Eval vm_compute in value_of "{'action':'list','filter':'all'}".

Definition list_blank : json :=
  Eval vm_compute in value_of "{'action':'list','filter':''}".

Definition complete_second : json :=
  Eval vm_compute in value_of "{'action':'complete','id':' todo-002 '}".

Definition complete_fourth : json :=
  Eval vm_compute in value_of "{'action':'complete','id':'todo-004'}".

Definition shipped : todoList.TodoItem :=
  {| todoList.id := js "todo-004"; todoList.title := js "Ship it";
     todoList.status := todoList.pending; todoList.tags := [js "release"] |}.

Definition lookup_payload : json :=
  Eval vm_compute in value_of "{'query':' Dry-Run ','tags':['Planning'],'topK':2}".

Definition lookup_result : json :=
  Eval vm_compute in
    default JNull (success_of (knowledgeBase.runKnowledgeBaseLookup lookup_payload)).

Definition lookup_trace : list ExecutionTrace :=
  Eval vm_compute in
    match knowledgeBase.runKnowledgeBaseLookup lookup_payload with
    | Returned (ToolRunSuccess _ _ trace) => trace
    | _ => []
    end.

Definition unknown_body : json :=
  Eval vm_compute in value_of "{'toolName':'rm','mode':'dry-run','input':{}}".

Definition codeless_body : json :=
  Eval vm_compute in value_of "{'toolName':'run_javascript','input':null}".

Definition planning_body : json :=
  Eval vm_compute in value_of "{'toolName':'kb_lookup','mode':'dry-run'}".

(** Three records, the second cut between two reads, the last without its
    line feed; a line that is not JSON between them. *)
Definition cut_records : list (list byte) :=
  [ bytes "{'type':'done'}|{'type':'as";
    bytes "sistant-delta','text':'hi'}|oops||";
    bytes " {'type':'error','message':'x'}" ].

(** [caf] and U+00E9, then U+1F600 as its two surrogates. *)
Definition coffee : jstring := [99; 97; 102; 233; 55357; 56832].

End Reference.

(** * Properties *)

(** ** Strings *)

Lemma startsWith_length s p : startsWith s p = true -> (length p <= length s)%nat.
Proof.
  revert s. induction p as [|c p IH]; intros s; simpl; [lia|].
  destruct s as [|d s]; [done|].
  intros [_ Hs]%andb_true_iff. apply IH in Hs. simpl. lia.
Qed.

Lemma startsWith_app s p x :
  (length p <= length s)%nat -> startsWith (s ++ x) p = startsWith s p.
Proof.
  revert s. induction p as [|c p IH]; intros s; simpl; [done|].
  destruct s as [|d s]; simpl; [lia|].
  intros Hl. rewrite IH; [done | lia].
Qed.

Lemma indexOf_bound s p i : indexOf s p = Some i -> (i + length p <= length s)%nat.
Proof.
  revert i. induction s as [|c s IH]; intros i; simpl.
  - destruct (startsWith [] p) eqn:Hp; [|done].
    intros [= <-]. apply startsWith_length in Hp. simpl in *. lia.
  - destruct (startsWith (c :: s) p) eqn:Hp.
    + intros [= <-]. apply startsWith_length in Hp. simpl in *. lia.
    + destruct (indexOf s p) as [j|] eqn:Hj; [|done].
      intros [= <-]. specialize (IH j eq_refl). simpl. lia.
Qed.

Lemma indexOf_app s p x i : indexOf s p = Some i -> indexOf (s ++ x) p = Some i.
Proof.
  revert i. induction s as [|c s IH]; intros i Hi.
  - simpl in Hi. destruct (startsWith [] p) eqn:Hp; [|done].
    injection Hi as <-. destruct p; [|done]. by destruct x.
  - pose proof (indexOf_bound _ _ _ Hi) as Hb.
    simpl in Hi. change ((c :: s) ++ x) with (c :: (s ++ x)).
    cbn [indexOf]. change (c :: (s ++ x)) with ((c :: s) ++ x).
    rewrite startsWith_app by lia.
    destruct (startsWith (c :: s) p); [done|].
    destruct (indexOf s p) as [j|] eqn:Hj; [|done].
    by rewrite (IH j eq_refl).
Qed.

Section Properties.
Context {Pf : Platform} {H : Host}.

(** ** [processBuffer] *)

Lemma processBuffer_loop_fuel f1 f2 b t :
  (length b < f1)%nat -> (length b < f2)%nat ->
  processBuffer_loop f1 b t = processBuffer_loop f2 b t.
Proof.
  revert f2 b t. induction f1 as [|f1 IH]; intros [|f2] b t H1 H2; try lia.
  simpl. destruct (indexOf b blank_line) as [i|] eqn:Hi; [|done].
  apply indexOf_bound in Hi. simpl in Hi.
  assert (length (slice_from b (i + 2)) < length b)%nat as Hlt
    by (unfold slice_from; rewrite length_drop; lia).
  destruct (parseEvent (slice b 0 i)) as [e|]; [|apply IH; lia].
  destruct (handleEvent _ _ e); try done. apply IH; lia.
Qed.

(** One round of the loop, whatever the fuel. *)
Lemma processBuffer_eq b t :
  processBuffer b t =
  match indexOf b blank_line with
  | None => (b, t, ReturnFalse)
  | Some i =>
      let rest := slice_from b (i + 2) in
      match parseEvent (slice b 0 i) with
      | None => processBuffer rest t
      | Some e =>
          let t1 := record_event t e in
          match handleEvent (assembler t) (world t) e with
          | Stop => (rest, t1, ReturnTrue)
          | Raise m => (rest, t1, Thrown m)
          | Continue a out w => processBuffer rest (carry_on t1 a out w)
          end
      end
  end.
Proof.
  unfold processBuffer at 1. cbn [processBuffer_loop].
  destruct (indexOf b blank_line) as [i|] eqn:Hi; [|done].
  apply indexOf_bound in Hi. simpl in Hi.
  assert (length (slice_from b (i + 2)) < length b)%nat as Hlt
    by (unfold slice_from; rewrite length_drop; lia).
  cbn zeta. destruct (parseEvent (slice b 0 i)) as [e|].
  - cbn [record_event assembler world].
    destruct (handleEvent _ _ e); try done.
    apply processBuffer_loop_fuel; lia.
  - apply processBuffer_loop_fuel; lia.
Qed.

(** Induction along the rounds of [processBuffer]. *)
Lemma processBuffer_induction (P : jstring -> Turn -> jstring * Turn * Signal -> Prop) :
  (forall b t, indexOf b blank_line = None -> P b t (b, t, ReturnFalse)) ->
  (forall b t i,
      indexOf b blank_line = Some i ->
      parseEvent (slice b 0 i) = None ->
      P (slice_from b (i + 2)) t (processBuffer (slice_from b (i + 2)) t) ->
      P b t (processBuffer (slice_from b (i + 2)) t)) ->
  (forall b t i e,
      indexOf b blank_line = Some i ->
      parseEvent (slice b 0 i) = Some e ->
      handleEvent (assembler t) (world t) e = Stop ->
      P b t (slice_from b (i + 2), record_event t e, ReturnTrue)) ->
  (forall b t i e m,
      indexOf b blank_line = Some i ->
      parseEvent (slice b 0 i) = Some e ->
      handleEvent (assembler t) (world t) e = Raise m ->
      P b t (slice_from b (i + 2), record_event t e, Thrown m)) ->
  (forall b t i e a out w,
      indexOf b blank_line = Some i ->
      parseEvent (slice b 0 i) = Some e ->
      handleEvent (assembler t) (world t) e = Continue a out w ->
      P (slice_from b (i + 2)) (carry_on (record_event t e) a out w)
        (processBuffer (slice_from b (i + 2)) (carry_on (record_event t e) a out w)) ->
      P b t (processBuffer (slice_from b (i + 2)) (carry_on (record_event t e) a out w))) ->
  forall b t, P b t (processBuffer b t).
Proof.
  intros Hnone Hskip Hstop Hraise Hcont b.
  remember (length b) as n eqn:Hn. revert b Hn.
  induction n as [n IH] using lt_wf_ind. intros b -> t.
  rewrite processBuffer_eq.
  destruct (indexOf b blank_line) as [i|] eqn:Hi; [|by apply Hnone].
  pose proof (indexOf_bound _ _ _ Hi) as Hb. simpl in Hb.
  assert (length (slice_from b (i + 2)) < length b)%nat as Hlt
    by (unfold slice_from; rewrite length_drop; lia).
  cbn zeta. destruct (parseEvent (slice b 0 i)) as [e|] eqn:He.
  - destruct (handleEvent (assembler t) (world t) e) as [a out w| |m] eqn:Hh.
    + eapply Hcont; eauto.
    + eapply Hstop; eauto.
    + eapply Hraise; eauto.
  - eapply Hskip; eauto.
Qed.

(** The first blank line of a buffer stays the first when the buffer grows:
    one round on [b ++ s] is the round on [b]. *)
Ltac round_of_prefix Hi s :=
  let Hb := fresh "Hb" in
  rewrite processBuffer_eq;
  pose proof (indexOf_bound _ _ _ Hi) as Hb; simpl in Hb;
  rewrite (indexOf_app _ _ s _ Hi); cbn zeta;
  unfold slice, slice_from in *; rewrite !drop_0, Nat.sub_0_r in *;
  rewrite take_app_le by lia; rewrite drop_app_le by lia.

Lemma processBuffer_app b t s :
  processBuffer (b ++ s) t = resume s (processBuffer b t).
Proof.
  revert b t.
  apply (processBuffer_induction (fun b t r => processBuffer (b ++ s) t = resume s r)).
  - done.
  - intros b t i Hi He IH. round_of_prefix Hi s. by rewrite He.
  - intros b t i e Hi He Hh. round_of_prefix Hi s. by rewrite He, Hh.
  - intros b t i e m Hi He Hh. round_of_prefix Hi s. by rewrite He, Hh.
  - intros b t i e a out w Hi He Hh IH. round_of_prefix Hi s. by rewrite He, Hh.
Qed.

(** A buffer [processBuffer] leaves with [false] holds no blank line. *)
Lemma processBuffer_leaves b t :
  (processBuffer b t).2 = ReturnFalse ->
  indexOf (processBuffer b t).1.1 blank_line = None.
Proof.
  revert b t.
  apply (processBuffer_induction
           (fun b t r => r.2 = ReturnFalse -> indexOf r.1.1 blank_line = None));
    simpl; auto; done.
Qed.

Lemma processBuffer_idle b t :
  indexOf b blank_line = None -> processBuffer b t = (b, t, ReturnFalse).
Proof. intros Hb. rewrite processBuffer_eq. by rewrite Hb. Qed.


(** ** Reads *)

Lemma decode_app d x y :
  decode d (x ++ y) =
  let '(d1, s1) := decode d x in
  let '(d2, s2) := decode d1 y in
  (d2, s1 ++ s2).
Proof.
  revert d. induction x as [|b x IH]; intros d; simpl.
  - by destruct (decode d y).
  - destruct (decode_byte d b) as [d1 s1]. rewrite IH.
    destruct (decode d1 x) as [d2 s2]. destruct (decode d2 y) as [d3 s3].
    by rewrite app_assoc.
Qed.

(** Reading the chunks one by one is reading their bytes at once, from a
    buffer that holds no complete frame. *)
Lemma readLoop_concat chunks failure d b t :
  indexOf b blank_line = None ->
  readLoop chunks failure d b t = readLoop [concat chunks] failure d b t.
Proof.
  revert d b t. induction chunks as [|c chunks IH]; intros d b t Hb.
  - simpl. rewrite app_nil_r. by rewrite (processBuffer_idle b t Hb).
  - change (concat (c :: chunks)) with (c ++ concat chunks).
    cbn [readLoop]. rewrite decode_app.
    destruct (decode d c) as [d1 s1].
    destruct (decode d1 (concat chunks)) as [d2 s2] eqn:Hd2.
    rewrite (app_assoc b s1 s2), (processBuffer_app (b ++ s1) t s2).
    pose proof (processBuffer_leaves (b ++ s1) t) as Hleft.
    destruct (processBuffer (b ++ s1) t) as [[b1 t1] [| |m]]; simpl; try done.
    rewrite IH by auto. cbn [readLoop]. by rewrite Hd2.
Qed.

Lemma readBody_chunks w chunks failure :
  readBody {| reads := chunks; read_error := failure |} w
  = readBody {| reads := [concat chunks]; read_error := failure |} w.
Proof. unfold readBody. simpl reads. simpl read_error. by apply readLoop_concat. Qed.

(** C1.  However the bytes of a response body are cut into reads, the turn
    is the one of the body delivered in a single read: the same events
    decoded in the same order, the same outputs, the same assistant message
    and tool calls, the same error if it throws.  A buffer without a blank
    line is left as it is and nothing of it is decoded, and a buffer left
    with [false] holds no complete frame. *)
Theorem fragmentation_invariant :
  (forall w chunks failure,
      readBody {| reads := chunks; read_error := failure |} w
      = readBody {| reads := [concat chunks]; read_error := failure |} w)
  /\ (forall buffer t,
        indexOf buffer blank_line = None ->
        processBuffer buffer t = (buffer, t, ReturnFalse))
  /\ (forall buffer t,
        (processBuffer buffer t).2 = ReturnFalse ->
        indexOf (processBuffer buffer t).1.1 blank_line = None).
Proof.
  split; [|split].
  - apply readBody_chunks.
  - apply processBuffer_idle.
  - apply processBuffer_leaves.
Qed.

(** ** Frames *)

Lemma trimStart_nil s : trimStart s = [] -> forallb is_white_space s = true.
Proof.
  induction s as [|c s IH]; [done|]. simpl.
  destruct (is_white_space c); [auto | done].
Qed.

Lemma trim_nonempty c s : is_white_space c = false -> nonempty (trim (c :: s)) = true.
Proof.
  intros Hc. unfold trim, trimEnd. simpl trimStart. rewrite Hc.
  destruct (trimStart (rev (c :: s))) as [|x l] eqn:Hl.
  - apply trimStart_nil in Hl. rewrite forallb_forall in Hl.
    rewrite (Hl c) in Hc; [done|]. apply in_rev. rewrite rev_involutive. by left.
  - simpl. by destruct (rev l ++ [x]) eqn:Hr; [destruct (rev l)|].
Qed.

Lemma parseEvent_line_data acc line :
  is_data_line line = true ->
  parseEvent_line acc line
  = (acc.1, acc.2 ++ [trim (slice_from line (length (js "data:")))]).
Proof.
  unfold is_data_line. destruct acc as [ev dl]. unfold parseEvent_line.
  destruct line as [|c line]; [done|]. intros Hd.
  assert (c = 100) as ->.
  { change (js "data:") with (100 :: js "ata:") in Hd. cbn [startsWith] in Hd.
    apply andb_true_iff in Hd as [Hc _]. by apply N.eqb_eq in Hc. }
  rewrite trim_nonempty by done. simpl negb. cbn match.
  replace (startsWith (100 :: line) (js "event:")) with false by done.
  by rewrite Hd.
Qed.

Lemma parseEvent_line_other acc line :
  is_data_line line = false -> (parseEvent_line acc line).2 = acc.2.
Proof.
  unfold is_data_line. destruct acc as [ev dl]. unfold parseEvent_line. intros Hd.
  destruct (negb (nonempty (trim line))); [done|].
  destruct (startsWith line (js "event:")); [done|]. by rewrite Hd.
Qed.

Lemma parseEvent_lines_data lines acc :
  (foldl parseEvent_line acc lines).2
  = acc.2 ++ map (fun line => trim (slice_from line (length (js "data:"))))
               (filter (fun line => is_data_line line = true) lines).
Proof.
  revert acc. induction lines as [|line lines IH]; intros acc.
  - simpl. by rewrite app_nil_r.
  - cbn [foldl]. rewrite IH. destruct (is_data_line line) eqn:Hd.
    + rewrite parseEvent_line_data by done. rewrite filter_cons_True by done.
      simpl. by rewrite <- app_assoc.
    + rewrite parseEvent_line_other by done. rewrite filter_cons_False; [done|].
      by rewrite Hd.
Qed.

Lemma parseEvent_data raw e :
  parseEvent raw = Some e ->
  data e =
  if nonempty (dataPayload raw) then
    if bool_decide (dataPayload raw = js "[DONE]") then Some (JStr (js "[DONE]"))
    else JSON_parse (dataPayload raw)
  else None.
Proof.
  unfold parseEvent, dataPayload.
  destruct (parseEvent_lines raw) as [ev dl]. cbn [snd].
  intros He. repeat case_match; simplify_eq; done.
Qed.

(** C6, as the code has it.  The payload text of a frame is its [data:]
    lines, in order, each without the prefix and trimmed of the white space
    at both ends, put together with nothing between them; the payload of the
    event decoded from the frame is read from that text. *)
Theorem dataPayload_trimmed raw :
  dataPayload raw
  = concat (map (fun line => trim (slice_from line (length (js "data:"))))
              (filter (fun line => is_data_line line = true) (split raw LF)))
  /\ forall e,
      parseEvent raw = Some e ->
      data e =
      if nonempty (dataPayload raw) then
        if bool_decide (dataPayload raw = js "[DONE]") then Some (JStr (js "[DONE]"))
        else JSON_parse (dataPayload raw)
      else None.
Proof.
  split; [|apply parseEvent_data].
  unfold dataPayload, parseEvent_lines, join_empty.
  by rewrite parseEvent_lines_data.
Qed.

(** ** The assembler *)

Lemma opt_prop_object d key v :
  opt_prop d key = Some v -> exists fields, d = Some (JObj fields).
Proof. destruct d as [[]|]; try done. eauto. Qed.

Lemma is_string_true x literal :
  is_string x literal = true -> x = Some (JStr (js literal)).
Proof.
  destruct x as [[]|]; try done. simpl. intros Hs.
  apply bool_decide_eq_true in Hs. by subst.
Qed.

Lemma targets_not_DONE e name index :
  targets e name index -> is_string (data e) "[DONE]" = false.
Proof. intros [_ Hi]. apply opt_prop_object in Hi as [fields ->]. done. Qed.

Lemma handleEvent_start a w e index :
  targets e "content_block_start" index ->
  handleEvent a w e = content_block_start a w (data e).
Proof.
  intros Ht. unfold handleEvent. rewrite (targets_not_DONE _ _ _ Ht).
  destruct Ht as [-> _]. done.
Qed.

Lemma handleEvent_delta a w e index :
  targets e "content_block_delta" index ->
  handleEvent a w e = content_block_delta a w (data e).
Proof.
  intros Ht. unfold handleEvent. rewrite (targets_not_DONE _ _ _ Ht).
  destruct Ht as [-> _]. done.
Qed.

Lemma handleEvent_stop a w e index :
  targets e "content_block_stop" index ->
  handleEvent a w e = content_block_stop a w (data e).
Proof.
  intros Ht. unfold handleEvent. rewrite (targets_not_DONE _ _ _ Ht).
  destruct Ht as [-> _]. done.
Qed.

Lemma typed_truthy x literal :
  is_string (opt_prop x "type") literal = true -> truthy x = true.
Proof.
  intros Hs. apply is_string_true in Hs. apply opt_prop_object in Hs as [fields ->]. done.
Qed.

(** A text delta appends to the text block at its position, if there is
    one, and hands its text, if not empty, to [emitText]. *)
Lemma handleEvent_text_delta a w e index text :
  text_delta_at index e text ->
  handleEvent a w e =
  Continue
    match blocks a !! index with
    | Some (TextBlock t) =>
        {| blocks := <[index := TextBlock (t ++ text)]> (blocks a);
           calls := calls a; pending := pending a |}
    | _ => a
    end
    (if nonempty text then [EmitText text] else []) w.
Proof.
  intros (Ht & Hty & Htext). rewrite (handleEvent_delta _ _ _ _ Ht).
  destruct Ht as [_ Hi]. unfold content_block_delta, delta_of in *.
  rewrite Hi, (typed_truthy _ _ Hty), Hty, Htext. done.
Qed.

Lemma handleEvent_input_json_delta a w e index partial :
  input_json_delta_at index e partial ->
  handleEvent a w e =
  match pending a !! index with
  | Some p =>
      Continue {| blocks := blocks a; calls := calls a;
                  pending := <[index := {| pending_id := pending_id p;
                                           pending_name := pending_name p;
                                           pending_buffer := pending_buffer p ++ partial |}]>
                               (pending a) |} [] w
  | None => Continue a [] w
  end.
Proof.
  intros (Ht & Hty & Hpartial). rewrite (handleEvent_delta _ _ _ _ Ht).
  destruct Ht as [_ Hi]. unfold content_block_delta, delta_of in *.
  rewrite Hi, (typed_truthy _ _ Hty), Hpartial.
  apply is_string_true in Hty. rewrite Hty. done.
Qed.

Lemma handleEvent_content_block_stop a w e index :
  targets e "content_block_stop" index ->
  handleEvent a w e =
  match pending a !! index with
  | None => Continue a [] w
  | Some p =>
      let input := parse_tool_input (pending_buffer p) in
      match blocks a !! index with
      | Some (ToolUseBlock id name _) =>
          Continue {| blocks := <[index := ToolUseBlock id name input]> (blocks a);
                      calls := calls a ++ [{| call_id := id; call_name := name;
                                              call_input := input; call_index := index |}];
                      pending := delete index (pending a) |} [] w
      | _ =>
          Continue {| blocks := blocks a; calls := calls a;
                      pending := delete index (pending a) |} [] w
      end
  end.
Proof.
  intros Ht. rewrite (handleEvent_stop _ _ _ _ Ht).
  destruct Ht as [_ Hi]. unfold content_block_stop. by rewrite Hi.
Qed.

Lemma handleEvent_start_text a w e index :
  start_at index e "text" ->
  handleEvent a w e =
  Continue {| blocks := <[index := TextBlock []]> (blocks a);
              calls := calls a; pending := pending a |} [] w.
Proof.
  intros (Ht & Hty). rewrite (handleEvent_start _ _ _ _ Ht).
  destruct Ht as [_ Hi]. unfold content_block_start.
  by rewrite Hi, (typed_truthy _ _ Hty), Hty.
Qed.

Lemma handleEvent_start_tool_use a w e index :
  start_at index e "tool_use" ->
  exists id name w',
    handleEvent a w e =
    Continue {| blocks := <[index := ToolUseBlock id name (JObj [])]> (blocks a);
                calls := calls a;
                pending := <[index := {| pending_id := id; pending_name := name;
                                         pending_buffer := [] |}]> (pending a) |}
             [EmitEvent (ToolRequest id name)] w'.
Proof.
  intros (Ht & Hty). rewrite (handleEvent_start _ _ _ _ Ht).
  destruct Ht as [_ Hi]. unfold content_block_start.
  rewrite Hi, (typed_truthy _ _ Hty). apply is_string_true in Hty. rewrite Hty.
  simpl negb. cbn match.
  replace (is_string (Some (JStr (js "tool_use"))) "text") with false by done.
  replace (is_string (Some (JStr (js "tool_use"))) "tool_use") with true by done.
  destruct (match opt_prop (opt_prop (data e) "content_block") "id" with
            | Some JNull | None => randomUUID w
            | Some v => (js_String v, w)
            end) as [id w']. eauto.
Qed.




Lemma dispatch_text_deltas index es texts :
  Forall2 (text_delta_at index) es texts ->
  forall t t0,
    blocks (assembler t) !! index = Some (TextBlock t0) ->
    exists t',
      dispatch t es = (t', ReturnFalse)
      /\ blocks (assembler t') !! index = Some (TextBlock (t0 ++ concat texts))
      /\ emitted t' = emitted t ++ map EmitText (filter (fun x => nonempty x = true) texts)
      /\ calls (assembler t') = calls (assembler t)
      /\ pending (assembler t') = pending (assembler t).
Proof.
  induction 1 as [|e text es texts He _ IH]; intros t t0 Hb.
  - exists t. simpl. by rewrite !app_nil_r.
  - cbn [dispatch]. cbn [record_event assembler world].
    rewrite (handleEvent_text_delta _ _ _ _ _ He), Hb.
    edestruct (IH (carry_on (record_event t e)
                     {| blocks := <[index := TextBlock (t0 ++ text)]> (blocks (assembler t));
                        calls := calls (assembler t);
                        pending := pending (assembler t) |}
                     (if nonempty text then [EmitText text] else []) (world t))
                 (t0 ++ text)) as (t' & Hd & Hb' & Hem & Hc & Hp).
    { simpl. apply lookup_insert_eq. }
    exists t'. split; [done|]. split; [|split; [|done]].
    + rewrite Hb'. simpl. by rewrite app_assoc.
    + rewrite Hem. simpl. destruct (nonempty text) eqn:Hn.
      * rewrite filter_cons_True by done. simpl. by rewrite <- app_assoc.
      * rewrite filter_cons_False by (by rewrite Hn). by rewrite app_nil_r.
Qed.

Lemma dispatch_app es1 es2 t :
  dispatch t (es1 ++ es2) =
  match dispatch t es1 with
  | (t1, ReturnFalse) => dispatch t1 es2
  | r => r
  end.
Proof.
  revert t. induction es1 as [|e es1 IH]; intros t; [done|].
  cbn [app dispatch]. destruct (handleEvent _ _ e); auto.
Qed.

Lemma dispatch_input_json_deltas index es fragments :
  Forall2 (input_json_delta_at index) es fragments ->
  forall t p,
    pending (assembler t) !! index = Some p ->
    exists t',
      dispatch t es = (t', ReturnFalse)
      /\ pending (assembler t') !! index
         = Some {| pending_id := pending_id p; pending_name := pending_name p;
                   pending_buffer := pending_buffer p ++ concat fragments |}
      /\ blocks (assembler t') = blocks (assembler t)
      /\ calls (assembler t') = calls (assembler t)
      /\ emitted t' = emitted t.
Proof.
  induction 1 as [|e partial es fragments He _ IH]; intros t p Hp.
  - exists t. simpl. rewrite app_nil_r. by destruct p.
  - cbn [dispatch]. cbn [record_event assembler world].
    rewrite (handleEvent_input_json_delta _ _ _ _ _ He), Hp.
    edestruct (IH (carry_on (record_event t e)
                     {| blocks := blocks (assembler t);
                        calls := calls (assembler t);
                        pending := <[index := {| pending_id := pending_id p;
                                                 pending_name := pending_name p;
                                                 pending_buffer := pending_buffer p ++ partial |}]>
                                     (pending (assembler t)) |} [] (world t)))
      as (t' & Hd & Hp' & Hb & Hc & Hem).
    { simpl. apply lookup_insert_eq. }
    exists t'. split; [done|]. rewrite Hp', Hb, Hc, Hem. simpl.
    by rewrite <- app_assoc, app_nil_r.
Qed.

Lemma parse_tool_input_cases buffer :
  (trim buffer = [] -> parse_tool_input buffer = JObj [])
  /\ (JSON_parse (trim buffer) = None -> parse_tool_input buffer = JObj [])
  /\ (forall v, trim buffer <> [] -> JSON_parse (trim buffer) = Some v ->
       parse_tool_input buffer = v).
Proof.
  unfold parse_tool_input. split; [|split].
  - by intros ->.
  - intros ->. by destruct (nonempty (trim buffer)).
  - intros v Hne ->. by destruct (trim buffer).
Qed.

(** C2, as the code has it.  After the start of a tool-use block, the
    deltas carrying the fragments and the stop of the block, nothing is
    thrown; the block and the tool call appended for it carry as input the
    parse of the concatenation trimmed of white space at both ends, or the
    empty object when the trimmed text is empty or does not parse; the
    pending entry is removed. *)
Theorem tool_input_finalized t index start es fragments stop :
  start_at index start "tool_use" ->
  Forall2 (input_json_delta_at index) es fragments ->
  targets stop "content_block_stop" index ->
  exists t' id name,
    let text := trim (concat fragments) in
    let input := parse_tool_input (concat fragments) in
    dispatch t (start :: es ++ [stop]) = (t', ReturnFalse)
    /\ blocks (assembler t') !! index = Some (ToolUseBlock id name input)
    /\ calls (assembler t')
       = calls (assembler t)
         ++ [{| call_id := id; call_name := name; call_input := input;
                call_index := index |}]
    /\ pending (assembler t') !! index = None
    /\ (text = [] -> input = JObj [])
    /\ (JSON_parse text = None -> input = JObj [])
    /\ (forall v, text <> [] -> JSON_parse text = Some v -> input = v).
Proof.
  intros Hstart Hes Hstop.
  destruct (handleEvent_start_tool_use (assembler t) (world t) start index Hstart)
    as (id & name & w' & Hh).
  cbn [dispatch]. cbn [record_event assembler world]. rewrite Hh.
  rewrite dispatch_app.
  set (t1 := carry_on _ _ _ _).
  destruct (dispatch_input_json_deltas index es fragments Hes t1
              {| pending_id := id; pending_name := name; pending_buffer := [] |})
    as (t2 & Hd & Hp & Hb & Hc & _).
  { apply lookup_insert_eq. }
  rewrite Hd. cbn [dispatch]. cbn [record_event assembler world].
  rewrite (handleEvent_content_block_stop _ _ _ _ Hstop), Hp, Hb.
  subst t1. cbn [carry_on assembler blocks]. rewrite lookup_insert_eq.
  cbn [pending_buffer app]. cbn zeta.
  eexists _, id, name. cbn zeta. split; [reflexivity|].
  cbn [carry_on assembler blocks calls pending].
  split; [apply lookup_insert_eq|]. split; [by rewrite Hc|].
  split; [apply lookup_delete_eq|]. apply parse_tool_input_cases.
Qed.

(** C7.  Text deltas at the position of a text block leave in it its text
    followed by the delta texts in arrival order; for a block started just
    before them, their concatenation. *)
Theorem text_deltas_concatenate t index es texts :
  Forall2 (text_delta_at index) es texts ->
  (forall t0,
      blocks (assembler t) !! index = Some (TextBlock t0) ->
      exists t',
        dispatch t es = (t', ReturnFalse)
        /\ blocks (assembler t') !! index = Some (TextBlock (t0 ++ concat texts)))
  /\ (forall start,
        start_at index start "text" ->
        exists t',
          dispatch t (start :: es) = (t', ReturnFalse)
          /\ blocks (assembler t') !! index = Some (TextBlock (concat texts))).
Proof.
  intros Hes. split.
  - intros t0 Hb.
    destruct (dispatch_text_deltas index es texts Hes t t0 Hb) as (t' & Hd & Hb' & _).
    eauto.
  - intros start Hstart. cbn [dispatch]. cbn [record_event assembler world].
    rewrite (handleEvent_start_text _ _ _ _ Hstart).
    destruct (dispatch_text_deltas index es texts Hes
                (carry_on (record_event t start)
                   {| blocks := <[index := TextBlock []]> (blocks (assembler t));
                      calls := calls (assembler t);
                      pending := pending (assembler t) |} [] (world t)) [])
      as (t' & Hd & Hb' & _).
    { simpl. apply lookup_insert_eq. }
    exists t'. by split.
Qed.

(** C10.  A text delta with non-empty text at a position that holds no text
    block goes to [emitText], and from there to the stream as an
    [assistant-delta] record, while the assembler stays as it was: a turn of
    this one event emits the text and ends with an empty message. *)
Theorem unplaced_text_forwarded a w e index text :
  text_delta_at index e text ->
  text <> [] ->
  (forall t0, blocks a !! index <> Some (TextBlock t0)) ->
  handleEvent a w e = Continue a [EmitText text] w
  /\ flat_map forward [EmitText text] = [AssistantDelta text]
  /\ dispatch (new_Turn w) [e]
     = ({| assembler := new_Assembler; emitted := [EmitText text];
           decoded := [e]; world := w |}, ReturnFalse).
Proof.
  intros He Htext Hb.
  assert (nonempty text = true) as Hn by (by destruct text).
  split; [|split].
  - rewrite (handleEvent_text_delta _ _ _ _ _ He), Hn.
    destruct (blocks a !! index) as [[t0| |]|] eqn:Hi; try done.
    by destruct (Hb t0).
  - simpl. by rewrite Hn.
  - cbn [dispatch]. cbn [record_event new_Turn assembler world].
    rewrite (handleEvent_text_delta _ _ _ _ _ He), Hn. done.
Qed.

(** ** Frames and [dispatch] *)

Lemma indexOf_frame frame x :
  one_frame frame -> indexOf (frame ++ blank_line ++ x) blank_line = Some (length frame).
Proof.
  unfold one_frame. induction frame as [|c frame IH]; [done|].
  intros Hf. cbn [app indexOf] in *.
  destruct (startsWith (c :: frame ++ [LF]) blank_line) eqn:Hs; [done|].
  destruct (indexOf (frame ++ [LF]) blank_line) eqn:Hi; [done|].
  rewrite IH by done.
  replace (startsWith (c :: frame ++ blank_line ++ x) blank_line) with false; [done|].
  destruct frame as [|d frame]; [done|]. exact (eq_sym Hs).
Qed.

Lemma processBuffer_frames frames rest :
  Forall one_frame frames ->
  forall t,
    match dispatch t (omap parseEvent frames) with
    | (t', ReturnFalse) =>
        processBuffer (frames_text frames ++ rest) t = processBuffer rest t'
    | (t', signal) =>
        exists left, processBuffer (frames_text frames ++ rest) t = (left, t', signal)
    end.
Proof.
  induction 1 as [|frame frames Hf _ IH]; intros t; [done|].
  unfold frames_text in *. cbn [map concat omap list_omap].
  rewrite <- !app_assoc. rewrite processBuffer_eq, (indexOf_frame _ _ Hf). cbn zeta.
  unfold slice, slice_from. rewrite drop_0, Nat.sub_0_r, take_app_length.
  replace (length frame + 2)%nat with (length (frame ++ blank_line))
    by (rewrite length_app; done).
  rewrite (app_assoc frame blank_line), drop_app_length.
  destruct (parseEvent frame) as [e|]; [|apply IH].
  cbn [dispatch]. cbn [record_event assembler world].
  destruct (handleEvent (assembler t) (world t) e) as [a out w| |m]; eauto.
  apply IH.
Qed.

(** ** What a turn emits *)

Lemma handleEvent_outputs a w e a' out w' :
  handleEvent a w e = Continue a' out w' -> Forall turn_output out.
Proof.
  unfold handleEvent, content_block_start, content_block_delta, content_block_stop.
  intros Hh. repeat case_match; simplify_eq; repeat constructor; done.
Qed.

Lemma processBuffer_outputs b t :
  Forall turn_output (emitted t) ->
  Forall turn_output (emitted (processBuffer b t).1.2).
Proof.
  revert b t.
  apply (processBuffer_induction
           (fun b t r => Forall turn_output (emitted t) ->
                         Forall turn_output (emitted r.1.2))); simpl; auto.
  intros b t i e a out w _ _ Hh IH Ht. apply IH, Forall_app. split; [done|].
  eapply handleEvent_outputs; eauto.
Qed.

Lemma readLoop_outputs chunks failure d b t :
  Forall turn_output (emitted t) ->
  Forall turn_output (outputs (readLoop chunks failure d b t)).
Proof.
  revert d b t. induction chunks as [|c chunks IH]; intros d b t Ht; cbn [readLoop].
  - destruct failure; [done|].
    pose proof (processBuffer_outputs (b ++ decode_end d) t Ht) as Hp.
    by destruct (processBuffer (b ++ decode_end d) t) as [[b1 t1] [| |m]].
  - destruct (decode d c) as [d1 s1].
    pose proof (processBuffer_outputs (b ++ s1) t Ht) as Hp.
    destruct (processBuffer (b ++ s1) t) as [[b1 t1] [| |m]]; auto.
Qed.

Lemma streamClaudeTurn_outputs w messages :
  Forall turn_output (outputs (streamClaudeTurn w messages)).
Proof.
  unfold streamClaudeTurn. repeat case_match; try by constructor.
  unfold readBody. by apply readLoop_outputs.
Qed.

Lemma forward_plain os :
  Forall turn_output os -> Forall (fun e => is_plain e = true) (flat_map forward os).
Proof.
  induction 1 as [|o os Ho _ IH]; [constructor|].
  cbn [flat_map]. apply Forall_app. split; [|done].
  destruct o as [text|[]]; simpl in *; try done; repeat constructor.
  rewrite Ho. by repeat constructor.
Qed.

Lemma runToolCalls_plain w conv cs :
  Forall (fun e => is_plain e = true) (sent (runToolCalls w conv cs)).
Proof.
  revert w conv. induction cs as [|c cs IH]; intros w conv; cbn [runToolCalls].
  - constructor.
  - destruct (runTool w (call_name c) (call_input c)) as [[r|m] w1]; simpl.
    + repeat constructor. apply IH.
    + by repeat constructor.
Qed.

Lemma runToolCalls_prefix w conv cs :
  conv `prefix_of` pushed (runToolCalls w conv cs).
Proof.
  revert w conv. induction cs as [|c cs IH]; intros w conv; cbn [runToolCalls].
  - done.
  - destruct (runTool w (call_name c) (call_input c)) as [[r|m] w1]; simpl; [|done].
    etrans; [|apply IH]. by apply prefix_app_r.
Qed.

(** ** The orchestrator loop *)

Lemma well_ended_send_before sessionId es x :
  Forall (fun e => is_plain e = true) es ->
  well_ended sessionId x -> well_ended sessionId (send_before es x).
Proof.
  unfold well_ended. destruct x as [evs conv st w]; simpl. intros Hes.
  destruct st as [| |m].
  - intros Hx. by apply Forall_app.
  - intros (before & w' & conv' & turn & -> & Hb & Hrest).
    exists (es ++ before), w', conv', turn.
    rewrite app_assoc. split; [done|]. split; [by apply Forall_app | done].
  - intros (before & -> & Hb & Hwhy). exists (es ++ before).
    rewrite app_assoc. split; [done|]. split; [by apply Forall_app | done].
Qed.

Lemma agentLoop_well_ended turns w sessionId conv :
  well_ended sessionId (agentLoop turns w sessionId conv).
Proof.
  revert w conv. induction turns as [|turns IH]; intros w conv; cbn [agentLoop].
  - constructor.
  - pose proof (forward_plain _ (streamClaudeTurn_outputs w conv)) as Hd.
    destruct (outcome (streamClaudeTurn w conv)) as [turn|m] eqn:Ho.
    + destruct (toolCalls turn) as [|c cs] eqn:Hc.
      * unfold well_ended. cbn [state events conversation].
        eexists _, w, conv, turn. split; [reflexivity|].
        split; [|done]. apply Forall_app. split; [done|]. by repeat constructor.
      * pose proof (runToolCalls_plain (world_after (streamClaudeTurn w conv))
                      (conv ++ [assistantMessage turn]) (c :: cs)) as Hs.
        set (step := runToolCalls _ _ (c :: cs)) in *.
        destruct (thrown step) as [m|] eqn:Hthrown.
        -- unfold well_ended. cbn [state events]. eexists.
           rewrite (app_assoc _ (sent step)). split; [reflexivity|].
           split; [|right; eauto].
           repeat (apply Forall_app; split); try done. by repeat constructor.
        -- apply well_ended_send_before; [|apply IH].
           repeat (apply Forall_app; split); try done. by repeat constructor.
    + unfold well_ended. cbn [state events]. eauto 10.
Qed.

Lemma agentLoop_prefix turns w sessionId conv :
  conv `prefix_of` conversation (agentLoop turns w sessionId conv).
Proof.
  revert w conv. induction turns as [|turns IH]; intros w conv; cbn [agentLoop].
  - done.
  - destruct (outcome (streamClaudeTurn w conv)) as [turn|m]; [|done].
    destruct (toolCalls turn) as [|c cs] eqn:Hc; [by apply prefix_app_r|].
    pose proof (runToolCalls_prefix (world_after (streamClaudeTurn w conv))
                  (conv ++ [assistantMessage turn]) (c :: cs)) as Hp.
    set (step := runToolCalls _ _ (c :: cs)) in *.
    destruct (thrown step) as [m|]; cbn [conversation send_before].
    + etrans; [|exact Hp]. by apply prefix_app_r.
    + etrans; [|apply IH]. etrans; [|exact Hp]. by apply prefix_app_r.
Qed.




Lemma createAgentResponse_well_ended turns w request :
  exists sessionId,
    well_ended sessionId (createAgentResponse turns w request)
    /\ forall s, session request = Some s -> sessionId = session_id s.
Proof.
  unfold createAgentResponse.
  destruct (match session request with
            | Some s => (session_id s, w)
            | None => randomUUID w
            end) as [sessionId w1] eqn:Hid.
  exists sessionId. split.
  - apply well_ended_send_before; [by repeat constructor|].
    apply agentLoop_well_ended.
  - intros s Hs. rewrite Hs in Hid. by simplify_eq.
Qed.



(** How the loop leaves a turn without tool calls and a turn that failed. *)
Lemma agentLoop_done turns w sessionId conv turn :
  outcome (streamClaudeTurn w conv) = Ok turn ->
  toolCalls turn = [] ->
  agentLoop (S turns) w sessionId conv
  = {| events := (flat_map forward (outputs (streamClaudeTurn w conv))
                  ++ [MessageEvent (assistantMessage turn)])
                 ++ [SessionEvent {| session_id := sessionId;
                                     session_messages := conv ++ [assistantMessage turn] |};
                     DoneEvent];
       conversation := conv ++ [assistantMessage turn];
       state := Done;
       world_end := world_after (streamClaudeTurn w conv) |}.
Proof. intros Ho Hc. cbn [agentLoop]. by rewrite Ho, Hc. Qed.

Lemma agentLoop_failed turns w sessionId conv message :
  outcome (streamClaudeTurn w conv) = Throw message ->
  agentLoop (S turns) w sessionId conv
  = {| events := flat_map forward (outputs (streamClaudeTurn w conv))
                 ++ [ErrorEvent message];
       conversation := conv;
       state := Failed message;
       world_end := world_after (streamClaudeTurn w conv) |}.
Proof. intros Ho. cbn [agentLoop]. by rewrite Ho. Qed.

Lemma snapshot_plain es rest :
  Forall (fun e => is_plain e = true) es -> snapshot (es ++ rest) = snapshot rest.
Proof.
  unfold snapshot. induction 1 as [|e es He _ IH]; [done|].
  cbn [app omap list_omap]. by destruct e.
Qed.

Lemma well_ended_snapshot sessionId x s :
  well_ended sessionId x ->
  snapshot (events x) = Some s ->
  s = {| session_id := sessionId; session_messages := conversation x |}.
Proof.
  unfold well_ended. destruct (state x) as [| |m].
  - intros Hp. rewrite <- (app_nil_r (events x)), snapshot_plain by done. done.
  - intros (before & w & conv & turn & -> & Hb & _).
    rewrite snapshot_plain by done. by intros [= <-].
  - intros (before & -> & Hb & _). rewrite snapshot_plain by done. done.
Qed.

Lemma createAgentResponse_prefix turns w request s :
  session request = Some s ->
  session_messages s `prefix_of` conversation (createAgentResponse turns w request).
Proof.
  intros Hs. unfold createAgentResponse. rewrite Hs. cbn [conversation send_before].
  etrans; [|apply agentLoop_prefix]. by apply prefix_app_r.
Qed.

(** C5.  The snapshot a run wrote carries its final conversation; a run
    started from that snapshot has this conversation as the first messages
    of its own, and a snapshot it writes carries the same session id. *)
Theorem session_round_trip turns1 turns2 w1 w2 request1 prompt2 s :
  snapshot (events (createAgentResponse turns1 w1 request1)) = Some s ->
  let x1 := createAgentResponse turns1 w1 request1 in
  let x2 := createAgentResponse turns2 w2 {| prompt := prompt2; session := Some s |} in
  session_messages s = conversation x1
  /\ conversation x1 `prefix_of` conversation x2
  /\ take (length (conversation x1)) (conversation x2) = conversation x1
  /\ forall s2, snapshot (events x2) = Some s2 -> session_id s2 = session_id s.
Proof.
  intros Hs x1 x2. subst x1 x2.
  destruct (createAgentResponse_well_ended turns1 w1 request1) as (id1 & Hx1 & _).
  pose proof (well_ended_snapshot _ _ _ Hx1 Hs) as ->. cbn [session_messages session_id].
  set (s := {| session_id := id1;
               session_messages := conversation (createAgentResponse turns1 w1 request1) |}).
  pose proof (createAgentResponse_prefix turns2 w2 {| prompt := prompt2; session := Some s |}
                s eq_refl) as Hp.
  split; [done|]. split; [done|]. split.
  - destruct Hp as [more ->]. by rewrite take_app_length.
  - intros s2 Hs2.
    destruct (createAgentResponse_well_ended turns2 w2
                {| prompt := prompt2; session := Some s |}) as (id2 & Hx2 & Hid).
    rewrite (well_ended_snapshot _ _ _ Hx2 Hs2). simpl. exact (Hid s eq_refl).
Qed.

(** ** Tool invocation *)

Lemma getTool_unknown toolName :
  getTool toolName = None ->
  toolName <> js "run_javascript" /\ toolName <> js "list_capabilities"
  /\ toolName <> js "explain_guardrails" /\ toolName <> js "kb_lookup"
  /\ toolName <> js "todo_manager".
Proof. intros Hg. repeat split; intros ->; discriminate Hg. Qed.

Lemma runTool_unknown w toolName input :
  getTool toolName = None ->
  runTool w toolName input
  = (Returned
       (ToolRunError (js "Unknown tool: " ++ toolName)
          [ {| title := js "Lookup tool";
               detail := js "The orchestrator asked for a tool that is not registered in this host." |} ]),
     w).
Proof.
  intros (H1 & H2 & H3 & H4 & H5)%getTool_unknown. unfold runTool.
  by rewrite !bool_decide_eq_false_2 by done.
Qed.



Lemma invocations_complete w conv cs :
  thrown (runToolCalls w conv cs) = None ->
  exists results w', invocations w cs results w'.
Proof.
  revert w conv. induction cs as [|c cs IH]; intros w conv.
  - intros _. exists [], w. constructor.
  - cbn [runToolCalls].
    destruct (runTool w (call_name c) (call_input c)) as [[r|m] w1] eqn:Hr; [|done].
    cbn [thrown]. intros (rs & w2 & Hi)%IH. exists (r :: rs), w2. by econstructor.
Qed.


(** C8.  A call of a tool that is not registered returns the failure
    [Unknown tool: name] and leaves the world as it was; the loop writes the
    records of the step, appends the tool message and goes on with the calls
    that follow, and after a turn with this call alone it goes to the next
    model request. *)
Theorem unknown_tool_reported w call :
  getTool (call_name call) = None ->
  let result :=
    ToolRunError (js "Unknown tool: " ++ call_name call)
      [ {| title := js "Lookup tool";
           detail := js "The orchestrator asked for a tool that is not registered in this host." |} ] in
  runTool w (call_name call) (call_input call) = (Returned result, w)
  /\ (forall conv rest,
        let after := runToolCalls w (conv ++ [toolMessage call result]) rest in
        runToolCalls w conv (call :: rest)
        = {| sent := step_events call result ++ sent after;
             pushed := pushed after;
             world_then := world_then after;
             thrown := thrown after |})
  /\ (forall turns w0 sessionId conv turn,
        outcome (streamClaudeTurn w0 conv) = Ok turn ->
        toolCalls turn = [call] ->
        world_after (streamClaudeTurn w0 conv) = w ->
        agentLoop (S turns) w0 sessionId conv
        = send_before
            ((flat_map forward (outputs (streamClaudeTurn w0 conv))
                ++ [MessageEvent (assistantMessage turn)])
               ++ step_events call result)
            (agentLoop turns w sessionId
               ((conv ++ [assistantMessage turn]) ++ [toolMessage call result]))).
Proof.
  intros Hg result.
  pose proof (runTool_unknown w (call_name call) (call_input call) Hg) as Hr.
  fold result in Hr. split; [done|]. split.
  - intros conv rest after. cbn [runToolCalls]. by rewrite Hr.
  - intros turns w0 sessionId conv turn Ho Hc Hw.
    cbn [agentLoop]. rewrite Ho, Hc, Hw. cbn [runToolCalls]. rewrite Hr.
    cbn [thrown sent pushed world_then runToolCalls]. done.
Qed.

End Properties.

(** * Further properties *)

(** ** Decimal numerals *)

Lemma decimal_digits_spec fuel n acc :
  n < 10 ^ N.of_nat fuel ->
  exists d, decimal_digits fuel n acc = d ++ acc
    /\ forall v, foldl (fun v c => 10 * v + (c - 48)) v d = v * 10 ^ N.of_nat (length d) + n.
Proof.
  revert n acc. induction fuel as [|fuel IH]; intros n acc Hn.
  - simpl in Hn. assert (n = 0) by lia. subst. exists []. split; [done|]. intros v; simpl. lia.
  - simpl. destruct (n <? 10) eqn:E.
    + apply N.ltb_lt in E. exists [48 + n]. split; [done|]. intros v. simpl. lia.
    + apply N.ltb_ge in E.
      destruct (IH (n / 10) (48 + n mod 10 :: acc)) as (d & Hd & Hv).
      { apply N.Div0.div_lt_upper_bound. rewrite Nat2N.inj_succ, N.pow_succ_r' in Hn. exact Hn. }
      exists (d ++ [48 + n mod 10]). split.
      * rewrite Hd, <- app_assoc. done.
      * intros v. rewrite foldl_app, Hv. simpl. rewrite length_app. simpl.
        rewrite Nat2N.inj_add. simpl (N.of_nat 1). rewrite N.pow_add_r, N.pow_1_r.
        pose proof (N.Div0.div_mod n 10) as Hdm.
        revert Hdm. generalize (10 ^ N.of_nat (length d)) (n / 10) (n mod 10).
        intros; lia.
Qed.

Lemma numeral_value_decimal n : numeral_value (decimal n) = n.
Proof.
  unfold decimal, numeral_value.
  destruct (decimal_digits_spec (S (N.to_nat (N.log2 n))) n []) as (d & Hd & Hv).
  { destruct (decide (n = 0)) as [->|Hn]; [simpl; lia|].
    pose proof (N.log2_spec n ltac:(lia)) as [_ Hlt].
    rewrite Nat2N.inj_succ, N2Nat.id.
    eapply N.lt_le_trans; [exact Hlt|].
    apply N.pow_le_mono_l. lia. }
  rewrite Hd, app_nil_r, Hv. lia.
Qed.

Lemma numeral_value_padStart s n : numeral_value (padStart s n) = numeral_value s.
Proof.
  unfold padStart, numeral_value. rewrite foldl_app.
  f_equal. induction (n - length s)%nat as [|k IH]; [done|]. simpl. exact IH.
Qed.

(** ** The todo list *)


Section TodoProperties.
Context {Pf : Platform}.

Lemma nth_id_inj n m : nth_id n = nth_id m -> n = m.
Proof.
  unfold nth_id. intros E. apply app_inv_head in E.
  apply (f_equal numeral_value) in E.
  rewrite !numeral_value_padStart, !numeral_value_decimal in E. lia.
Qed.

Lemma completeTodo_found store wanted :
  match todoList.completeTodo store wanted with
  | (Some updated, store') =>
      exists before item after,
        store = before ++ item :: after
        /\ todoList.id item = wanted
        /\ (wanted ∉ map todoList.id before)
        /\ updated = marked item
        /\ store' = before ++ marked item :: after
  | (None, store') => (wanted ∉ map todoList.id store) /\ store' = store
  end.
Proof.
  induction store as [|item rest IH]; simpl.
  - split; [apply not_elem_of_nil|done].
  - case_bool_decide as E.
    + exists [], item, rest. repeat split; try done. apply not_elem_of_nil.
    + destruct (todoList.completeTodo rest wanted) as [[updated|] rest'].
      * destruct IH as (before & it & after & -> & Hid & Hnot & -> & ->).
        exists (item :: before), it, after. repeat split; try done.
        simpl. rewrite not_elem_of_cons. done.
      * destruct IH as [Hnot ->]. split; [|done].
        rewrite not_elem_of_cons. done.
Qed.


Lemma strings_of_jstrings (l : list jstring) : strings_of (map JStr l) = Some l.
Proof. induction l as [|s l IH]; [done|]. simpl. rewrite IH. done. Qed.

(** What a call does to the items: nothing, a push, or a completion. *)
Lemma runTodoManager_items store payload :
  let store' := snd (todoList.runTodoManager store payload) in
  store' = store
  \/ (exists title tags, store' = snd (todoList.addTodo store title tags))
  \/ (exists wanted, store' = snd (todoList.completeTodo store wanted)).
Proof.
  unfold todoList.runTodoManager.
  destruct (todoList.parsePayload payload) as [[[filter|title tags|wanted]|message]|message];
    cbn [snd]; auto.
  - right; left. exists title, tags. done.
  - right; right. exists wanted.
    destruct (todoList.completeTodo store wanted) as [[updated|] rest] eqn:E; cbn [snd]; [done|].
    pose proof (completeTodo_found store wanted) as Hf. rewrite E in Hf. destruct Hf as [_ ->]. done.
Qed.

Lemma completeTodo_ids store wanted :
  map todoList.id (snd (todoList.completeTodo store wanted)) = map todoList.id store.
Proof.
  pose proof (completeTodo_found store wanted) as Hf.
  destruct (todoList.completeTodo store wanted) as [[updated|] rest]; cbn [snd].
  - destruct Hf as (before & item & after & -> & _ & _ & _ & ->).
    rewrite !map_app. done.
  - destruct Hf as [_ ->]. done.
Qed.

Lemma numbered_ids store : numbered store <-> map todoList.id store = map nth_id (seq 1 (length store)).
Proof.
  split.
  - intros Hn. apply list_eq. intros i.
    rewrite !list_lookup_fmap.
    destruct (store !! i) as [item|] eqn:E; simpl.
    + rewrite (lookup_seq_lt _ _ i); [|by eapply lookup_lt_Some]. simpl. f_equal. apply (Hn _ _ E).
    + rewrite lookup_seq_ge; [done|]. by apply lookup_ge_None.
  - intros E i item Hi.
    assert (map todoList.id store !! i = Some (todoList.id item)) as Hm
      by (rewrite list_lookup_fmap, Hi; done).
    rewrite E, list_lookup_fmap in Hm.
    rewrite (lookup_seq_lt _ _ i) in Hm; [|by eapply lookup_lt_Some]. simpl in Hm. congruence.
Qed.

Lemma runTodoManager_numbered store payload :
  numbered store -> numbered (snd (todoList.runTodoManager store payload)).
Proof.
  intros Hn. destruct (runTodoManager_items store payload) as [->|[(title & tags & ->)|(wanted & ->)]].
  - done.
  - unfold todoList.addTodo. cbn [snd]. intros i item Hi.
    apply lookup_app_Some in Hi as [Hi|[Hge Hi]]; [by apply Hn|].
    apply list_lookup_singleton_Some in Hi as [Hi <-]. cbn [todoList.id].
    unfold nth_id. repeat f_equal. lia.
  - apply numbered_ids.
    assert (length (snd (todoList.completeTodo store wanted)) = length store) as ->
      by (rewrite <- (length_map todoList.id), completeTodo_ids, length_map; done).
    rewrite completeTodo_ids. apply numbered_ids, Hn.
Qed.

Lemma after_calls_numbered store payloads :
  numbered store -> numbered (todoList.after_calls store payloads).
Proof.
  revert store. induction payloads as [|payload payloads IH]; intros store Hn; [done|].
  apply IH, runTodoManager_numbered, Hn.
Qed.

Lemma todos_numbered : numbered todoList.todos.
Proof.
  intros [|[|[|i]]] item Hi; simpl in Hi; simplify_eq; reflexivity.
Qed.

(** X1.  Identifiers are those of the places, hence never shared. *)
Theorem todo_ids_distinct (payloads : list json) :
  let store := todoList.after_calls todoList.todos payloads in
  NoDup (map todoList.id store)
  /\ forall i item,
       store !! i = Some item ->
       todoList.id item = js "todo-" ++ padStart (decimal (N.of_nat (i + 1))) 3.
Proof.
  pose proof (after_calls_numbered _ payloads todos_numbered) as Hn.
  split.
  - apply numbered_ids in Hn. rewrite Hn.
    apply NoDup_fmap_2; [|apply NoDup_seq].
    intros n m. apply nth_id_inj.
  - intros i item Hi. rewrite (Hn _ _ Hi). unfold nth_id. repeat f_equal. lia.
Qed.


(** *** What the payload of each action is turned into *)

Lemma parsePayload_list payload :
  prop payload "action" = Some (JStr (js "list")) ->
  todoList.parsePayload payload =
    match prop payload "filter" with
    | None => Ok (inl (todoList.list_action (js "pending")))
    | Some (JStr filter) =>
        if nonempty filter
           && negb (bool_decide (filter = js "all"))
           && negb (bool_decide (filter = js "pending"))
           && negb (bool_decide (filter = js "completed"))
        then Ok (inr (js "`filter` must be one of all, pending, or completed."))
        else Ok (inl (todoList.list_action filter))
    | Some _ => Ok (inr (js "`filter` must be a string if provided."))
    end.
Proof.
  intros Ha. destruct payload; try discriminate Ha.
  unfold todoList.parsePayload. rewrite Ha. reflexivity.
Qed.

Lemma parsePayload_add payload title :
  prop payload "action" = Some (JStr (js "add")) ->
  prop payload "title" = Some (JStr title) ->
  nonempty (trim title) = true ->
  todoList.parsePayload payload =
    match prop payload "tags" with
    | None => Ok (inl (todoList.add_action (trim title) None))
    | Some (JArr items) =>
        match strings_of items with
        | Some tags => Ok (inl (todoList.add_action (trim title) (Some tags)))
        | None => Ok (inr (js "`tags` must be an array of strings when provided."))
        end
    | Some _ => Ok (inr (js "`tags` must be an array of strings when provided."))
    end.
Proof.
  intros Ha Ht Hn. destruct payload; try discriminate Ha.
  unfold todoList.parsePayload. rewrite Ha.
  change (bool_decide (js "add" = js "list")) with false.
  change (bool_decide (js "add" = js "add")) with true.
  cbv iota. rewrite Ht, Hn. reflexivity.
Qed.

Lemma parsePayload_complete payload wanted :
  prop payload "action" = Some (JStr (js "complete")) ->
  prop payload "id" = Some (JStr wanted) ->
  nonempty (trim wanted) = true ->
  todoList.parsePayload payload = Ok (inl (todoList.complete_action (trim wanted))).
Proof.
  intros Ha Ht Hn. destruct payload; try discriminate Ha.
  unfold todoList.parsePayload. rewrite Ha.
  change (bool_decide (js "complete" = js "list")) with false.
  change (bool_decide (js "complete" = js "add")) with false.
  change (bool_decide (js "complete" = js "complete")) with true.
  cbv iota. rewrite Ht, Hn. reflexivity.
Qed.

(** X2.  An item that was added is there for the calls that follow. *)
Theorem todo_add_then_list store adding title tags listing :
  prop adding "action" = Some (JStr (js "add")) ->
  prop adding "title" = Some (JStr title) ->
  nonempty (trim title) = true ->
  match prop adding "tags" with
  | None => tags = []
  | Some v => v = jstrings tags
  end ->
  prop listing "action" = Some (JStr (js "list")) ->
  let created :=
    {| todoList.id := js "todo-" ++ padStart (decimal (N.of_nat (length store + 1))) 3;
       todoList.title := trim title;
       todoList.status := todoList.pending;
       todoList.tags := tags |} in
  let '(outcome, store') := todoList.runTodoManager store adding in
  success_of outcome = Some (todoList.item_json created)
  /\ store' = store ++ [created]
  /\ (prop listing "filter" = Some (JStr (js "all")) ->
      success_of (fst (todoList.runTodoManager store' listing))
      = Some (JArr (map todoList.item_json (store ++ [created]))))
  /\ (prop listing "filter" = None \/ prop listing "filter" = Some (JStr (js "pending")) ->
      success_of (fst (todoList.runTodoManager store' listing))
      = Some (JArr (map todoList.item_json
                      (todoList.listTodos store (js "pending") ++ [created])))).
Proof.
  intros Ha Ht Hn Htags Hl created.
  assert (todoList.parsePayload adding
          = Ok (inl (todoList.add_action (trim title)
                       (match prop adding "tags" with None => None | Some _ => Some tags end)))) as Hp.
  { rewrite (parsePayload_add _ _ Ha Ht Hn).
    destruct (prop adding "tags") as [v|]; [|done].
    subst v. unfold jstrings. rewrite strings_of_jstrings. done. }
  unfold todoList.runTodoManager at 1. rewrite Hp. unfold todoList.addTodo.
  assert (default [] (match prop adding "tags" with None => None | Some _ => Some tags end) = tags) as ->.
  { destruct (prop adding "tags"); [done|]. simpl. done. }
  fold created. cbn [success_of].
  split; [done|]. split; [done|].
  split.
  - intros Hf. unfold todoList.runTodoManager.
    rewrite (parsePayload_list _ Hl), Hf. reflexivity.
  - intros Hf. unfold todoList.runTodoManager.
    rewrite (parsePayload_list _ Hl).
    assert (todoList.listTodos (store ++ [created]) (js "pending")
            = todoList.listTodos store (js "pending") ++ [created]) as Hpending.
    { unfold todoList.listTodos.
      change (bool_decide (js "pending" = js "all")) with false. cbv iota.
      rewrite List.filter_app. reflexivity. }
    destruct Hf as [-> | ->].
    + cbn [success_of fst]. rewrite Hpending. reflexivity.
    + change (nonempty (js "pending") && negb (bool_decide (js "pending" = js "all"))
              && negb (bool_decide (js "pending" = js "pending"))
              && negb (bool_decide (js "pending" = js "completed"))) with false.
      cbn [success_of fst]. rewrite Hpending. reflexivity.
Qed.


(** X3.  Completing marks the first item of that identifier and nothing
    else; with no such item the call fails and changes nothing. *)
Theorem todo_complete store payload wanted :
  prop payload "action" = Some (JStr (js "complete")) ->
  prop payload "id" = Some (JStr wanted) ->
  nonempty (trim wanted) = true ->
  let '(outcome, store') := todoList.runTodoManager store payload in
  match outcome with
  | Returned (ToolRunSuccess result _ _) =>
      exists before item after,
        store = before ++ item :: after
        /\ todoList.id item = trim wanted
        /\ (trim wanted ∉ map todoList.id before)
        /\ store' = before ++ marked item :: after
        /\ result = todoList.item_json (marked item)
  | Returned (ToolRunError message _) =>
      (trim wanted ∉ map todoList.id store)
      /\ store' = store
      /\ message = js "Unable to find todo with id " ++ trim wanted ++ js "."
  | Threw _ => False
  end
  /\ snd (todoList.runTodoManager store' payload) = store'.
Proof.
  intros Ha Hi Hn.
  pose proof (parsePayload_complete _ _ Ha Hi Hn) as Hp.
  unfold todoList.runTodoManager. rewrite Hp.
  pose proof (completeTodo_found store (trim wanted)) as Hf.
  destruct (todoList.completeTodo store (trim wanted)) as [[updated|] rest].
  - destruct Hf as (before & item & after & -> & Hid & Hnot & -> & ->).
    split; [exists before, item, after; done|].
    pose proof (completeTodo_found (before ++ marked item :: after) (trim wanted)) as Hg.
    destruct (todoList.completeTodo (before ++ marked item :: after) (trim wanted))
      as [[updated|] rest]; cbn [snd].
    + destruct Hg as (before' & item' & after' & Hsplit & Hid' & Hnot' & -> & ->).
      assert (before' = before /\ item' = marked item /\ after' = after) as (-> & -> & ->).
      { clear Hp. revert before' Hsplit Hnot'.
        induction before as [|b before IH]; intros [|b' before'] Hsplit Hnot'.
        - simpl in Hsplit. by simplify_eq.
        - simpl in Hsplit. simplify_eq. exfalso. apply Hnot'. simpl. rewrite Hid. left.
        - simpl in Hsplit. simplify_eq. exfalso. apply Hnot. simpl.
          rewrite Hid'. left.
        - simpl in Hsplit. simplify_eq.
          simpl in Hnot, Hnot'. rewrite not_elem_of_cons in Hnot, Hnot'.
          destruct (IH (proj2 Hnot) before' H0 (proj2 Hnot')) as (-> & ? & ?). done. }
      done.
    + destruct Hg as [_ ->]. done.
  - destruct Hf as [Hnot ->]. split; [done|].
    pose proof (completeTodo_found store (trim wanted)) as Hg.
    destruct (todoList.completeTodo store (trim wanted)) as [[updated|] rest]; cbn [snd]; [|done].
    destruct Hg as (before & item & after & -> & Hid & _). exfalso. apply Hnot.
    rewrite map_app. apply elem_of_app. right. simpl. rewrite Hid. left.
Qed.

Lemma completeTodo_persist store wanted i item :
  store !! i = Some item ->
  snd (todoList.completeTodo store wanted) !! i = Some item
  \/ snd (todoList.completeTodo store wanted) !! i = Some (marked item).
Proof.
  revert i. induction store as [|x rest IH]; intros i Hi; [done|].
  simpl. case_bool_decide.
  - destruct i; simpl in *; simplify_eq; auto.
  - destruct (todoList.completeTodo rest wanted) as [found rest'] eqn:E.
    destruct i; simpl in *; simplify_eq; auto.
Qed.

Lemma runTodoManager_persist store payload i item :
  store !! i = Some item ->
  exists item',
    snd (todoList.runTodoManager store payload) !! i = Some item'
    /\ todoList.id item' = todoList.id item
    /\ todoList.title item' = todoList.title item
    /\ todoList.tags item' = todoList.tags item
    /\ (todoList.status item = todoList.completed ->
        todoList.status item' = todoList.completed).
Proof.
  intros Hi.
  destruct (runTodoManager_items store payload) as [->|[(title & tags & ->)|(wanted & ->)]].
  - exists item. by repeat split.
  - exists item. split; [|by repeat split].
    unfold todoList.addTodo. cbn [snd]. apply lookup_app_l_Some, Hi.
  - destruct (completeTodo_persist store wanted i item Hi) as [->| ->].
    + exists item. by repeat split.
    + exists (marked item). by repeat split.
Qed.

(** X4.  No call removes, moves, renames or reopens an item. *)
Theorem todo_items_persist store payloads i item :
  store !! i = Some item ->
  exists item',
    todoList.after_calls store payloads !! i = Some item'
    /\ todoList.id item' = todoList.id item
    /\ todoList.title item' = todoList.title item
    /\ todoList.tags item' = todoList.tags item
    /\ (todoList.status item = todoList.completed ->
        todoList.status item' = todoList.completed).
Proof.
  revert store item. induction payloads as [|payload payloads IH]; intros store item Hi.
  - exists item. by repeat split.
  - destruct (runTodoManager_persist store payload i item Hi)
      as (item1 & Hitem1 & ? & ? & ? & ?).
    destruct (IH _ _ Hitem1) as (item2 & Hitem2 & ? & ? & ? & ?).
    exists item2. split; [exact Hitem2|].
    repeat split; try congruence. auto.
Qed.

Lemma parsePayload_throws payload message :
  todoList.parsePayload payload = Throw message <-> 
  payload = JNull /\ message = null_property_error "action".
Proof.
  split.
  - unfold todoList.parsePayload. intros E.
    destruct payload; [by simplify_eq|..]; exfalso;
      repeat case_match; discriminate.
  - intros [-> ->]. reflexivity.
Qed.

(** X5.  A call that fails, and every listing, leaves the items as they
    were; only a [null] payload makes a call throw. *)
Theorem todo_failure_keeps_items store payload :
  let '(outcome, store') := todoList.runTodoManager store payload in
  (success_of outcome = None -> store' = store)
  /\ (prop payload "action" = Some (JStr (js "list")) -> store' = store)
  /\ (forall message,
        outcome = Threw message
        <-> payload = JNull /\ message = null_property_error "action").
Proof.
  unfold todoList.runTodoManager.
  pose proof (parsePayload_throws payload) as Ht.
  pose proof (parsePayload_list payload) as Hl.
  pose proof (completeTodo_found store) as Hc.
  assert (forall message, payload = JNull /\ message = null_property_error "action" ->
                          todoList.parsePayload payload <> Throw message -> False) as Hnull.
  { intros message Hm Hne. apply Hne, Ht, Hm. }
  destruct (todoList.parsePayload payload) as [[[filter|title tags|wanted]|message]|message].
  - repeat split; try done. intros Hm. destruct (Hnull _ Hm). discriminate.
  - unfold todoList.addTodo. repeat split; try done.
    + intros Ha. specialize (Hl Ha). repeat case_match; discriminate.
    + intros Hm. destruct (Hnull _ Hm). discriminate.
  - specialize (Hc wanted).
    destruct (todoList.completeTodo store wanted) as [[updated|] rest].
    + repeat split; try done.
      * intros Ha. specialize (Hl Ha). repeat case_match; discriminate.
      * intros Hm. destruct (Hnull _ Hm). discriminate.
    + repeat split; try done.
      intros Hm. destruct (Hnull _ Hm). discriminate.
  - repeat split; try done.
    intros Hm. destruct (Hnull _ Hm). discriminate.
  - split; [done|]. split; [done|]. intros m. split.
    + intros E. simplify_eq. apply (proj1 (Ht _) eq_refl).
    + intros Hm. apply Ht in Hm. congruence.
Qed.

Lemma listTodos_status store :
  todoList.listTodos store (js "pending") = List.filter is_pending store
  /\ todoList.listTodos store (js "completed")
     = List.filter (fun item => negb (is_pending item)) store
  /\ todoList.listTodos store [] = [].
Proof.
  unfold todoList.listTodos.
  change (bool_decide (js "pending" = js "all")) with false.
  change (bool_decide (js "completed" = js "all")) with false.
  change (bool_decide ([] = js "all")) with false. cbv iota.
  repeat split; induction store as [|[i t [] g] store IH]; simpl; try done;
    try (rewrite <- IH; reflexivity).
Qed.

(** X6.  What a listing returns, by its filter. *)
Theorem todo_list_filter store payload :
  prop payload "action" = Some (JStr (js "list")) ->
  let outcome := fst (todoList.runTodoManager store payload) in
  match prop payload "filter" with
  | None =>
      success_of outcome
      = Some (JArr (map todoList.item_json (List.filter is_pending store)))
  | Some (JStr filter) =>
      if bool_decide (filter = js "all") then
        success_of outcome = Some (JArr (map todoList.item_json store))
      else if bool_decide (filter = js "pending") then
        success_of outcome
        = Some (JArr (map todoList.item_json (List.filter is_pending store)))
      else if bool_decide (filter = js "completed") then
        success_of outcome
        = Some (JArr (map todoList.item_json
                        (List.filter (fun item => negb (is_pending item)) store)))
      else if bool_decide (filter = []) then
        success_of outcome = Some (JArr [])
      else
        failure_of outcome = Some (js "`filter` must be one of all, pending, or completed.")
  | Some _ =>
      failure_of outcome = Some (js "`filter` must be a string if provided.")
  end.
Proof.
  intros Ha outcome. subst outcome.
  destruct (listTodos_status store) as (Hp & Hc & He).
  unfold todoList.runTodoManager. rewrite (parsePayload_list _ Ha).
  destruct (prop payload "filter") as [[| | |filter| |]|]; try reflexivity.
  - destruct (decide (filter = js "all")) as [->|Hall]; [reflexivity|].
    rewrite !(bool_decide_eq_false_2 _ Hall).
    destruct (decide (filter = js "pending")) as [->|Hpending].
    { rewrite <- Hp. reflexivity. }
    rewrite !(bool_decide_eq_false_2 _ Hpending).
    destruct (decide (filter = js "completed")) as [->|Hcompleted].
    { rewrite <- Hc. reflexivity. }
    rewrite !(bool_decide_eq_false_2 _ Hcompleted).
    destruct filter as [|c filter]; [|reflexivity].
    cbn [nonempty andb success_of fst]. rewrite He. reflexivity.
  - cbn [success_of fst]. rewrite Hp. reflexivity.
Qed.

End TodoProperties.

(** *** Adding, then completing *)


Section TodoComposition.
Context {Pf : Platform}.

Lemma numbered_fresh store :
  numbered store -> nth_id (S (length store)) ∉ map todoList.id store.
Proof.
  intros Hn Hin. apply list_elem_of_fmap in Hin as (item & Hid & Hin).
  apply list_elem_of_lookup_1 in Hin as [i Hi].
  rewrite (Hn _ _ Hi) in Hid. apply nth_id_inj in Hid.
  apply lookup_lt_Some in Hi. lia.
Qed.

(** X7.  The identifier an addition returns completes the item it added, and
    no other. *)
Theorem todo_add_then_complete payloads title tags completing wanted :
  prop completing "action" = Some (JStr (js "complete")) ->
  prop completing "id" = Some (JStr wanted) ->
  trim wanted
  = todoList.id (fst (todoList.addTodo (todoList.after_calls todoList.todos payloads)
                        title tags)) ->
  let store := todoList.after_calls todoList.todos payloads in
  let created := fst (todoList.addTodo store title tags) in
  let '(outcome, store') :=
    todoList.runTodoManager (snd (todoList.addTodo store title tags)) completing in
  success_of outcome = Some (todoList.item_json (marked created))
  /\ store' = store ++ [marked created].
Proof.
  intros Ha Hi Hw. cbv zeta. unfold todoList.addTodo in *. cbn [fst snd] in *.
  set (store := todoList.after_calls todoList.todos payloads) in *.
  set (created := {| todoList.id := _ |}) in *.
  assert (numbered store) as Hn by apply after_calls_numbered, todos_numbered.
  assert (todoList.id created = nth_id (S (length store))) as Hid
    by (unfold nth_id; subst created; cbn [todoList.id];
        replace (length store + 1)%nat with (S (length store)) by lia; done).
  assert (nonempty (trim wanted) = true) as Hne by (rewrite Hw, Hid; done).
  unfold todoList.runTodoManager.
  rewrite (parsePayload_complete _ _ Ha Hi Hne), Hw, Hid.
  pose proof (completeTodo_found (store ++ [created]) (nth_id (S (length store)))) as Hf.
  destruct (todoList.completeTodo (store ++ [created]) (nth_id (S (length store))))
    as [[updated|] rest].
  - destruct Hf as (before & item & after & Hsplit & Hitem & Hnot & -> & ->).
    assert (length before = length store) as Hlen.
    { assert ((store ++ [created]) !! length before = Some item) as Hl
        by (rewrite Hsplit; apply list_lookup_middle; done).
      destruct (decide (length before < length store)%nat) as [Hlt|Hge].
      - rewrite lookup_app_l in Hl by done.
        rewrite (Hn _ _ Hl) in Hitem. apply nth_id_inj in Hitem. lia.
      - apply lookup_lt_Some in Hl. rewrite length_app in Hl. cbn in Hl. lia. }
    apply app_inj_1 in Hsplit as [-> Hrest]; [|done]. simplify_eq. done.
  - destruct Hf as [Hnot _]. exfalso. apply Hnot.
    rewrite map_app. apply elem_of_app. right. cbn [map]. rewrite Hid. left.
Qed.

End TodoComposition.

(** ** The knowledge base *)


Section LookupProperties.
Context {Pf : Platform} {L : Library}.

Lemma strings_of_Some (items : list json) tags :
  strings_of items = Some tags <-> items = map JStr tags.
Proof.
  split.
  - revert tags. induction items as [|item items IH]; intros tags E.
    + simpl in E. by simplify_eq.
    + destruct item; try discriminate E. simpl in E.
      destruct (strings_of items) as [l|]; [|discriminate E].
      simpl in E. simplify_eq. simpl. f_equal. by apply IH.
  - intros ->. apply strings_of_jstrings.
Qed.

Lemma hasRequiredTag_tagged entry wanted :
  knowledgeBase.hasRequiredTag entry wanted = true <-> tagged entry wanted.
Proof.
  unfold knowledgeBase.hasRequiredTag, tagged. rewrite existsb_exists. split.
  - intros (tag & Hin & Hd). apply bool_decide_eq_true in Hd.
    apply list_elem_of_fmap in Hd as (t & Ht & Hw).
    exists tag, t. split; [by apply list_elem_of_In|]. done.
  - intros (tag & t & Hin & Hw & Hl). exists tag. split; [by apply list_elem_of_In|].
    apply bool_decide_eq_true. apply list_elem_of_fmap. exists t. done.
Qed.

Lemma matches_relevant entry input :
  knowledgeBase.matches entry input = true
  <-> relevant entry (knowledgeBase.query input) (knowledgeBase.requested input).
Proof.
  unfold knowledgeBase.matches, relevant, mentions, knowledgeBase.normalizeQuery.
  set (q := toLowerCase (trim (knowledgeBase.query input))).
  assert (includes (toLowerCase (knowledgeBase.title entry)) q
          || includes (toLowerCase (knowledgeBase.summary entry)) q
          || existsb (fun tag => includes (toLowerCase tag) q) (knowledgeBase.tags entry) = true
          <-> includes (toLowerCase (knowledgeBase.title entry)) q = true
              \/ includes (toLowerCase (knowledgeBase.summary entry)) q = true
              \/ exists tag, tag ∈ knowledgeBase.tags entry /\ includes (toLowerCase tag) q = true) as Hm.
  { rewrite !orb_true_iff, existsb_exists.
    setoid_rewrite list_elem_of_In. tauto. }
  destruct (knowledgeBase.requested input) as [[|t more]|].
  - rewrite Hm. tauto.
  - destruct (knowledgeBase.hasRequiredTag entry (t :: more)) eqn:E; cbn [negb].
    + rewrite Hm. apply hasRequiredTag_tagged in E. tauto.
    + split; [discriminate|]. intros [_ Ht]. apply hasRequiredTag_tagged in Ht. congruence.
  - rewrite Hm. tauto.
Qed.

Lemma topK_of_range topK limit :
  knowledgeBase.topK_of topK = Some limit -> (1 <= limit <= 5)%Z.
Proof.
  unfold knowledgeBase.topK_of. intros E. repeat case_match; simplify_eq; lia.
Qed.

(** A lookup that success_of, taken apart. *)
Lemma runKnowledgeBaseLookup_success payload result logs trace :
  knowledgeBase.runKnowledgeBaseLookup payload = Returned (ToolRunSuccess result logs trace) ->
  exists query tags limit,
    prop payload "query" = Some (JStr query)
    /\ nonempty (trim query) = true
    /\ knowledgeBase.tags_of (prop payload "tags") = inl tags
    /\ knowledgeBase.topK_of (prop payload "topK") = Some limit
    /\ result = JArr (map knowledgeBase.entry_json
                        (knowledgeBase.matchesForQuery
                           {| knowledgeBase.query := query;
                              knowledgeBase.requested := tags;
                              knowledgeBase.topK := limit |}))
    /\ logs = [] /\ length trace = 3%nat.
Proof.
  unfold knowledgeBase.runKnowledgeBaseLookup, knowledgeBase.failure.
  intros E.
  destruct payload; try discriminate E.
  all: destruct (prop _ "query") as [[| | |query| |]|]; try discriminate E.
  all: destruct (nonempty (trim query)) eqn:Hq; try discriminate E.
  all: cbn [negb] in E.
  all: destruct (knowledgeBase.tags_of _) as [tags|m]; try discriminate E.
  all: destruct (knowledgeBase.topK_of _) as [limit|]; try discriminate E.
  all: simplify_eq; exists query, tags, limit; repeat split; done.
Qed.

(** X8.  When a lookup succeeds, throws or fails. *)
Theorem kb_lookup_validation payload :
  (forall message,
     knowledgeBase.runKnowledgeBaseLookup payload = Threw message
     <-> payload = JNull /\ message = null_property_error "query")
  /\ ((exists result, success_of (knowledgeBase.runKnowledgeBaseLookup payload) = Some result)
      <-> (exists query, prop payload "query" = Some (JStr query)
                         /\ nonempty (trim query) = true)
          /\ (forall v, prop payload "tags" = Some v -> exists tags, v = jstrings tags)
          /\ (forall v, prop payload "topK" = Some v ->
                        exists n, v = JNum n /\ Number_isFinite n = true)).
Proof.
  split.
  - intros message. split.
    + unfold knowledgeBase.runKnowledgeBaseLookup, knowledgeBase.failure. intros E.
      destruct payload; [by simplify_eq|..]; exfalso; repeat case_match; discriminate.
    + intros [-> ->]. reflexivity.
  - split.
    + intros [result Hs].
      destruct (knowledgeBase.runKnowledgeBaseLookup payload) as [[r logs trace|]|] eqn:E;
        try discriminate Hs.
      apply runKnowledgeBaseLookup_success in E
        as (query & tags & limit & Hq & Hn & Ht & Hk & _).
      split; [by exists query|]. split.
      * intros v Hv. rewrite Hv in Ht. unfold knowledgeBase.tags_of in Ht.
        destruct v; try discriminate Ht.
        destruct (strings_of items) as [l|] eqn:El; [|discriminate Ht].
        exists l. apply strings_of_Some in El. by subst.
      * intros v Hv. rewrite Hv in Hk. unfold knowledgeBase.topK_of in Hk.
        destruct v; try discriminate Hk.
        destruct (Number_isFinite n) eqn:Ef; [|discriminate Hk]. by exists n.
    + intros ((query & Hq & Hn) & Ht & Hk).
      unfold knowledgeBase.runKnowledgeBaseLookup.
      destruct payload; try discriminate Hq.
      rewrite Hq, Hn; cbn [negb].
      assert (exists tags, knowledgeBase.tags_of (prop (JObj fields) "tags") = inl tags)
        as [tags ->].
      { destruct (prop _ "tags") as [v|] eqn:Ev; [|by eexists].
        destruct (Ht v eq_refl) as [l ->]. unfold knowledgeBase.tags_of, jstrings.
        rewrite strings_of_jstrings. by eexists. }
      assert (exists limit, knowledgeBase.topK_of (prop (JObj fields) "topK") = Some limit)
        as [limit ->].
      { destruct (prop _ "topK") as [v|] eqn:Ev; [|by eexists].
        destruct (Hk v eq_refl) as (n & -> & Hf). unfold knowledgeBase.topK_of.
        rewrite Hf. by eexists. }
      eexists; reflexivity.
Qed.

Lemma sublist_List_filter {A} (p : A -> bool) (l : list A) : List.filter p l `sublist_of` l.
Proof.
  induction l as [|x l IH]; simpl; [constructor|].
  destruct (p x); by constructor.
Qed.

(** X9.  A lookup returns entries of the knowledge base in its order, no more
    than the limit, and leaves none out before the limit is reached. *)
Theorem kb_lookup_results payload result logs trace :
  knowledgeBase.runKnowledgeBaseLookup payload = Returned (ToolRunSuccess result logs trace) ->
  exists query tags limit entries,
    prop payload "query" = Some (JStr query)
    /\ knowledgeBase.tags_of (prop payload "tags") = inl tags
    /\ knowledgeBase.topK_of (prop payload "topK") = Some limit
    /\ (1 <= limit <= 5)%Z
    /\ (prop payload "topK" = None -> limit = 3%Z)
    /\ result = JArr (map knowledgeBase.entry_json entries)
    /\ entries `sublist_of` knowledgeBase.KNOWLEDGE_BASE
    /\ (length entries <= Z.to_nat limit)%nat
    /\ (forall entry, entry ∈ entries -> relevant entry query tags)
    /\ ((length entries < Z.to_nat limit)%nat ->
        forall entry, entry ∈ knowledgeBase.KNOWLEDGE_BASE ->
                      relevant entry query tags -> entry ∈ entries).
Proof.
  intros E.
  apply runKnowledgeBaseLookup_success in E
    as (query & tags & limit & Hq & Hn & Ht & Hk & -> & _ & _).
  set (input := {| knowledgeBase.query := query; knowledgeBase.requested := tags;
                   knowledgeBase.topK := limit |}).
  exists query, tags, limit, (knowledgeBase.matchesForQuery input).
  unfold knowledgeBase.matchesForQuery. cbn [knowledgeBase.topK input].
  set (found := List.filter (fun entry => knowledgeBase.matches entry input)
                  knowledgeBase.KNOWLEDGE_BASE).
  repeat split; try done.
  - apply (topK_of_range _ _ Hk).
  - apply (topK_of_range _ _ Hk).
  - intros Hnone. rewrite Hnone in Hk. simpl in Hk. congruence.
  - etrans; [apply sublist_take|]. apply sublist_List_filter.
  - rewrite length_take. lia.
  - apply elem_of_take in H as (i & Hi & _).
    apply list_elem_of_lookup_2 in Hi. apply list_elem_of_In in Hi.
    apply filter_In in Hi as [_ Hm]. apply matches_relevant in Hm. apply Hm.
  - apply elem_of_take in H as (i & Hi & _).
    apply list_elem_of_lookup_2 in Hi. apply list_elem_of_In in Hi.
    apply filter_In in Hi as [_ Hm]. apply matches_relevant in Hm. apply Hm.
  - intros Hlt entry Hin Hr.
    rewrite length_take in Hlt.
    rewrite take_ge by lia.
    apply list_elem_of_In, filter_In. split; [by apply list_elem_of_In|].
    by apply matches_relevant.
Qed.

End LookupProperties.

(** ** The execute route *)


Section RouteProperties.
Context {Pf : Platform} {H : Host}.


Lemma getTool_None toolName :
  getTool toolName = None <-> forall tool, tool ∈ tools -> tool_name tool <> toolName.
Proof.
  unfold getTool. split.
  - intros E tool Hin. apply list_elem_of_In in Hin.
    pose proof (find_none _ _ E tool Hin) as Hb. by apply bool_decide_eq_false in Hb.
  - intros Hn. destruct (find _ tools) as [tool|] eqn:E; [|done].
    apply find_some in E as [Hin Hb]. apply bool_decide_eq_true in Hb.
    apply list_elem_of_In in Hin. destruct (Hn tool Hin Hb).
Qed.

Lemma getTool_of_None toolName :
  execute.getTool_of toolName = None
  <-> forall tool, tool ∈ tools -> toolName <> Some (JStr (tool_name tool)).
Proof.
  unfold execute.getTool_of. split.
  - intros E tool Hin ->. destruct (getTool (tool_name tool)) eqn:Eg; [discriminate E|].
    by apply (proj1 (getTool_None _) Eg tool Hin).
  - intros Hn. destruct toolName as [[| | |name| |]|]; try done.
    assert (getTool name = None) as ->; [|done].
    apply getTool_None. intros tool Hin <-. by apply (Hn tool Hin).
Qed.

(** [POST] on a body that is not [null]. *)
Lemma POST_body w body :
  body <> JNull ->
  execute.POST w (Ok body) =
    if negb (truthy (prop body "toolName")) then
      (Ok (execute.Refused 400 (js "Missing tool name")
             [trace_step (js "Validate request")
                (js "The MCP host requires the name of the tool to invoke.")]),
       w)
    else
      match execute.getTool_of (prop body "toolName") with
      | None =>
          (Ok (execute.Refused 404
                 (js "Unknown tool: " ++ String_or_empty (prop body "toolName"))
                 [trace_step (js "Lookup tool")
                    (js "The orchestrator asked for a tool that is not registered in this host.")]),
           w)
      | Some (name, tool) =>
          if is_string (Some (execute.or_else (prop body "mode") (JStr (js "execute"))))
               "dry-run"
          then (Ok (execute.DryRun
                      (execute.or_else (prop body "mode") (JStr (js "execute"))) tool), w)
          else
            match runTool w name (execute.or_else (prop body "input") (JObj [])) with
            | (Threw message, w') => (Throw message, w')
            | (Returned response, w') =>
                (Ok (execute.Executed
                       (execute.or_else (prop body "mode") (JStr (js "execute")))
                       name response), w')
            end
      end.
Proof. intros Hb. destruct body; done. Qed.

Lemma POST_null w : execute.POST w (Ok JNull) = (Throw (null_property_error "toolName"), w).
Proof. done. Qed.

(** X10.  The status of a reply. *)
Theorem execute_status w body reply w' :
  execute.POST w (Ok body) = (Ok reply, w') ->
  (execute.status_of reply = 400 <-> truthy (prop body "toolName") = false)
  /\ (execute.status_of reply = 404
      <-> truthy (prop body "toolName") = true
          /\ forall tool, tool ∈ tools ->
                          prop body "toolName" <> Some (JStr (tool_name tool)))
  /\ (execute.status_of reply = 200 \/ execute.status_of reply = 400
      \/ execute.status_of reply = 404)
  /\ (execute.status_of reply <> 200 -> w' = w).
Proof.
  intros E.
  assert (body <> JNull) as Hb by (intros ->; discriminate E).
  rewrite (POST_body _ _ Hb) in E.
  pose proof (getTool_of_None (prop body "toolName")) as Hnone.
  destruct (truthy (prop body "toolName")) eqn:Ht; cbn [negb] in E.
  2: { simplify_eq. cbn [execute.status_of]. repeat split; try done; auto.
       intros [? _]; done. }
  destruct (execute.getTool_of (prop body "toolName")) as [[name tool]|] eqn:Eg.
  2: { simplify_eq. cbn [execute.status_of]. repeat split; try done; auto.
       all: by apply Hnone. }
  assert (~ (forall tool, tool ∈ tools -> prop body "toolName" <> Some (JStr (tool_name tool))))
    as Hreg by (intros Hall; by apply Hnone in Hall).
  destruct (is_string _ "dry-run").
  { simplify_eq. cbn [execute.status_of]. repeat split; try done; auto.
    intros [_ ?]; done. }
  destruct (runTool _ _ _) as [[response|message] w1]; simplify_eq.
  cbn [execute.status_of]. repeat split; try done; auto.
  intros [_ ?]; done.
Qed.


Lemma or_else_mode mode :
  is_string (Some (execute.or_else mode (JStr (js "execute")))) "dry-run"
  = is_string mode "dry-run".
Proof. destruct mode as [[]|]; reflexivity. Qed.


(** X12.  [run_javascript] asked for without a string of code is answered with
    a failure under status 200; [null] for the input does not make the
    route throw. *)
Theorem execute_without_code w body :
  prop body "toolName" = Some (JStr (js "run_javascript")) ->
  is_string (prop body "mode") "dry-run" = false ->
  (forall code, opt_prop (prop body "input") "code" <> Some (JStr code)) ->
  exists reply,
    execute.POST w (Ok body) = (Ok reply, w)
    /\ execute.status_of reply = 200
    /\ reply = execute.Executed
                 (execute.or_else (prop body "mode") (JStr (js "execute")))
                 (js "run_javascript")
                 (ToolRunError (js "Expected `code` to be a string.")
                    [ {| title := js "Validate input";
                         detail := js "Guard clause triggered because code was missing or not a string." |} ]).
Proof.
  intros Hn Hm Hc. eexists. split; [|split; [|reflexivity]]; [|reflexivity].
  assert (body <> JNull) as Hb by (intros ->; discriminate Hn).
  rewrite (POST_body _ _ Hb), or_else_mode, Hm, Hn.
  change (negb (truthy (Some (JStr (js "run_javascript"))))) with false. cbv iota.
  unfold execute.getTool_of.
  assert (exists tool, getTool (js "run_javascript") = Some tool) as [tool ->]
    by (eexists; reflexivity).
  cbn [fmap option_fmap option_map].
  unfold runTool.
  change (bool_decide (js "run_javascript" = js "run_javascript")) with true. cbv iota.
  destruct (prop body "input") as [input|] eqn:Ei; cbn [execute.or_else opt_prop] in *.
  - destruct input; try reflexivity.
    destruct (prop (JObj fields) "code") as [[| | |code| |]|] eqn:Ecode; try reflexivity.
    destruct (Hc code eq_refl).
  - reflexivity.
Qed.

End RouteProperties.

(** ** Turns *)


Section TurnProperties.
Context {Pf : Platform} {H : Host}.

(** ** Frames that are dropped *)

Lemma parseEvent_None raw :
  parseEvent raw = None
  <-> (fst (parseEvent_lines raw) = [] /\ snd (parseEvent_lines raw) = [])
      \/ (nonempty (dataPayload raw) = true
          /\ dataPayload raw <> js "[DONE]"
          /\ JSON_parse (dataPayload raw) = None).
Proof.
  unfold parseEvent, dataPayload.
  destruct (parseEvent_lines raw) as [ev dl]. cbn [fst snd].
  destruct ev as [|c ev]; cbn [nonempty negb andb].
  - destruct dl as [|d dl].
    + rewrite bool_decide_eq_true_2 by done. split; [auto|done].
    + rewrite bool_decide_eq_false_2 by done.
      destruct (nonempty (join_empty (d :: dl))) eqn:Hn; cbn [negb].
      * case_bool_decide as Hd.
        { split; [done|]. intros [[_ ?]|(_ & ? & _)]; done. }
        destruct (JSON_parse _) eqn:Hp.
        { split; [done|]. intros [[_ ?]|(_ & _ & ?)]; done. }
        split; [auto|done].
      * split; [done|]. intros [[_ ?]|(? & _)]; done.
  - destruct (nonempty (join_empty dl)) eqn:Hn; cbn [negb].
    + case_bool_decide as Hd.
      { split; [done|]. intros [[? _]|(_ & ? & _)]; done. }
      destruct (JSON_parse _) eqn:Hp.
      { split; [done|]. intros [[? _]|(_ & _ & ?)]; done. }
      split; [auto|done].
    + split; [done|]. intros [[? _]|(? & _)]; done.
Qed.

(** X13.  A frame without an event name and payload, or whose payload is not
    JSON, is dropped: the turn goes on as if the frame were not there. *)
Theorem malformed_frame_skipped frame :
  (parseEvent frame = None
   <-> (fst (parseEvent_lines frame) = [] /\ snd (parseEvent_lines frame) = [])
       \/ (nonempty (dataPayload frame) = true
           /\ dataPayload frame <> js "[DONE]"
           /\ JSON_parse (dataPayload frame) = None))
  /\ (one_frame frame -> parseEvent frame = None ->
      forall rest t,
        processBuffer (frame ++ blank_line ++ rest) t = processBuffer rest t).
Proof.
  split; [apply parseEvent_None|].
  intros Hf Hp rest t.
  pose proof (processBuffer_frames [frame] rest (Forall_cons_2 _ _ _ Hf (Forall_nil_2 _)) t) as Hd.
  cbn [omap list_omap] in Hd. rewrite Hp in Hd. cbn [dispatch] in Hd.
  unfold frames_text in Hd. cbn [map concat] in Hd.
  rewrite app_nil_r, <- app_assoc in Hd. exact Hd.
Qed.

(** ** What follows the end of a turn *)

(** X14.  Once [processBuffer] has returned [true] or thrown, nothing of what
    follows in the body is read: no further frame, no failing read. *)
Theorem body_after_stop_ignored w chunks more failure :
  (processBuffer (snd (decode new_TextDecoder (concat chunks))) (new_Turn w)).2
  <> ReturnFalse ->
  readBody {| reads := chunks ++ more; read_error := failure |} w
  = readBody {| reads := chunks; read_error := None |} w.
Proof.
  intros Hs. rewrite (readBody_chunks w (chunks ++ more)), (readBody_chunks w chunks).
  rewrite concat_app. unfold readBody. cbn [reads read_error readLoop].
  rewrite decode_app.
  destruct (decode new_TextDecoder (concat chunks)) as [d1 s1]. cbn [snd] in Hs.
  destruct (decode d1 (concat more)) as [d2 s2].
  cbn [app]. rewrite (processBuffer_app s1 (new_Turn w) s2).
  destruct (processBuffer s1 (new_Turn w)) as [[b1 t1] [| |m]]; cbn [snd] in Hs; try done.
Qed.

(** ** The name of an event *)

Lemma is_event_line_nonblank line :
  is_event_line line = true -> nonempty (trim line) = true.
Proof.
  unfold is_event_line. destruct line as [|c line]; [done|]. intros He.
  assert (c = 101) as ->.
  { change (js "event:") with (101 :: js "vent:") in He. cbn [startsWith] in He.
    apply andb_true_iff in He as [Hc _]. by apply N.eqb_eq in Hc. }
  by apply trim_nonempty.
Qed.

Lemma parseEvent_lines_event lines acc :
  fst (foldl parseEvent_line acc lines)
  = match last (List.filter is_event_line lines) with
    | Some line => trim (slice_from line (length (js "event:")))
    | None => fst acc
    end.
Proof.
  revert acc. induction lines as [|line lines IH]; intros acc; [done|].
  cbn [foldl List.filter]. rewrite IH.
  destruct (is_event_line line) eqn:He.
  - assert (fst (parseEvent_line acc line) = trim (slice_from line (length (js "event:"))))
      as Hl.
    { destruct acc as [ev dl]. unfold parseEvent_line.
      rewrite (is_event_line_nonblank _ He). unfold is_event_line in He. by rewrite He. }
    destruct (List.filter is_event_line lines) as [|l ls]; [done|].
    rewrite last_cons_cons. destruct (last (l :: ls)) eqn:El; [done|].
    by apply last_None in El.
  - destruct (last (List.filter is_event_line lines)); [done|].
    destruct acc as [ev dl]. unfold parseEvent_line. unfold is_event_line in He.
    rewrite He. by repeat case_match.
Qed.

(** X15.  The name of a frame's event is what follows [event:] on the last
    line that starts with it, trimmed; without such a line it is empty. *)
Theorem event_name_last_wins raw :
  let name :=
    match last (List.filter is_event_line (split raw LF)) with
    | Some line => trim (slice_from line (length (js "event:")))
    | None => []
    end in
  fst (parseEvent_lines raw) = name
  /\ forall e, parseEvent raw = Some e -> event e = name.
Proof.
  intros name. assert (fst (parseEvent_lines raw) = name) as Hn
    by apply parseEvent_lines_event.
  split; [done|]. intros e. unfold parseEvent.
  destruct (parseEvent_lines raw) as [ev dl]. cbn [fst] in Hn. subst ev.
  intros E. repeat case_match; by simplify_eq.
Qed.

(** ** Events without a case *)

Lemma handleEvent_no_case a w e :
  has_case e = false -> handleEvent a w e = Continue a [] w.
Proof.
  unfold has_case, handleEvent. intros Hc.
  repeat (apply orb_false_iff in Hc as [Hc ?]).
  rewrite Hc. by repeat case_bool_decide.
Qed.

Lemma dispatch_same t t' es :
  same_turn t t' ->
  same_turn (dispatch t es).1 (dispatch t' es).1
  /\ (dispatch t es).2 = (dispatch t' es).2.
Proof.
  revert t t'. induction es as [|e es IH]; intros t t' Hs; [done|].
  destruct Hs as (Ha & He & Hw). cbn [dispatch]. cbn [record_event assembler world].
  rewrite <- Ha, <- Hw.
  destruct (handleEvent (assembler t) (world t) e) as [a out w| |m]; try done.
  apply IH. repeat split; cbn; congruence.
Qed.

(** X16.  Events of other names (pings, message_start, message_delta) change
    nothing: the turn is the one of the events that have a case. *)
Theorem other_events_ignored t es :
  let r := dispatch t es in
  let r' := dispatch t (List.filter has_case es) in
  assembler r.1 = assembler r'.1
  /\ emitted r.1 = emitted r'.1
  /\ world r.1 = world r'.1
  /\ r.2 = r'.2.
Proof.
  cbv zeta.
  enough (forall t t', same_turn t t' ->
            same_turn (dispatch t es).1 (dispatch t' (List.filter has_case es)).1
            /\ (dispatch t es).2 = (dispatch t' (List.filter has_case es)).2) as Hgen.
  { destruct (Hgen t t) as [(? & ? & ?) ?]; done. }
  clear t. induction es as [|e es IH]; intros t t' Hs; [done|].
  cbn [List.filter]. destruct (has_case e) eqn:Hc.
  - destruct Hs as (Ha & He & Hw). cbn [dispatch]. cbn [record_event assembler world].
    rewrite <- Ha, <- Hw.
    destruct (handleEvent (assembler t) (world t) e) as [a out w| |m]; try done.
    apply IH. repeat split; cbn; congruence.
  - cbn [dispatch]. cbn [record_event assembler world].
    rewrite (handleEvent_no_case _ _ _ Hc).
    apply IH. destruct Hs as (Ha & He & Hw).
    repeat split; cbn; rewrite ?app_nil_r; congruence.
Qed.

End TurnProperties.


Section AnnouncedProperties.
Context {Pf : Platform} {H : Host}.

(** ** Requests without a key *)

(** X17.  Without an API key no request is made to the model endpoint, and the
    exchange ends with the error record right after the user message. *)
Theorem missing_api_key turns w request :
  match ANTHROPIC_API_KEY with Some apiKey => apiKey = [] | None => True end ->
  let x := createAgentResponse (S turns) w request in
  let message := js "Missing ANTHROPIC_API_KEY environment variable." in
  events x = [MessageEvent (userMessage (prompt request)); ErrorEvent message]
  /\ state x = Failed message
  /\ world_end x = match session request with
                   | Some _ => w
                   | None => snd (randomUUID w)
                   end
  /\ forall w' messages, world_after (streamClaudeTurn w' messages) = w'.
Proof.
  intros Hkey.
  assert (getAnthropicHeaders
          = Throw (js "Missing ANTHROPIC_API_KEY environment variable.")) as Hh.
  { unfold getAnthropicHeaders. destruct ANTHROPIC_API_KEY as [key|]; [|done]. by subst. }
  assert (forall w' messages,
            streamClaudeTurn w' messages
            = turn_throws (new_Turn w')
                (js "Missing ANTHROPIC_API_KEY environment variable.")) as Hs.
  { intros w' messages. unfold streamClaudeTurn. by rewrite Hh. }
  cbv zeta. unfold createAgentResponse.
  destruct (session request) as [s|].
  - cbn [agentLoop]. rewrite Hs. cbn. repeat split; try done.
    intros w' messages. by rewrite Hs.
  - destruct (randomUUID w) as [sid w1]. cbn [agentLoop snd]. rewrite Hs. cbn.
    repeat split; try done. intros w' messages. by rewrite Hs.
Qed.

(** ** Tool calls are announced *)

Lemma announced_more a out more : announced a out -> announced a (out ++ more).
Proof.
  intros [Hb Hc]. split.
  - intros index id name input Hi. apply elem_of_app. left. eauto.
  - intros call Hin. apply elem_of_app. left. eauto.
Qed.

Lemma announced_block a out index block :
  announced a out ->
  (forall id name input, block = ToolUseBlock id name input ->
                         EmitEvent (ToolRequest id name) ∈ out) ->
  announced {| blocks := <[index := block]> (blocks a); calls := calls a;
               pending := pending a |} out.
Proof.
  intros [Hb Hc] Hnew. split; [|done]. cbn [blocks].
  intros i id name input Hi.
  destruct (decide (i = index)) as [->|Hne].
  - rewrite lookup_insert_eq in Hi. simplify_eq. eauto.
  - rewrite lookup_insert_ne in Hi by done. eauto.
Qed.

Lemma content_block_start_announced a w payload a' out w' seen :
  content_block_start a w payload = Continue a' out w' ->
  announced a seen -> announced a' (seen ++ out).
Proof.
  unfold content_block_start. intros Hh Ha.
  destruct (opt_prop payload "index") as [[| |index| | |]|];
    simplify_eq; try by apply announced_more.
  destruct (negb (truthy (opt_prop payload "content_block")));
    simplify_eq; [by apply announced_more|].
  destruct (is_string _ "text"); simplify_eq.
  { apply announced_block; [by apply announced_more|]. done. }
  destruct (is_string _ "tool_use"); simplify_eq; [|by apply announced_more].
  match type of Hh with
  | (let '(_, _) := ?m in _) = _ => destruct m as [id w1]
  end.
  simplify_eq.
  destruct (announced_more _ _
              [EmitEvent (ToolRequest id
                            (String_or_empty
                               (opt_prop (opt_prop payload "content_block") "name")))] Ha)
    as [Hb Hc].
  split; [|done]. cbn [blocks].
  intros i id' name input Hi.
  destruct (decide (i = index)) as [->|Hne].
  - rewrite lookup_insert_eq in Hi. simplify_eq. apply elem_of_app. right. left.
  - rewrite lookup_insert_ne in Hi by done. eauto.
Qed.

Lemma content_block_delta_announced a w payload a' out w' seen :
  content_block_delta a w payload = Continue a' out w' ->
  announced a seen -> announced a' (seen ++ out).
Proof.
  unfold content_block_delta. intros Hh Ha.
  destruct (opt_prop payload "index") as [[| |index| | |]|];
    simplify_eq; try by apply announced_more.
  destruct (negb (truthy (opt_prop payload "delta")));
    simplify_eq; [by apply announced_more|].
  destruct (is_string _ "text_delta"); simplify_eq.
  { destruct (blocks a !! index) as [[t| |]|]; try by apply announced_more.
    apply announced_block; [by apply announced_more|]. done. }
  destruct (is_string _ "input_json_delta"); simplify_eq; [|by apply announced_more].
  destruct (pending a !! index); simplify_eq; [|by apply announced_more].
  rewrite app_nil_r. exact Ha.
Qed.

Lemma content_block_stop_announced a w payload a' out w' seen :
  content_block_stop a w payload = Continue a' out w' ->
  announced a seen -> announced a' (seen ++ out).
Proof.
  unfold content_block_stop. intros Hh Ha.
  destruct (opt_prop payload "index") as [[| |index| | |]|];
    simplify_eq; try by apply announced_more.
  destruct (pending a !! index) as [p|]; simplify_eq; [|by apply announced_more].
  destruct (blocks a !! index) as [[t|id name input0|]|] eqn:Hblock; simplify_eq;
    rewrite app_nil_r; try exact Ha.
  destruct Ha as [Hb Hc]. split; cbn [blocks calls].
  - intros i id' name' input Hi.
    destruct (decide (i = index)) as [->|Hne].
    + rewrite lookup_insert_eq in Hi. simplify_eq. eauto.
    + rewrite lookup_insert_ne in Hi by done. eauto.
  - intros call Hin. apply elem_of_app in Hin as [Hin|Hin]; [eauto|].
    apply list_elem_of_singleton in Hin as ->. cbn [call_id call_name]. eauto.
Qed.

Lemma handleEvent_announced a w e a' out w' seen :
  handleEvent a w e = Continue a' out w' ->
  announced a seen -> announced a' (seen ++ out).
Proof.
  unfold handleEvent. intros Hh Ha.
  destruct (is_string (data e) "[DONE]"); [discriminate Hh|].
  repeat case_bool_decide; simplify_eq;
    eauto using content_block_start_announced, content_block_delta_announced,
      content_block_stop_announced.
  by apply announced_more.
Qed.

Lemma processBuffer_announced b t :
  announced (assembler t) (emitted t) ->
  announced (assembler (processBuffer b t).1.2) (emitted (processBuffer b t).1.2).
Proof.
  revert b t.
  apply (processBuffer_induction
           (fun b t r => announced (assembler t) (emitted t) ->
                         announced (assembler r.1.2) (emitted r.1.2))); simpl; auto.
  intros b t i e a out w _ _ Hh IH Ht. apply IH.
  eapply handleEvent_announced; eauto.
Qed.

Lemma readLoop_announced chunks failure d b t turn :
  announced (assembler t) (emitted t) ->
  outcome (readLoop chunks failure d b t) = Ok turn ->
  forall call, call ∈ toolCalls turn ->
    EmitEvent (ToolRequest (call_id call) (call_name call))
    ∈ outputs (readLoop chunks failure d b t).
Proof.
  revert d b t. induction chunks as [|c chunks IH]; intros d b t Ht; cbn [readLoop].
  - destruct failure; [done|].
    pose proof (processBuffer_announced (b ++ decode_end d) t Ht) as Hp.
    destruct (processBuffer (b ++ decode_end d) t) as [[b1 t1] [| |m]];
      cbn in *; intros E; simplify_eq; apply Hp.
  - destruct (decode d c) as [d1 s1].
    pose proof (processBuffer_announced (b ++ s1) t Ht) as Hp.
    destruct (processBuffer (b ++ s1) t) as [[b1 t1] [| |m]]; cbn in *.
    + by apply IH.
    + intros E; simplify_eq; apply Hp.
    + done.
Qed.

Lemma streamClaudeTurn_announced w messages turn :
  outcome (streamClaudeTurn w messages) = Ok turn ->
  forall call, call ∈ toolCalls turn ->
    EmitEvent (ToolRequest (call_id call) (call_name call))
    ∈ outputs (streamClaudeTurn w messages).
Proof.
  unfold streamClaudeTurn. repeat case_match; try done.
  unfold readBody. apply readLoop_announced. split.
  - intros index id name input Hi. cbn in Hi. by rewrite lookup_empty in Hi.
  - intros call Hin. cbn in Hin. by apply elem_of_nil in Hin.
Qed.

(** What [forward] lets through of the outputs of a turn. *)
Lemma forward_kinds os e :
  Forall turn_output os -> e ∈ flat_map forward os ->
  (exists text, e = AssistantDelta text) \/ (exists id name, e = ToolRequest id name).
Proof.
  induction 1 as [|o os Ho _ IH]; cbn [flat_map]; intros Hin.
  - by apply elem_of_nil in Hin.
  - apply elem_of_app in Hin as [Hin|Hin]; [|auto].
    destruct o as [text|[]]; cbn in Ho, Hin; try done.
    + rewrite Ho in Hin. apply list_elem_of_singleton in Hin as ->. eauto.
    + apply list_elem_of_singleton in Hin as ->. eauto.
Qed.

Lemma forward_request os id name :
  EmitEvent (ToolRequest id name) ∈ os -> ToolRequest id name ∈ flat_map forward os.
Proof.
  intros Hin. apply list_elem_of_In, in_flat_map.
  exists (EmitEvent (ToolRequest id name)). split; [by apply list_elem_of_In|]. by left.
Qed.

Lemma runToolCalls_calls w conv cs k id name input :
  sent (runToolCalls w conv cs) !! k = Some (ToolCallEvent id name input) ->
  exists call, call ∈ cs /\ call_id call = id /\ call_name call = name.
Proof.
  revert w conv k. induction cs as [|c cs IH]; intros w conv k; cbn [runToolCalls].
  - done.
  - destruct (runTool w (call_name c) (call_input c)) as [[r|m] w1]; cbn [sent].
    + destruct k as [|[|[|k]]]; cbn; intros E; simplify_eq.
      * exists c. split; [left|done].
      * destruct (IH _ _ _ E) as (call & Hin & ? & ?). exists call. split; [by right|done].
    + destruct k as [|k]; cbn; intros E; simplify_eq.
      exists c. split; [left|done].
Qed.

Lemma agentLoop_announced turns w sessionId conv i id name input :
  events (agentLoop turns w sessionId conv) !! i = Some (ToolCallEvent id name input) ->
  exists j, (j < i)%nat
            /\ events (agentLoop turns w sessionId conv) !! j = Some (ToolRequest id name).
Proof.
  revert w conv i. induction turns as [|turns IH]; intros w conv i; [done|].
  cbn [agentLoop].
  pose proof (streamClaudeTurn_outputs w conv) as Hout.
  pose proof (streamClaudeTurn_announced w conv) as Hann.
  set (run := streamClaudeTurn w conv) in *.
  set (deltas := flat_map forward (outputs run)).
  assert (forall k, deltas !! k <> Some (ToolCallEvent id name input)) as Hdeltas.
  { intros k Hk. apply list_elem_of_lookup_2 in Hk.
    destruct (forward_kinds _ _ Hout Hk) as [[? ?]|(? & ? & ?)]; done. }
  destruct (outcome run) as [turn|message] eqn:Hrun; cbn [events].
  2: { intros Hi. apply lookup_app_Some in Hi as [Hi|[_ Hi]]; [by apply Hdeltas in Hi|].
       apply list_lookup_singleton_Some in Hi as [_ ?]. done. }
  specialize (Hann turn eq_refl).
  destruct (toolCalls turn) as [|c cs] eqn:Hcalls; cbn [events].
  { intros Hi. apply lookup_app_Some in Hi as [Hi|[_ Hi]].
    - apply lookup_app_Some in Hi as [Hi|[_ Hi]]; [by apply Hdeltas in Hi|].
      apply list_lookup_singleton_Some in Hi as [_ ?]. done.
    - destruct (i - _)%nat as [|[|?]]; done. }
  set (step := runToolCalls (world_after run) (conv ++ [assistantMessage turn]) (c :: cs)).
  assert (forall k,
            (deltas ++ [MessageEvent (assistantMessage turn)] ++ sent step) !! k
            = Some (ToolCallEvent id name input) ->
            exists j, (j < k)%nat /\ deltas !! j = Some (ToolRequest id name)) as Hfirst.
  { intros k Hk. apply lookup_app_Some in Hk as [Hk|[Hge Hk]]; [by apply Hdeltas in Hk|].
    apply lookup_app_Some in Hk as [Hk|[_ Hk]].
    { apply list_lookup_singleton_Some in Hk as [_ ?]. done. }
    apply runToolCalls_calls in Hk as (call & Hin & <- & <-).
    apply Hann, forward_request, list_elem_of_lookup_1 in Hin as [j Hj].
    exists j. split; [|done]. apply lookup_lt_Some in Hj. fold deltas in Hj. lia. }
  destruct (thrown step) as [message|] eqn:Hthrown; cbn [events send_before].
  - rewrite <- app_assoc. intros Hi.
    rewrite (app_assoc deltas), (app_assoc (deltas ++ _)) in Hi.
    apply lookup_app_Some in Hi as [Hi|[_ Hi]].
    + rewrite <- app_assoc in Hi. destruct (Hfirst _ Hi) as (j & Hlt & Hj).
      exists j. split; [done|]. by apply lookup_app_l_Some.
    + apply list_lookup_singleton_Some in Hi as [_ ?]. done.
  - intros Hi. apply lookup_app_Some in Hi as [Hi|[Hge Hi]].
    + rewrite <- app_assoc in Hi. destruct (Hfirst _ Hi) as (j & Hlt & Hj).
      exists j. split; [done|]. apply lookup_app_l_Some. rewrite <- app_assoc.
      by apply lookup_app_l_Some.
    + destruct (IH _ _ _ Hi) as (j & Hlt & Hj).
      exists (length ((deltas ++ [MessageEvent (assistantMessage turn)]) ++ sent step) + j)%nat.
      split; [lia|]. rewrite lookup_app_r by lia.
      rewrite <- Hj. f_equal. lia.
Qed.

(** X18.  A tool is run only after it was announced: every [tool-call] record
    comes after a [tool-request] record of the same identifier and name. *)
Theorem tool_call_announced turns w request i id name input :
  events (createAgentResponse turns w request) !! i = Some (ToolCallEvent id name input) ->
  exists j, (j < i)%nat
            /\ events (createAgentResponse turns w request) !! j
               = Some (ToolRequest id name).
Proof.
  unfold createAgentResponse.
  destruct (match session request with Some s => (session_id s, w) | None => randomUUID w end)
    as [sessionId w1].
  cbn [events send_before].
  destruct i as [|i]; [done|]. cbn [app lookup list_lookup]. intros Hi.
  destruct (agentLoop_announced _ _ _ _ _ _ _ _ Hi) as (j & Hlt & Hj).
  exists (S j). split; [lia|]. exact Hj.
Qed.

End AnnouncedProperties.

(** ** The two variants of the loop *)


Section VariantProperties.
Context {Pf : Platform} {H : Host}.





End VariantProperties.

(** ** The reader of the stream *)


(** ** Lines *)

Lemma split_nonempty s sep : split s sep <> [].
Proof.
  destruct s as [|c s]; [done|]. simpl.
  destruct (c =? sep); [done|]. by destruct (split s sep).
Qed.

Lemma indexOf_one_None s c : indexOf s [c] = None -> split s c = [s].
Proof.
  induction s as [|d s IH]; [done|]. cbn [indexOf startsWith].
  rewrite andb_true_r. rewrite N.eqb_sym. simpl.
  destruct (d =? c) eqn:E; [done|].
  destruct (indexOf s [c]) eqn:Hi; [done|]. intros _. by rewrite IH.
Qed.

Lemma indexOf_one_Some s c i :
  indexOf s [c] = Some i ->
  split s c = take i s :: split (drop (S i) s) c.
Proof.
  revert i. induction s as [|d s IH]; intros i; [done|]. cbn [indexOf startsWith].
  rewrite andb_true_r. rewrite N.eqb_sym. simpl.
  destruct (d =? c) eqn:E.
  - intros [= <-]. by rewrite drop_0.
  - destruct (indexOf s [c]) as [j|] eqn:Hi; [|done]. intros [= <-].
    simpl. by rewrite (IH j eq_refl).
Qed.

Lemma indexOf_one_bound s c i : indexOf s [c] = Some i -> (i < length s)%nat.
Proof. intros Hi. apply indexOf_bound in Hi. simpl in Hi. lia. Qed.

(** The lines before the last piece, and the last piece. *)
Lemma split_app s t sep :
  split (s ++ t) sep
  = removelast (split s sep) ++ split (List.last (split s sep) [] ++ t) sep.
Proof.
  induction s as [|c s IH]; [done|].
  cbn [app split]. destruct (c =? sep) eqn:E.
  - rewrite IH. pose proof (split_nonempty s sep).
    destruct (split s sep) as [|p ps] eqn:Hs; [done|]. done.
  - rewrite IH. pose proof (split_nonempty s sep).
    destruct (split s sep) as [|p [|q ps]] eqn:Hs; [done| |].
    + cbn [removelast List.last app split]. rewrite E. done.
    + cbn [removelast List.last app]. done.
Qed.

Section ReaderProperties.
Context {Pf : Platform} {H : Host}.

Lemma records_app l1 l2 :
  agentDemo.records (l1 ++ l2) = agentDemo.records l1 ++ agentDemo.records l2.
Proof.
  unfold agentDemo.records. by rewrite map_app, List.filter_app, omap_app.
Qed.

Lemma handle_line_records line handled :
  agentDemo.handle_line (trim line) handled = handled ++ agentDemo.records [line].
Proof.
  unfold agentDemo.handle_line, agentDemo.records. cbn [map List.filter].
  destruct (nonempty (trim line)); cbn [omap list_omap]; [|by rewrite app_nil_r].
  destruct (JSON_parse (trim line)); [done|by rewrite app_nil_r].
Qed.

Lemma readLines_loop_spec fuel buffer handled :
  (length buffer < fuel)%nat ->
  agentDemo.readLines_loop fuel buffer handled
  = (List.last (split buffer LF) [],
     handled ++ agentDemo.records (removelast (split buffer LF))).
Proof.
  revert buffer handled. induction fuel as [|fuel IH]; intros buffer handled Hf; [lia|].
  cbn [agentDemo.readLines_loop].
  destruct (indexOf buffer [LF]) as [i|] eqn:Hi.
  - pose proof (indexOf_one_bound _ _ _ Hi) as Hb.
    rewrite (indexOf_one_Some _ _ _ Hi).
    unfold slice, slice_from. rewrite drop_0, Nat.sub_0_r.
    replace (i + 1)%nat with (S i) by lia.
    rewrite IH by (rewrite length_drop; lia).
    pose proof (split_nonempty (drop (S i) buffer) LF).
    destruct (split (drop (S i) buffer) LF) as [|p ps] eqn:Hs; [done|].
    rewrite handle_line_records.
    change (removelast (take i buffer :: p :: ps))
      with ([take i buffer] ++ removelast (p :: ps)).
    by rewrite records_app, app_assoc.
  - rewrite (indexOf_one_None _ _ Hi). cbn. by rewrite app_nil_r.
Qed.

Lemma readLines_spec buffer handled :
  agentDemo.readLines buffer handled
  = (List.last (split buffer LF) [],
     handled ++ agentDemo.records (removelast (split buffer LF))).
Proof. apply readLines_loop_spec. lia. Qed.

Lemma decode_end_line d : split (decode_end d) LF = [decode_end d].
Proof.
  unfold decode_end. destruct (bytes_needed (utf8 d) =? 0); [done|].
  by destruct (bom_seen d).
Qed.

Lemma split_last_line s t sep :
  split t sep = [t] -> split (List.last (split s sep) [] ++ t) sep = [List.last (split s sep) [] ++ t].
Proof.
  intros Ht. induction s as [|c s IH]; [done|].
  cbn [split]. destruct (c =? sep) eqn:E.
  - pose proof (split_nonempty s sep). destruct (split s sep) as [|p ps]; done.
  - pose proof (split_nonempty s sep).
    destruct (split s sep) as [|p [|q ps]] eqn:Hs; [done| |done].
    cbn [List.last] in *. cbn [app split]. rewrite E, IH. done.
Qed.

Lemma readLoop_spec chunks failure d buffer handled :
  split buffer LF = [buffer] ->
  agentDemo.readLoop chunks failure d buffer handled
  = let '(d', text) := decode d (concat chunks) in
    match failure with
    | Some message =>
        {| agentDemo.handled :=
             handled ++ agentDemo.records (removelast (split (buffer ++ text) LF));
           agentDemo.request_error := Some message |}
    | None =>
        {| agentDemo.handled :=
             handled ++ agentDemo.records (split (buffer ++ text ++ decode_end d') LF);
           agentDemo.request_error := None |}
    end.
Proof.
  revert d buffer handled. induction chunks as [|c chunks IH]; intros d buffer handled Hb.
  - cbn [agentDemo.readLoop concat decode]. destruct failure as [message|].
    + by rewrite app_nil_r, Hb, app_nil_r.
    + rewrite handle_line_records. cbn [app].
      pose proof (split_last_line buffer (decode_end d) LF (decode_end_line d)) as Hl.
      rewrite Hb in Hl. cbn [List.last] in Hl. by rewrite Hl.
  - cbn [agentDemo.readLoop concat]. rewrite decode_app.
    destruct (decode d c) as [d1 s1].
    destruct (decode d1 (concat chunks)) as [d2 s2] eqn:Hd.
    rewrite readLines_spec.
    rewrite IH.
    2: { pose proof (split_last_line (buffer ++ s1) [] LF eq_refl) as Hl.
         by rewrite app_nil_r in Hl. }
    rewrite Hd.
    destruct failure as [message|]; f_equal.
    + rewrite <- app_assoc. f_equal. rewrite <- records_app. f_equal.
      rewrite (app_assoc buffer s1 s2), (split_app (buffer ++ s1) s2).
      pose proof (split_nonempty (List.last (split (buffer ++ s1) LF) [] ++ s2) LF).
      destruct (split (List.last (split (buffer ++ s1) LF) [] ++ s2) LF) as [|p ps]; [done|].
      by rewrite removelast_app.
    + rewrite <- app_assoc. f_equal. rewrite <- records_app. f_equal.
      rewrite (app_assoc buffer), (app_assoc buffer s1), <- (app_assoc (buffer ++ s1)).
      by rewrite (split_app (buffer ++ s1)).
Qed.

(** X20.  The reader hands over the records of the lines of the decoded text,
    in order, however the bytes are cut into reads; a read that fails
    leaves the last, unfinished line out. *)
Theorem stream_lines_handled chunks failure status canned :
  let decoded := decode new_TextDecoder (concat chunks) in
  agentDemo.streamAgentResponse
    (FetchResolved {| body := Some {| reads := chunks; read_error := failure |};
                      ok := true; status := status; response_text := canned |})
  = match failure with
    | Some message =>
        {| agentDemo.handled :=
             agentDemo.records (removelast (split (snd decoded) LF));
           agentDemo.request_error := Some message |}
    | None =>
        {| agentDemo.handled :=
             agentDemo.records (split (snd decoded ++ decode_end (fst decoded)) LF);
           agentDemo.request_error := None |}
    end.
Proof.
  cbv zeta. unfold agentDemo.streamAgentResponse. cbn [ok body negb reads read_error].
  pose proof (readLoop_spec chunks failure new_TextDecoder [] [] eq_refl) as Hr.
  destruct (decode new_TextDecoder (concat chunks)) as [d text]. exact Hr.
Qed.

End ReaderProperties.

(** ** The encoder *)


(** ** Bytes and bits *)

Ltac divmod a b :=
  let q := fresh "q" in
  let r := fresh "r" in
  pose proof (N.Div0.div_mod a b);
  pose proof (N.mod_lt a b ltac:(discriminate));
  set (q := a / b) in *; set (r := a mod b) in *; clearbody q r.

Ltac lia_div :=
  repeat match goal with
         | |- context [N.div ?a ?b] => divmod a b
         | |- context [N.modulo ?a ?b] => divmod a b
         | H : context [N.div ?a ?b] |- _ => divmod a b
         | H : context [N.modulo ?a ?b] |- _ => divmod a b
         end;
  lia.

Lemma to_byte_N n : n < 256 -> Byte.to_N (to_byte n) = n.
Proof.
  intros Hn. unfold to_byte.
  destruct (Byte.of_N n) as [b|] eqn:E; [by apply Byte.to_of_N|].
  apply Byte.of_N_None_iff in E. lia.
Qed.

Lemma lor_shiftl_small a r k : r < 2 ^ k -> N.lor (N.shiftl a k) r = a * 2 ^ k + r.
Proof.
  intros Hr. rewrite <- N.lxor_lor, <- N.add_nocarry_lxor, N.shiftl_mul_pow2; try done.
  all: apply N.bits_inj; intros n; rewrite N.land_spec, N.bits_0.
  all: destruct (N.lt_ge_cases n k) as [Hlt|Hge].
  all: try (rewrite N.shiftl_spec_low by done; done).
  all: assert (N.testbit r n = false) as ->; [|apply andb_false_r].
  all: destruct (decide (r = 0)) as [->|Hr0]; [apply N.bits_0|].
  all: apply N.bits_above_log2; apply N.log2_lt_pow2; [lia|].
  all: eapply N.lt_le_trans; [exact Hr|]; apply N.pow_le_mono_r; lia.
Qed.

Lemma lor_128 r : r < 64 -> N.lor 128 r = 128 + r.
Proof. intros Hr. exact (lor_shiftl_small 2 r 6 Hr). Qed.

Lemma land_low a k : N.land a (N.ones k) = a mod 2 ^ k.
Proof. apply N.land_ones. Qed.

(** [utf8_encode] in the words of division. *)
Lemma utf8_encode_eq cp :
  utf8_encode cp =
  if cp <=? 127 then [cp]
  else if cp <=? 2047 then [cp / 64 + 192; 128 + cp mod 64]
  else if cp <=? 65535 then
    [cp / 4096 + 224; 128 + (cp / 64) mod 64; 128 + cp mod 64]
  else
    [cp / 262144 + 240; 128 + (cp / 4096) mod 64; 128 + (cp / 64) mod 64;
     128 + cp mod 64].
Proof.
  unfold utf8_encode.
  rewrite !N.shiftr_div_pow2.
  change 63 with (N.ones 6). rewrite !land_low.
  change (2 ^ 6) with 64. change (2 ^ 12) with 4096. change (2 ^ 18) with 262144.
  rewrite !lor_128 by (apply N.mod_lt; discriminate). done.
Qed.

(** A byte that continues a sequence. *)
Lemma utf8_byte_continue u r :
  bytes_needed u <> 0 ->
  lower_boundary u <= 128 + r -> 128 + r <= upper_boundary u -> r < 64 ->
  utf8_byte u (128 + r) =
    if bytes_seen u + 1 =? bytes_needed u then (utf8_idle, [code_point u * 64 + r])
    else ({| code_point := code_point u * 64 + r; bytes_seen := bytes_seen u + 1;
             bytes_needed := bytes_needed u;
             lower_boundary := 128; upper_boundary := 191 |}, []).
Proof.
  intros Hn Hl Hu Hr. unfold utf8_byte.
  rewrite (proj2 (N.eqb_neq _ _) Hn).
  rewrite (proj2 (N.leb_le _ _) Hl), (proj2 (N.leb_le _ _) Hu). cbn [andb].
  assert (N.lor (N.shiftl (code_point u) 6) (N.land (128 + r) 63)
          = code_point u * 64 + r) as ->; [|done].
  change 63 with (N.ones 6). rewrite land_low. change (2 ^ 6) with 64.
  assert ((128 + r) mod 64 = r) as -> by lia_div.
  by rewrite (lor_shiftl_small _ r 6 Hr).
Qed.

Ltac decide_leb :=
  repeat match goal with
         | |- context [?a <=? ?b] =>
             first [ replace (a <=? b) with true by (symmetry; apply N.leb_le; lia)
                   | replace (a <=? b) with false by (symmetry; apply N.leb_gt; lia) ]
         end.

(** The first byte of a sequence of two, three and four bytes. *)
Lemma utf8_lead_two q :
  2 <= q -> q < 32 ->
  utf8_lead (q + 192)
  = ({| code_point := q; bytes_seen := 0; bytes_needed := 1;
        lower_boundary := 128; upper_boundary := 191 |}, []).
Proof.
  intros Hl Hu. unfold utf8_lead. decide_leb. cbn [andb].
  change 31 with (N.ones 5). rewrite land_low. change (2 ^ 5) with 32.
  do 2 f_equal. lia_div.
Qed.

Lemma utf8_lead_three q :
  q < 16 ->
  utf8_lead (q + 224)
  = ({| code_point := q; bytes_seen := 0; bytes_needed := 2;
        lower_boundary := if q =? 0 then 160 else 128;
        upper_boundary := if q =? 13 then 159 else 191 |}, []).
Proof.
  intros Hu. unfold utf8_lead. decide_leb. cbn [andb].
  change 15 with (N.ones 4). rewrite land_low. change (2 ^ 4) with 16.
  assert ((q + 224) mod 16 = q) as -> by lia_div.
  assert ((q + 224 =? 224) = (q =? 0)) as ->
    by (destruct (q =? 0) eqn:E; [apply N.eqb_eq in E; subst; done|
        apply N.eqb_neq in E; apply N.eqb_neq; lia]).
  assert ((q + 224 =? 237) = (q =? 13)) as ->
    by (destruct (q =? 13) eqn:E; [apply N.eqb_eq in E; subst; done|
        apply N.eqb_neq in E; apply N.eqb_neq; lia]).
  done.
Qed.

Lemma utf8_lead_four q :
  q < 5 ->
  utf8_lead (q + 240)
  = ({| code_point := q; bytes_seen := 0; bytes_needed := 3;
        lower_boundary := if q =? 0 then 144 else 128;
        upper_boundary := if q =? 4 then 143 else 191 |}, []).
Proof.
  intros Hu. unfold utf8_lead. decide_leb. cbn [andb].
  change 7 with (N.ones 3). rewrite land_low. change (2 ^ 3) with 8.
  assert ((q + 240) mod 8 = q) as -> by lia_div.
  assert ((q + 240 =? 240) = (q =? 0)) as ->
    by (destruct (q =? 0) eqn:E; [apply N.eqb_eq in E; subst; done|
        apply N.eqb_neq in E; apply N.eqb_neq; lia]).
  assert ((q + 240 =? 244) = (q =? 4)) as ->
    by (destruct (q =? 4) eqn:E; [apply N.eqb_eq in E; subst; done|
        apply N.eqb_neq in E; apply N.eqb_neq; lia]).
  done.
Qed.

Ltac boundary :=
  repeat match goal with
         | |- context [if ?c then _ else _] =>
             let E := fresh "E" in destruct c eqn:E; [apply N.eqb_eq in E|]
         end;
  lia_div.

(** The bytes of a scalar value give it back, through the decoder. *)
Lemma utf8_bytes_scalar cp :
  is_scalar cp ->
  match utf8_encode cp with
  | [b1] => utf8_byte utf8_idle b1 = (utf8_idle, [cp])
  | [b1; b2] =>
      exists u1, utf8_byte utf8_idle b1 = (u1, [])
                 /\ utf8_byte u1 b2 = (utf8_idle, [cp])
  | [b1; b2; b3] =>
      exists u1 u2, utf8_byte utf8_idle b1 = (u1, [])
                    /\ utf8_byte u1 b2 = (u2, [])
                    /\ utf8_byte u2 b3 = (utf8_idle, [cp])
  | [b1; b2; b3; b4] =>
      exists u1 u2 u3, utf8_byte utf8_idle b1 = (u1, [])
                       /\ utf8_byte u1 b2 = (u2, [])
                       /\ utf8_byte u2 b3 = (u3, [])
                       /\ utf8_byte u3 b4 = (utf8_idle, [cp])
  | _ => False
  end
  /\ Forall (fun b => b < 256) (utf8_encode cp).
Proof.
  intros [Hmax Hsur]. rewrite utf8_encode_eq.
  assert (forall b, utf8_byte utf8_idle b = utf8_lead b) as Hidle by done.
  destruct (cp <=? 127) eqn:H1; [apply N.leb_le in H1|apply N.leb_gt in H1].
  { split; [|repeat constructor; lia].
    rewrite Hidle. unfold utf8_lead. by rewrite (proj2 (N.leb_le _ _) H1). }
  destruct (cp <=? 2047) eqn:H2; [apply N.leb_le in H2|apply N.leb_gt in H2].
  { assert (cp / 64 < 32) as Hq by lia_div.
    assert (2 <= cp / 64) as Hq2 by lia_div.
    split; [|repeat constructor; lia_div].
    eexists. split; [rewrite Hidle; by apply utf8_lead_two|].
    rewrite utf8_byte_continue; cbn [bytes_needed bytes_seen code_point
                                      lower_boundary upper_boundary];
      try done; try lia_div.
    cbn [N.add N.eqb Pos.add Pos.eqb]. do 2 f_equal. lia_div. }
  destruct (cp <=? 65535) eqn:H3; [apply N.leb_le in H3|apply N.leb_gt in H3].
  { assert (cp / 4096 < 16) as Hq by lia_div.
    split; [|repeat constructor; lia_div].
    eexists. eexists. split; [rewrite Hidle; by apply utf8_lead_three|]. split.
    - rewrite utf8_byte_continue; cbn [bytes_needed bytes_seen code_point
                                        lower_boundary upper_boundary];
        try done; try boundary.
    - rewrite utf8_byte_continue; cbn [bytes_needed bytes_seen code_point
                                        lower_boundary upper_boundary];
        try done; try lia_div.
      cbn [N.add N.eqb Pos.add Pos.eqb Pos.succ]. do 2 f_equal. lia_div. }
  assert (cp / 262144 < 5) as Hq by lia_div.
  split; [|repeat constructor; lia_div].
  eexists. eexists. eexists. split; [rewrite Hidle; by apply utf8_lead_four|].
  split; [|split].
  - rewrite utf8_byte_continue; cbn [bytes_needed bytes_seen code_point
                                      lower_boundary upper_boundary];
      try done; try boundary.
  - rewrite utf8_byte_continue; cbn [bytes_needed bytes_seen code_point
                                      lower_boundary upper_boundary];
      try done; try lia_div.
  - rewrite utf8_byte_continue; cbn [bytes_needed bytes_seen code_point
                                      lower_boundary upper_boundary];
      try done; try lia_div.
    cbn [N.add N.eqb Pos.add Pos.eqb Pos.succ]. do 2 f_equal. lia_div.
Qed.

(** ** From the encoder to the decoder *)

Lemma decode_step_silent d n u rest :
  n < 256 -> utf8_byte (utf8 d) n = (u, []) ->
  decode d (to_byte n :: rest) = decode {| utf8 := u; bom_seen := bom_seen d |} rest.
Proof.
  intros Hn Hu. cbn [decode]. unfold decode_byte. rewrite (to_byte_N _ Hn), Hu.
  cbn [serialize]. by destruct (decode _ rest).
Qed.

Lemma decode_step_out d n cp rest :
  n < 256 -> utf8_byte (utf8 d) n = (utf8_idle, [cp]) ->
  decode d (to_byte n :: rest)
  = let '(d2, s2) := decode {| utf8 := utf8_idle; bom_seen := true |} rest in
    (d2, (if negb (bom_seen d) && (cp =? 65279) then [] else code_units cp) ++ s2).
Proof.
  intros Hn Hu. cbn [decode]. unfold decode_byte. rewrite (to_byte_N _ Hn), Hu.
  cbn [serialize]. rewrite app_nil_r. done.
Qed.

Lemma decode_scalar d cp rest :
  utf8 d = utf8_idle -> is_scalar cp ->
  decode d (map to_byte (utf8_encode cp) ++ rest)
  = let '(d2, s2) := decode {| utf8 := utf8_idle; bom_seen := true |} rest in
    (d2, (if negb (bom_seen d) && (cp =? 65279) then [] else code_units cp) ++ s2).
Proof.
  intros Hd Hs. destruct (utf8_bytes_scalar cp Hs) as [Hb Hlt].
  destruct (utf8_encode cp) as [|b1 [|b2 [|b3 [|b4 [|b5 bs]]]]]; try done.
  - apply Forall_cons in Hlt as [H1 _]. cbn [map app].
    apply decode_step_out; [done|]. by rewrite Hd.
  - destruct Hb as (u1 & E1 & E2).
    apply Forall_cons in Hlt as [H1 Hlt]. apply Forall_cons in Hlt as [H2 _].
    cbn [map app].
    rewrite (decode_step_silent d b1 u1) by (by rewrite ?Hd).
    by apply (decode_step_out {| utf8 := u1; bom_seen := bom_seen d |}).
  - destruct Hb as (u1 & u2 & E1 & E2 & E3).
    apply Forall_cons in Hlt as [H1 Hlt]. apply Forall_cons in Hlt as [H2 Hlt].
    apply Forall_cons in Hlt as [H3 _].
    cbn [map app].
    rewrite (decode_step_silent d b1 u1) by (by rewrite ?Hd).
    rewrite (decode_step_silent _ b2 u2) by done.
    by apply (decode_step_out {| utf8 := u2; bom_seen := bom_seen d |}).
  - destruct Hb as (u1 & u2 & u3 & E1 & E2 & E3 & E4).
    apply Forall_cons in Hlt as [H1 Hlt]. apply Forall_cons in Hlt as [H2 Hlt].
    apply Forall_cons in Hlt as [H3 Hlt]. apply Forall_cons in Hlt as [H4 _].
    cbn [map app].
    rewrite (decode_step_silent d b1 u1) by (by rewrite ?Hd).
    rewrite (decode_step_silent _ b2 u2) by done.
    rewrite (decode_step_silent _ b3 u3) by done.
    by apply (decode_step_out {| utf8 := u3; bom_seen := bom_seen d |}).
Qed.

Lemma surrogate_pair c d :
  is_high_surrogate c = true -> is_low_surrogate d = true ->
  let cp := 65536 + N.shiftl (c - 55296) 10 + (d - 56320) in
  is_scalar cp /\ code_units cp = [c; d] /\ (cp =? 65279) = false.
Proof.
  unfold is_high_surrogate, is_low_surrogate. intros Hc Hd.
  apply andb_true_iff in Hc as [Hc1 Hc2]. apply andb_true_iff in Hd as [Hd1 Hd2].
  apply N.leb_le in Hc1, Hc2, Hd1, Hd2.
  cbv zeta. rewrite N.shiftl_mul_pow2. change (2 ^ 10) with 1024.
  split; [split; lia|]. split; [|apply N.eqb_neq; lia].
  unfold code_units.
  replace (65536 + (c - 55296) * 1024 + (d - 56320) <? 65536) with false
    by (symmetry; apply N.ltb_ge; lia).
  replace (65536 + (c - 55296) * 1024 + (d - 56320) - 65536)
    with ((c - 55296) * 1024 + (d - 56320)) by lia.
  rewrite N.shiftr_div_pow2. change 1023 with (N.ones 10). rewrite land_low.
  change (2 ^ 10) with 1024.
  f_equal; [|f_equal]; lia_div.
Qed.

Lemma decode_encode_from s :
  forall d,
    well_formed s = true -> utf8 d = utf8_idle ->
    bom_seen d = true \/ head s <> Some 65279 ->
    decode d (encode s)
    = ({| utf8 := utf8_idle; bom_seen := bom_seen d || nonempty s |}, s).
Proof.
  remember (length s) as n eqn:Hn. revert s Hn.
  induction n as [n IH] using lt_wf_ind. intros s -> d Hw Hd Hbom.
  destruct s as [|c s].
  { destruct d as [u seen]. cbn in *. subst. by rewrite orb_false_r. }
  cbn [well_formed] in Hw. apply andb_true_iff in Hw as [Hc Hw].
  apply N.ltb_lt in Hc. unfold encode in *. cbn [scalar_values].
  destruct (is_high_surrogate c) eqn:Hh.
  - destruct s as [|c2 s]; [done|]. apply andb_true_iff in Hw as [Hl Hw].
    rewrite Hl. cbn [flat_map]. rewrite map_app.
    destruct (surrogate_pair c c2 Hh Hl) as (Hs & Hu & Hne).
    rewrite (decode_scalar d _ _ Hd Hs), Hne, andb_false_r, Hu.
    rewrite (IH (length s) ltac:(cbn; lia) s eq_refl
               {| utf8 := utf8_idle; bom_seen := true |} Hw eq_refl (or_introl eq_refl)).
    cbn. by rewrite orb_true_r.
  - apply andb_true_iff in Hw as [Hl Hw]. apply negb_true_iff in Hl.
    rewrite Hl. cbn [flat_map]. rewrite map_app.
    assert (is_scalar c) as Hs.
    { unfold is_high_surrogate, is_low_surrogate in *. split; [lia|].
      intros [H1 H2]. destruct (N.le_gt_cases c 56319) as [Hle|Hgt].
      - rewrite (proj2 (N.leb_le _ _) H1), (proj2 (N.leb_le _ _) Hle) in Hh. done.
      - rewrite (proj2 (N.leb_le 56320 c)), (proj2 (N.leb_le _ _) H2) in Hl by lia. done. }
    rewrite (decode_scalar d _ _ Hd Hs).
    assert ((negb (bom_seen d) && (c =? 65279)) = false) as ->.
    { destruct Hbom as [-> | Hne]; [done|]. apply andb_false_iff. right.
      apply N.eqb_neq. intros ->. by apply Hne. }
    assert (code_units c = [c]) as ->
      by (unfold code_units; by rewrite (proj2 (N.ltb_lt _ _) Hc)).
    rewrite (IH (length s) ltac:(cbn; lia) s eq_refl
               {| utf8 := utf8_idle; bom_seen := true |} Hw eq_refl (or_introl eq_refl)).
    cbn. by rewrite orb_true_r.
Qed.

(** X21.  The decoder gives back the text the encoder was given, wherever the
    bytes are cut; the text is one of 16-bit units with its surrogates in
    pairs, and does not start with the byte order mark, which the decoder
    drops. *)
Theorem encode_decode s :
  well_formed s = true -> head s <> Some 65279 ->
  (exists d, decode new_TextDecoder (encode s) = (d, s) /\ decode_end d = [])
  /\ forall front back,
       encode s = front ++ back ->
       let '(d1, s1) := decode new_TextDecoder front in
       let '(d2, s2) := decode d1 back in
       s1 ++ s2 ++ decode_end d2 = s.
Proof.
  intros Hw Hb.
  pose proof (decode_encode_from s new_TextDecoder Hw eq_refl (or_intror Hb)) as Hd.
  split; [eexists; split; [exact Hd|done]|].
  intros front back E. rewrite E, decode_app in Hd.
  destruct (decode new_TextDecoder front) as [d1 s1].
  destruct (decode d1 back) as [d2 s2]. simplify_eq. cbn.
  by rewrite app_nil_r.
Qed.

(** * The properties on the reference host *)

Import Reference.

Ltac computed := vm_compute; repeat split; reflexivity.

(** The scenario of an unknown tool: the request, the failure as a tool
    result, the next turn, the snapshot and [done]. *)
Example unknown_tool_scenario :
  map event_type (events (createAgentResponse 3 unknown_then_text hello))
  = ["message"; "tool-request"; "message"; "tool-call"; "tool-result"; "message";
     "assistant-delta"; "assistant-delta"; "assistant-delta"; "message";
     "session"; "done"]%string
  /\ state (createAgentResponse 3 unknown_then_text hello) = Done
  /\ map role (conversation (createAgentResponse 3 unknown_then_text hello))
     = [role_user; role_assistant; role_tool; role_assistant].
Proof. computed. Qed.

(** A transcript cut inside a line, between the two line feeds of a blank
    line, and between the two bytes of a character. *)
Lemma fragmentation_witness :
  readBody {| reads := cut_transcript; read_error := None |} (script [])
  = readBody {| reads := [concat cut_transcript]; read_error := None |} (script []).
Proof. apply fragmentation_invariant. Defined.

Example cut_transcript_decoded :
  content (assistantMessage
             (turn_of (readBody {| reads := cut_transcript; read_error := None |}
                         (script []))))
  = {[ position 0 := TextBlock [99; 97; 102; 233] ]}
  /\ length (wire_events (readBody {| reads := cut_transcript; read_error := None |}
                            (script []))) = 3%nat.
Proof. computed. Qed.

Example status_in_decimal :
  decimal 0 = js "0" /\ decimal 200 = js "200" /\ decimal 65535 = js "65535".
Proof. computed. Qed.

Lemma tool_input_finalized_witness :
  start_at (position 0) tool_start "tool_use"
  /\ Forall2 (input_json_delta_at (position 0))
       [json_delta_open; json_delta_close] [text "{'a'"; text ":1} "]
  /\ targets tool_stop "content_block_stop" (position 0)
  /\ parse_tool_input (concat [text "{'a'"; text ":1} "]) = JObj [(js "a", JNum 1%Z)]
  /\ exists t' id name,
      dispatch (new_Turn (script []))
        (tool_start :: [json_delta_open; json_delta_close] ++ [tool_stop])
      = (t', ReturnFalse)
      /\ blocks (assembler t') !! position 0
         = Some (ToolUseBlock id name
                   (parse_tool_input (concat [text "{'a'"; text ":1} "]))).
Proof.
  assert (start_at (position 0) tool_start "tool_use") as H1 by computed.
  assert (Forall2 (input_json_delta_at (position 0))
            [json_delta_open; json_delta_close] [text "{'a'"; text ":1} "]) as H2
    by (repeat constructor; computed).
  assert (targets tool_stop "content_block_stop" (position 0)) as H3 by computed.
  split; [exact H1|]. split; [exact H2|]. split; [exact H3|]. split; [computed|].
  destruct (tool_input_finalized (new_Turn (script [])) (position 0) tool_start
              [json_delta_open; json_delta_close] [text "{'a'"; text ":1} "] tool_stop
              H1 H2 H3) as (t' & id & name & Hd & Hb & _).
  exists t', id, name. split; [exact Hd | exact Hb].
Defined.

(** The fragments are a vertical tab and an object: their concatenation is
    no JSON text, and the input of the tool call is the object, not the
    empty object. *)
Lemma tool_input_padded_counterexample :
  JSON_parse (concat padded_fragments) = None
  /\ map call_input
       (toolCalls (turn_of (readBody {| reads := [bytes padded_input_turn];
                                        read_error := None |} (script []))))
     = [JObj [(js "a", JNum 1%Z)]]
  /\ map call_input
       (toolCalls (turn_of (readBody {| reads := [bytes padded_input_turn];
                                        read_error := None |} (script []))))
     <> [JObj []].
Proof.
  assert (map call_input
            (toolCalls (turn_of (readBody {| reads := [bytes padded_input_turn];
                                             read_error := None |} (script []))))
          = [JObj [(js "a", JNum 1%Z)]]) as Hinput by computed.
  split; [computed|]. split; [exact Hinput|]. rewrite Hinput. discriminate.
Qed.



Lemma session_round_trip_witness :
  snapshot (events (createAgentResponse 3 unknown_then_text hello))
  = Some {| session_id := js "s-1";
            session_messages := conversation (createAgentResponse 3 unknown_then_text hello) |}
  /\ take (length (conversation (createAgentResponse 3 unknown_then_text hello)))
       (conversation
          (createAgentResponse 3 (script [answer [bytes text_turn]])
             {| prompt := js "more";
                session :=
                  Some {| session_id := js "s-1";
                          session_messages :=
                            conversation (createAgentResponse 3 unknown_then_text hello) |} |}))
     = conversation (createAgentResponse 3 unknown_then_text hello).
Proof.
  assert (snapshot (events (createAgentResponse 3 unknown_then_text hello))
          = Some {| session_id := js "s-1";
                    session_messages :=
                      conversation (createAgentResponse 3 unknown_then_text hello) |})
    as Hs by computed.
  split; [exact Hs|].
  exact (proj1 (proj2 (proj2 (session_round_trip 3 3 unknown_then_text
                                (script [answer [bytes text_turn]]) hello (js "more") _ Hs)))).
Defined.


Lemma dataPayload_trimmed_witness :
  dataPayload (text "event: message_stop|data: {'type':|data:  'message_stop'} ")
  = concat
      (map (fun line => trim (slice_from line (length (js "data:"))))
         (filter (fun line => is_data_line line = true)
            (split (text "event: message_stop|data: {'type':|data:  'message_stop'} ") LF))).
Proof.
  exact (proj1 (dataPayload_trimmed
                  (text "event: message_stop|data: {'type':|data:  'message_stop'} "))).
Defined.

Example two_data_lines :
  dataPayload (text "event: message_stop|data: {'type':|data:  'message_stop'} ")
  = text "{'type':'message_stop'}".
Proof. computed. Qed.

(** The payload of [data: [DONE]] is [[DONE]], without the space. *)
Lemma dataPayload_counterexample :
  dataPayload (js "data: [DONE]") = js "[DONE]"
  /\ dataPayload_untrimmed (js "data: [DONE]") = js " [DONE]"
  /\ dataPayload (js "data: [DONE]") <> dataPayload_untrimmed (js "data: [DONE]").
Proof.
  assert (dataPayload (js "data: [DONE]") = js "[DONE]") as H1 by computed.
  assert (dataPayload_untrimmed (js "data: [DONE]") = js " [DONE]") as H2 by computed.
  split; [exact H1|]. split; [exact H2|]. rewrite H1, H2. discriminate.
Qed.

Lemma text_deltas_concatenate_witness :
  Forall2 (text_delta_at (position 0)) [text_delta_Hel; text_delta_lo] [js "Hel"; js "lo"]
  /\ start_at (position 0) text_start "text"
  /\ exists t',
      dispatch (new_Turn (script [])) (text_start :: [text_delta_Hel; text_delta_lo])
      = (t', ReturnFalse)
      /\ blocks (assembler t') !! position 0
         = Some (TextBlock (concat [js "Hel"; js "lo"])).
Proof.
  assert (Forall2 (text_delta_at (position 0)) [text_delta_Hel; text_delta_lo]
            [js "Hel"; js "lo"]) as H1 by (repeat constructor; computed).
  assert (start_at (position 0) text_start "text") as H2 by computed.
  split; [exact H1|]. split; [exact H2|].
  exact (proj2 (text_deltas_concatenate (new_Turn (script [])) (position 0)
                  [text_delta_Hel; text_delta_lo] [js "Hel"; js "lo"] H1)
           text_start H2).
Defined.

Lemma unknown_tool_reported_witness :
  getTool (call_name unknown_call) = None
  /\ runTool (script []) (call_name unknown_call) (call_input unknown_call)
     = (Returned
          (ToolRunError (js "Unknown tool: " ++ call_name unknown_call)
             [ {| title := js "Lookup tool";
                  detail := js "The orchestrator asked for a tool that is not registered in this host." |} ]),
        script []).
Proof.
  assert (getTool (call_name unknown_call) = None) as Hg by computed.
  split; [exact Hg|].
  exact (proj1 (unknown_tool_reported (script []) unknown_call Hg)).
Defined.


Lemma unplaced_text_forwarded_witness :
  text_delta_at (position 3) stray_delta (js "lost")
  /\ handleEvent new_Assembler (script []) stray_delta
     = Continue new_Assembler [EmitText (js "lost")] (script [])
  /\ flat_map forward [EmitText (js "lost")] = [AssistantDelta (js "lost")].
Proof.
  assert (text_delta_at (position 3) stray_delta (js "lost")) as H1 by computed.
  split; [exact H1|].
  refine (let H := unplaced_text_forwarded new_Assembler (script []) stray_delta
                     (position 3) (js "lost") H1 _ _ in
          conj (proj1 H) (proj1 (proj2 H))).
  - discriminate.
  - intros t0. discriminate.
Defined.

(** The stray text reaches the stream and is in no message of the run. *)
Example stray_text_scenario :
  outputs (readBody {| reads := [bytes text_turn]; read_error := None |} (script []))
  = [EmitText (js "Hel"); EmitText (js "lo"); EmitText (js "lost")]
  /\ content (assistantMessage
                (turn_of (readBody {| reads := [bytes text_turn]; read_error := None |}
                            (script []))))
     = {[ position 0 := TextBlock (js "Hello") ]}.
Proof. computed. Qed.

(** * The further properties on the reference host *)

(** ** The todo list *)

Example todo_scenario :
  map todoList.id
    (todoList.after_calls todoList.todos [add_payload; complete_second; list_all])
  = [js "todo-001"; js "todo-002"; js "todo-003"; js "todo-004"]
  /\ map is_pending
       (todoList.after_calls todoList.todos [add_payload; complete_second; list_all])
     = [true; false; false; true]
  /\ success_of (fst (todoList.runTodoManager todoList.todos add_payload))
     = Some (todoList.item_json shipped)
  /\ failure_of (fst (todoList.runTodoManager todoList.todos complete_fourth))
     = Some (js "Unable to find todo with id todo-004.").
Proof. computed. Qed.

Lemma todo_add_then_list_witness :
  success_of (fst (todoList.runTodoManager todoList.todos add_payload))
  = Some (todoList.item_json shipped)
  /\ snd (todoList.runTodoManager todoList.todos add_payload)
     = todoList.todos ++ [shipped]
  /\ success_of
       (fst (todoList.runTodoManager
               (snd (todoList.runTodoManager todoList.todos add_payload)) list_all))
     = Some (JArr (map todoList.item_json (todoList.todos ++ [shipped]))).
Proof.
  pose proof (todo_add_then_list todoList.todos add_payload (js " Ship it ")
                [js "release"] list_all eq_refl eq_refl eq_refl eq_refl eq_refl) as Ht.
  cbv zeta in Ht.
  destruct (todoList.runTodoManager todoList.todos add_payload) as [outcome store'].
  destruct Ht as (Hs & Hstore & Hall & _).
  split; [exact Hs|]. split; [exact Hstore|]. exact (Hall eq_refl).
Defined.

Lemma todo_complete_witness :
  snd (todoList.runTodoManager
         (snd (todoList.runTodoManager todoList.todos complete_second)) complete_second)
  = snd (todoList.runTodoManager todoList.todos complete_second).
Proof.
  pose proof (todo_complete todoList.todos complete_second (text " todo-002 ")
                eq_refl eq_refl eq_refl) as Ht.
  destruct (todoList.runTodoManager todoList.todos complete_second) as [outcome store'].
  exact (proj2 Ht).
Defined.

Lemma todo_items_persist_witness :
  exists item',
    todoList.after_calls todoList.todos [complete_second; add_payload] !! 1%nat
    = Some item'
    /\ todoList.id item' = js "todo-002"
    /\ todoList.title item' = js "Draft MCP onboarding guide"
    /\ todoList.tags item' = [js "documentation"; js "mcp"].
Proof.
  destruct (todo_items_persist todoList.todos [complete_second; add_payload] 1
              {| todoList.id := js "todo-002";
                 todoList.title := js "Draft MCP onboarding guide";
                 todoList.status := todoList.pending;
                 todoList.tags := [js "documentation"; js "mcp"] |} eq_refl)
    as (item' & Hi & Hid & Htitle & Htags & _).
  exists item'. exact (conj Hi (conj Hid (conj Htitle Htags))).
Defined.

(** A listing with the empty filter succeeds and returns nothing. *)
Lemma todo_list_filter_witness :
  success_of (fst (todoList.runTodoManager todoList.todos list_blank)) = Some (JArr []).
Proof. exact (todo_list_filter todoList.todos list_blank eq_refl). Defined.

Lemma todo_add_then_complete_witness :
  snd (todoList.runTodoManager
         (snd (todoList.addTodo todoList.todos (js "Ship it") (Some [js "release"])))
         complete_fourth)
  = todoList.todos ++ [marked shipped].
Proof.
  pose proof (todo_add_then_complete [] (js "Ship it") (Some [js "release"])
                complete_fourth (js "todo-004") eq_refl eq_refl eq_refl) as Ht.
  cbv zeta in Ht.
  change (todoList.after_calls todoList.todos []) with todoList.todos in Ht.
  destruct (todoList.runTodoManager _ complete_fourth) as [outcome store'].
  exact (proj2 Ht).
Defined.

(** ** The knowledge base *)

Example lookup_scenario :
  lookup_result
  = JArr [knowledgeBase.entry_json
            {| knowledgeBase.id := js "kb-004";
               knowledgeBase.title := js "Planning dry-runs";
               knowledgeBase.summary := js "Tactics for issuing dry-run requests so the model can inspect schemas before executing potentially unsafe actions.";
               knowledgeBase.url := js "https://example.com/docs/dry-runs";
               knowledgeBase.tags := [js "planning"; js "safety"] |}]
  /\ map title lookup_trace
     = [js "Validate payload"; js "Rank entries"; js "Prepare response"].
Proof. computed. Qed.

Lemma kb_lookup_results_witness :
  exists entries,
    lookup_result = JArr (map knowledgeBase.entry_json entries)
    /\ entries `sublist_of` knowledgeBase.KNOWLEDGE_BASE
    /\ (length entries <= 2)%nat.
Proof.
  assert (knowledgeBase.runKnowledgeBaseLookup lookup_payload
          = Returned (ToolRunSuccess lookup_result [] lookup_trace)) as Hr by computed.
  destruct (kb_lookup_results _ _ _ _ Hr)
    as (query & tags & limit & entries & _ & _ & Hk & _ & _ & He & Hs & Hl & _).
  assert (limit = 2%Z) as -> by (vm_compute in Hk; congruence).
  exists entries. exact (conj He (conj Hs Hl)).
Defined.

(** ** The execute route *)

Example execute_scenario :
  execute.POST (script []) (Ok planning_body)
  = (Ok (execute.DryRun (JStr (js "dry-run")) knowledgeBaseTool), script [])
  /\ fst (execute.POST (script []) (Ok JNull))
     = Throw (js "Cannot read properties of null (reading 'toolName')").
Proof. computed. Qed.

Lemma execute_status_witness :
  execute.POST (script []) (Ok unknown_body)
  = (Ok (execute.Refused 404 (js "Unknown tool: rm")
           [trace_step (js "Lookup tool")
              (js "The orchestrator asked for a tool that is not registered in this host.")]),
     script [])
  /\ truthy (prop unknown_body "toolName") = true
  /\ forall tool, tool ∈ tools ->
                  prop unknown_body "toolName" <> Some (JStr (tool_name tool)).
Proof.
  assert (execute.POST (script []) (Ok unknown_body)
          = (Ok (execute.Refused 404 (js "Unknown tool: rm")
                   [trace_step (js "Lookup tool")
                      (js "The orchestrator asked for a tool that is not registered in this host.")]),
             script [])) as Hp by computed.
  split; [exact Hp|].
  exact (proj1 (proj1 (proj2 (execute_status _ _ _ _ Hp))) eq_refl).
Defined.

Lemma execute_without_code_witness :
  exists reply,
    execute.POST (script []) (Ok codeless_body) = (Ok reply, script [])
    /\ execute.status_of reply = 200.
Proof.
  destruct (execute_without_code (script []) codeless_body eq_refl eq_refl)
    as (reply & Hp & Hs & _).
  - intros code. discriminate.
  - exists reply. exact (conj Hp Hs).
Defined.

(** ** Turns *)

Lemma body_after_stop_ignored_witness :
  readBody {| reads := [bytes text_turn] ++ [bytes unknown_tool_turn];
              read_error := Some (js "reset") |} (script [])
  = readBody {| reads := [bytes text_turn]; read_error := None |} (script []).
Proof.
  apply body_after_stop_ignored.
  assert ((processBuffer (snd (decode new_TextDecoder (concat [bytes text_turn])))
             (new_Turn (script []))).2 = ReturnTrue) as -> by computed.
  discriminate.
Defined.

Lemma missing_api_key_witness :
  events (createAgentResponse (H := keyless) 1 (script []) hello)
  = [MessageEvent (userMessage (prompt hello));
     ErrorEvent (js "Missing ANTHROPIC_API_KEY environment variable.")].
Proof. exact (proj1 (missing_api_key (H := keyless) 0 (script []) hello I)). Defined.

Lemma tool_call_announced_witness :
  exists j, (j < 3)%nat
            /\ events (createAgentResponse 3 unknown_then_text hello) !! j
               = Some (ToolRequest (js "toolu_1") (js "delete_everything")).
Proof.
  apply (tool_call_announced 3 unknown_then_text hello 3 (js "toolu_1")
           (js "delete_everything") (JObj [])).
  computed.
Defined.

Example ping_ignored :
  has_case (event_of "event: ping|data: {'type':'ping'}") = false
  /\ event (event_of "event: ping|event:  message_stop |data: {}") = js "message_stop".
Proof. computed. Qed.

(** ** The reader of the stream and the encoder *)

Example cut_records_handled :
  map (fun payload => prop payload "type")
    (agentDemo.handled
       (agentDemo.streamAgentResponse (answer cut_records)))
  = [Some (JStr (js "done")); Some (JStr (js "assistant-delta"));
     Some (JStr (js "error"))]
  /\ agentDemo.request_error (agentDemo.streamAgentResponse (answer cut_records)) = None.
Proof. computed. Qed.

Lemma stream_lines_handled_witness :
  agentDemo.streamAgentResponse (answer cut_records)
  = {| agentDemo.handled :=
         agentDemo.records
           (split (snd (decode new_TextDecoder (concat cut_records))
                   ++ decode_end (fst (decode new_TextDecoder (concat cut_records))))
              LF);
       agentDemo.request_error := None |}.
Proof. exact (stream_lines_handled cut_records None 200 []). Defined.

Example coffee_encoded :
  map Byte.to_N (encode coffee) = [99; 97; 102; 195; 169; 240; 159; 152; 128].
Proof. computed. Qed.

(** The bytes cut inside the four of U+1F600. *)
Lemma encode_decode_witness :
  let '(d1, s1) := decode new_TextDecoder (take 6 (encode coffee)) in
  let '(d2, s2) := decode d1 (drop 6 (encode coffee)) in
  s1 ++ s2 ++ decode_end d2 = coffee.
Proof.
  assert (head coffee <> Some 65279) as Hb by discriminate.
  exact (proj2 (encode_decode coffee eq_refl Hb) (take 6 (encode coffee))
           (drop 6 (encode coffee)) (eq_sym (take_drop 6 (encode coffee)))).
Defined.
